(** * Nuru chat widget: a shallow embedding of the client script

    The widget script (the multi-tool version of the chat widget) is modelled
    function by function:
    - [JS]: JavaScript strings as lists of UTF-16 code units, and the small
      fragment of global regular-expression replacement the script uses;
    - [Markdown]: [parseMarkdown];
    - the remaining modules follow the order of the script. *)

From Stdlib Require Import List NArith ZArith QArith Qround Qabs Bool Lia String Ascii.
From stdpp Require Import gmap.
Import ListNotations.

(** ** JavaScript strings and global replacement *)
Module JS.

(** A JavaScript string is a sequence of UTF-16 code units. *)
Abbreviation char := N (only parsing).
Abbreviation jsstring := (list N) (only parsing).

(** ASCII literals of the script, written as Rocq strings. *)
Definition str (s : string) : jsstring :=
  List.map N_of_ascii (list_ascii_of_string s).

(** The double quote, which the script's HTML templates contain. *)
Definition dq : jsstring := [34%N].

Definition ch_eqb (a b : char) : bool := N.eqb a b.

(** LineTerminator of ECMAScript: LF, CR, LS (U+2028), PS (U+2029).  The dot
    of a regular expression without the [s] flag matches every code unit but
    these, and with the [m] flag [^] and [$] match next to them. *)
Definition is_lt (c : char) : bool :=
  (N.eqb c 10 || N.eqb c 13 || N.eqb c 8232 || N.eqb c 8233)%bool.

Definition is_digit (c : char) : bool := (N.leb 48 c && N.leb c 57)%bool.

Fixpoint str_eqb (a b : jsstring) : bool :=
  match a, b with
  | [], [] => true
  | x :: a', y :: b' => ch_eqb x y && str_eqb a' b'
  | _, _ => false
  end.

(** [strip p s]: the rest of [s] after the literal [p], when [s] starts with it. *)
Fixpoint strip (p s : jsstring) : option jsstring :=
  match p with
  | [] => Some s
  | x :: p' =>
      match s with
      | [] => None
      | y :: s' => if ch_eqb x y then strip p' s' else None
      end
  end.

(** String.prototype.startsWith *)
Definition startsWith (s p : jsstring) : bool :=
  match strip p s with Some _ => true | None => false end.

(** [take_line s]: the longest prefix of [s] without a line terminator, and
    what follows it (empty, or starting with a line terminator).  This is what
    a greedy [.*] consumes, and where [$] holds under the [m] flag. *)
Fixpoint take_line (s : jsstring) : jsstring * jsstring :=
  match s with
  | [] => ([], [])
  | c :: s' =>
      if is_lt c then ([], s)
      else let (l, r) := take_line s' in (c :: l, r)
  end.

(** [^] under the [m] flag, from the code unit before the position. *)
Definition at_bol (prev : option char) : bool :=
  match prev with
  | None => true
  | Some c => is_lt c
  end.

(** One attempt of a regular expression at a position: from the code unit
    before the position (for [^] and lookbehind) and the text from the
    position on, the matched text, its replacement and the text after it. *)
Record hit := Hit { matched : jsstring; repl : jsstring; rest : jsstring }.

Definition matcher := option char -> jsstring -> option hit.

Definition last_char (prev : option char) (m : jsstring) : option char :=
  match rev m with
  | [] => prev
  | c :: _ => Some c
  end.

(** String.prototype.replace with a global regular expression: the leftmost
    match from the current position is replaced and the scan goes on after it;
    a position without a match keeps its code unit.  After an empty match
    the scan advances by one code unit. *)
Fixpoint replace_fuel (m : matcher) (fuel : nat) (prev : option char)
    (s : jsstring) : jsstring :=
  match fuel with
  | O => s
  | S fuel' =>
      match s with
      | [] => []
      | c :: s' =>
          match m prev s with
          | Some h =>
              match matched h with
              | [] => repl h ++ c :: replace_fuel m fuel' (Some c) s'
              | _ :: _ =>
                  repl h ++ replace_fuel m fuel' (last_char prev (matched h)) (rest h)
              end
          | None => c :: replace_fuel m fuel' (Some c) s'
          end
      end
  end.

Definition replace (m : matcher) (s : jsstring) : jsstring :=
  replace_fuel m (List.length s) None s.

(** [s.replace(/c/g, r)] for a single code unit [c]. *)
Definition replace_char (c : char) (r : jsstring) (s : jsstring) : jsstring :=
  flat_map (fun x => if ch_eqb x c then r else [x]) s.

End JS.

(** ** parseMarkdown *)
Module Markdown.
Import JS.

Definition option_bind {A B} (o : option A) (f : A -> option B) : option B :=
  match o with Some a => f a | None => None end.

(** *** HTML templates of the replacements *)
Definition h4_open : jsstring := Eval vm_compute in (str "<h4 class=" ++ dq ++ str "nuru-h4" ++ dq ++ str ">").
Definition h4_close : jsstring := Eval vm_compute in (str "</h4>").
Definition h3_open : jsstring := Eval vm_compute in (str "<h3 class=" ++ dq ++ str "nuru-h3" ++ dq ++ str ">").
Definition h3_close : jsstring := Eval vm_compute in (str "</h3>").
Definition strong_open : jsstring := Eval vm_compute in (str "<strong>").
Definition strong_close : jsstring := Eval vm_compute in (str "</strong>").
Definition em_open : jsstring := Eval vm_compute in (str "<em>").
Definition em_close : jsstring := Eval vm_compute in (str "</em>").
Definition li_open : jsstring := Eval vm_compute in (str "<li>").
Definition li_close : jsstring := Eval vm_compute in (str "</li>").
Definition ul_open : jsstring := Eval vm_compute in (str "<ul class=" ++ dq ++ str "nuru-list" ++ dq ++ str ">").
Definition ul_close : jsstring := Eval vm_compute in (str "</ul>").
Definition hr_tag : jsstring := Eval vm_compute in (str "<hr class=" ++ dq ++ str "nuru-divider" ++ dq ++ str ">").
Definition p_open : jsstring := Eval vm_compute in (str "<p class=" ++ dq ++ str "nuru-p" ++ dq ++ str ">").
Definition p_close : jsstring := Eval vm_compute in (str "</p>").
Definition p_break : jsstring := Eval vm_compute in (p_close ++ p_open).
Definition br_tag : jsstring := Eval vm_compute in (str "<br>").

Definition star : char := 42%N.
Definition dash : char := 45%N.
Definition bullet : char := 8226%N.   (* U+2022 *)
Definition newline : char := 10%N.

(** *** Line rules: [/^<marker>(.+)$/gm]

    At a line start, after the marker, the capture is the rest of the line,
    which must not be empty; the replacement puts it between two tags. *)
Definition line_rule (marker : jsstring -> option (jsstring * jsstring))
    (open close : jsstring) : matcher :=
  fun prev s =>
    if at_bol prev then
      match marker s with
      | Some (mk, after) =>
          match take_line after with
          | ([], _) => None
          | (text, r) => Some (Hit (mk ++ text) (open ++ text ++ close) r)
          end
      | None => None
      end
    else None.

Definition literal_marker (p : jsstring) (s : jsstring) : option (jsstring * jsstring) :=
  match strip p s with
  | Some r => Some (p, r)
  | None => None
  end.

(** [/^### (.+)$/gm] and [/^## (.+)$/gm] *)
Definition m_h4 : matcher := line_rule (literal_marker (str "### ")) h4_open h4_close.
Definition m_h3 : matcher := line_rule (literal_marker (str "## ")) h3_open h3_close.

(** [/^[-•] (.+)$/gm] *)
Definition bullet_marker (s : jsstring) : option (jsstring * jsstring) :=
  match s with
  | c :: sp :: r =>
      if (ch_eqb c dash || ch_eqb c bullet) && ch_eqb sp 32%N then Some ([c; sp], r)
      else None
  | _ => None
  end.
Definition m_bullet : matcher := line_rule bullet_marker li_open li_close.

(** [/^\d+\. (.+)$/gm]: all the digits at the line start (one at least), then
    a period and a space. *)
Fixpoint take_digits (s : jsstring) : jsstring * jsstring :=
  match s with
  | [] => ([], [])
  | c :: s' =>
      if is_digit c then let (d, r) := take_digits s' in (c :: d, r)
      else ([], s)
  end.

Definition numbered_marker (s : jsstring) : option (jsstring * jsstring) :=
  match take_digits s with
  | ([], _) => None
  | (d, r) =>
      match strip (str ". ") r with
      | Some r' => Some (d ++ str ". ", r')
      | None => None
      end
  end.
Definition m_numbered : matcher := line_rule numbered_marker li_open li_close.

(** [/^---+$/gm]: a whole line of three dashes or more. *)
Definition m_hr : matcher :=
  fun prev s =>
    if at_bol prev then
      match take_line s with
      | (l, r) =>
          if (3 <=? List.length l)%nat && forallb (ch_eqb dash) l
          then Some (Hit l hr_tag r)
          else None
      end
    else None.

(** *** Bold: [/\*\*(.+?)\*\*/g]

    [bold_body s] extends the lazy capture over [s] until two stars follow;
    the capture cannot cross a line terminator. *)
Fixpoint bold_body (s : jsstring) : option (jsstring * jsstring) :=
  match strip [star; star] s with
  | Some r => Some ([], r)
  | None =>
      match s with
      | [] => None
      | c :: s' =>
          if is_lt c then None
          else match bold_body s' with
               | Some (cap, r) => Some (c :: cap, r)
               | None => None
               end
      end
  end.

Definition m_bold : matcher :=
  fun _ s =>
    match strip [star; star] s with
    | Some (c :: s') =>
        if is_lt c then None
        else match bold_body s' with
             | Some (cap, r) =>
                 Some (Hit ([star; star] ++ (c :: cap) ++ [star; star])
                           (strong_open ++ (c :: cap) ++ strong_close) r)
             | None => None
             end
    | _ => None
    end.

(** *** Italic: a star with no star before or after it, a lazy [.+?], and
    again a star with no star before or after it (the two negative
    lookarounds of the source on each delimiter), under the [g] flag.

    A star is a delimiter when the code unit before it and the one after it
    are not stars.  [ital_body last s]: [last] is the last code unit of the
    capture so far (the lookbehind of the closing star). *)
Definition next_is_star (s : jsstring) : bool :=
  match s with
  | c :: _ => ch_eqb c star
  | [] => false
  end.

Fixpoint ital_body (last : char) (s : jsstring) : option (jsstring * jsstring) :=
  match s with
  | [] => None
  | c :: s' =>
      if ch_eqb c star && negb (ch_eqb last star) && negb (next_is_star s')
      then Some ([], s')
      else if is_lt c then None
      else match ital_body c s' with
           | Some (cap, r) => Some (c :: cap, r)
           | None => None
           end
  end.

Definition m_italic : matcher :=
  fun prev s =>
    match prev, s with
    | _, [] => None
    | _, [_] => None
    | p, o :: c :: s' =>
        if ch_eqb o star
           && negb (match p with Some x => ch_eqb x star | None => false end)
           && negb (ch_eqb c star) && negb (is_lt c)
        then match ital_body c s' with
             | Some (cap, r) =>
                 Some (Hit ([star] ++ (c :: cap) ++ [star])
                           (em_open ++ (c :: cap) ++ em_close) r)
             | None => None
             end
        else None
    end.

(** *** Grouping: [/(<li>.*<\/li>\n?)+/g]

    [li_tail s]: the greedy [.*] followed by the closing tag: the capture
    runs to the last closing tag of the line. *)
Fixpoint li_tail (s : jsstring) : option (jsstring * jsstring) :=
  match s with
  | [] => None
  | c :: s' =>
      if is_lt c then None
      else match li_tail s' with
           | Some (m, r) => Some (c :: m, r)
           | None =>
               match strip li_close s with
               | Some r => Some (li_close, r)
               | None => None
               end
           end
  end.

(** One iteration of the group: [<li>.*</li>\n?]. *)
Definition li_item (s : jsstring) : option (jsstring * jsstring) :=
  match strip li_open s with
  | Some after =>
      match li_tail after with
      | Some (m, r) =>
          match r with
          | c :: r' =>
              if ch_eqb c newline then Some (li_open ++ m ++ [newline], r')
              else Some (li_open ++ m, r)
          | [] => Some (li_open ++ m, r)
          end
      | None => None
      end
  | None => None
  end.

(** The further iterations of the greedy [+]. *)
Fixpoint li_items (fuel : nat) (s : jsstring) : jsstring * jsstring :=
  match fuel with
  | O => ([], s)
  | S fuel' =>
      match li_item s with
      | Some (m, r) => let (ms, r') := li_items fuel' r in (m ++ ms, r')
      | None => ([], s)
      end
  end.

Definition m_ul : matcher :=
  fun _ s =>
    match li_item s with
    | Some (m, r) =>
        let (ms, r') := li_items (List.length r) r in
        Some (Hit (m ++ ms) (ul_open ++ (m ++ ms) ++ ul_close) r')
    | None => None
    end.

(** *** Line breaks: [/\n\n/g] and [/\n/g] *)
Definition m_parbreak : matcher :=
  fun _ s =>
    match strip [newline; newline] s with
    | Some r => Some (Hit [newline; newline] p_break r)
    | None => None
    end.

(** *** The pipeline *)
Definition escape (s : jsstring) : jsstring :=
  replace_char 62%N (str "&gt;") (replace_char 60%N (str "&lt;") (replace_char 38%N (str "&amp;") s)).

Definition passes : list (jsstring -> jsstring) :=
  [ replace m_h4; replace m_h3; replace m_bold; replace m_italic;
    replace m_bullet; replace m_ul; replace m_numbered; replace m_hr;
    replace m_parbreak; replace_char newline br_tag ].

Definition body (text : jsstring) : jsstring :=
  fold_left (fun html f => f html) passes (escape text).

Definition is_block (html : jsstring) : bool :=
  startsWith html (str "<h") || startsWith html (str "<ul") || startsWith html (str "<ol").

Definition wrap (html : jsstring) : jsstring :=
  if is_block html then html else p_open ++ html ++ p_close.

Definition parseMarkdown (text : jsstring) : jsstring :=
  match text with
  | [] => []
  | _ => wrap (body text)
  end.

End Markdown.


(** ** JavaScript values as [JSON.parse] and property access produce them *)
Module Values.
Import JS.

(** The primitives of JavaScript numbers (IEEE doubles) that the script
    uses.  They are the engine's, not the script's: the script is modelled
    over any implementation of them. *)
Class Number (num : Type) := {
  (** the number of an integer literal of the script *)
  num_of_Z : Z -> num;
  (** Number::toString, as in a template literal *)
  num_toString : num -> list N;
  (** [x.toString(36)] *)
  num_toString36 : num -> list N;
  (** [x.toFixed(1)] *)
  num_toFixed1 : num -> list N;
  (** [x.toLocaleString('en-US', {style: 'currency', currency: 'USD',
      minimumFractionDigits: 0})] *)
  num_toCurrency : num -> list N;
  (** StringToNumber (the result may be NaN) *)
  num_of_string : list N -> num;
  (** NaN *)
  num_nan : num;
  (** [x >= y] on numbers (false when one of them is NaN) *)
  num_geb : num -> num -> bool;
  (** ToBoolean: false for zeros and NaN *)
  num_truthy : num -> bool;
  (** [Math.floor(x * k) + k'] for integer literals [k], [k'] *)
  num_floor_scale : num -> Z -> Z -> num
}.

#[local] Set Warnings "-register-all".
Inductive value {num : Type} : Type :=
| VUndefined
| VNull
| VBool (b : bool)
| VNum (n : num)
| VStr (s : list N)
| VArr (elems : list value)
| VObj (fields : list (list N * value)).
Arguments value : clear implicits.

Section WithNumber.
Context {num : Type} {NumOps : Number num}.

Abbreviation val := (value num).

(** ToBoolean *)
Definition truthy (v : val) : bool :=
  match v with
  | VUndefined | VNull => false
  | VBool b => b
  | VNum n => num_truthy n
  | VStr s => match s with [] => false | _ => true end
  | VArr _ | VObj _ => true
  end.

(** The own property [k] of an object built by [JSON.parse] (its keys are
    distinct). *)
Fixpoint own (fields : list (list N * val)) (k : list N) : option val :=
  match fields with
  | [] => None
  | (k', v) :: fields' => if str_eqb k' k then Some v else own fields' k
  end.

(** [v.k] for a key [k] that no built-in prototype defines (all the data
    keys the script reads): the own property of an object, [undefined] on
    every other value but [null] and [undefined], where the access throws a
    TypeError ([None]). *)
Definition get (v : val) (k : list N) : option val :=
  match v with
  | VUndefined | VNull => None
  | VObj fields => Some (match own fields k with Some x => x | None => VUndefined end)
  | _ => Some VUndefined
  end.

(** [v[0]]: the first element of an array, the first code unit of a string,
    the property ["0"] of an object. *)
Definition get0 (v : val) : option val :=
  match v with
  | VUndefined | VNull => None
  | VArr l => Some (match l with x :: _ => x | [] => VUndefined end)
  | VStr s => Some (match s with c :: _ => VStr [c] | [] => VUndefined end)
  | VObj fields => Some (match own fields (str "0") with Some x => x | None => VUndefined end)
  | _ => Some VUndefined
  end.

Definition comma : list N := str ",".

Fixpoint join (sep : list N) (parts : list (list N)) : list N :=
  match parts with
  | [] => []
  | [p] => p
  | p :: ps => p ++ sep ++ join sep ps
  end.

Fixpoint sequence {A} (l : list (option A)) : option (list A) :=
  match l with
  | [] => Some []
  | Some x :: l' => match sequence l' with Some xs => Some (x :: xs) | None => None end
  | None :: _ => None
  end.

(** ToString, as a template literal applies it.  An array is joined with
    commas, [null] and [undefined] elements giving the empty string.  An object
    goes through OrdinaryToPrimitive: without an own [toString] the inherited
    one answers "[object Object]"; an own [toString] (never callable in parsed
    JSON) leaves [valueOf], which never yields a primitive: TypeError. *)
Fixpoint to_string (v : val) : option (list N) :=
  match v with
  | VUndefined => Some (str "undefined")
  | VNull => Some (str "null")
  | VBool true => Some (str "true")
  | VBool false => Some (str "false")
  | VNum n => Some (num_toString n)
  | VStr s => Some s
  | VArr l =>
      match sequence (List.map (fun e => match e with
                                         | VUndefined | VNull => Some []
                                         | _ => to_string e
                                         end) l) with
      | Some parts => Some (join comma parts)
      | None => None
      end
  | VObj fields =>
      match own fields (str "toString") with
      | Some _ => None
      | None => Some (str "[object Object]")
      end
  end.

(** [v.toLocaleString('en-US', options)] with the currency options of the
    script.  Numbers are formatted as currency; strings and booleans inherit
    Object.prototype.toLocaleString, which calls [toString]; arrays format
    each element the same way; an object needs the inherited method (no
    own [toLocaleString]) and then a working [toString]. *)
Fixpoint to_currency (v : val) : option (list N) :=
  match v with
  | VUndefined | VNull => None
  | VBool true => Some (str "true")
  | VBool false => Some (str "false")
  | VNum n => Some (num_toCurrency n)
  | VStr s => Some s
  | VArr l =>
      match sequence (List.map (fun e => match e with
                                         | VUndefined | VNull => Some []
                                         | _ => to_currency e
                                         end) l) with
      | Some parts => Some (join comma parts)
      | None => None
      end
  | VObj fields =>
      match own fields (str "toLocaleString"), own fields (str "toString") with
      | None, None => Some (str "[object Object]")
      | _, _ => None
      end
  end.

(** [v.toFixed(1)]: only numbers have the method. *)
Definition to_fixed1 (v : val) : option (list N) :=
  match v with
  | VNum n => Some (num_toFixed1 n)
  | _ => None
  end.

(** ToNumber through ToPrimitive with hint number, as [>=] applies it to its
    left operand. *)
Definition to_number (v : val) : option num :=
  match v with
  | VUndefined => Some num_nan
  | VNull => Some (num_of_Z 0)
  | VBool true => Some (num_of_Z 1)
  | VBool false => Some (num_of_Z 0)
  | VNum n => Some n
  | VStr s => Some (num_of_string s)
  | VArr _ | VObj _ =>
      match to_string v with
      | Some s => Some (num_of_string s)
      | None => None
      end
  end.

(** [v >= k] for an integer literal [k] *)
Definition geb_lit (v : val) (k : Z) : option bool :=
  match to_number v with
  | Some n => Some (num_geb n (num_of_Z k))
  | None => None
  end.

(** [v === 'literal'] *)
Definition is_str (v : val) (s : list N) : bool :=
  match v with
  | VStr s' => str_eqb s' s
  | _ => false
  end.

(** [v !== undefined] *)
Definition defined (v : val) : bool :=
  match v with
  | VUndefined => false
  | _ => true
  end.

End WithNumber.
End Values.

(** ** The widget: module state, page and effects *)
Module Widget.
Import JS Values.

Definition BACKEND_URL : list N := str "https://tool6-client-intake-production.up.railway.app".
Definition TOOL3_API : list N := str "https://tool3-business-intel-backend-production.up.railway.app".
Definition TOOL4_API : list N := str "https://tool4-ai-readiness-production.up.railway.app".
Definition TOOL5_API : list N := str "https://tool5-roi-projector-production.up.railway.app".

Definition storage_key : list N := str "nuru_session_id".

Inductive storage_op :=
| GetItem (key : list N)
| SetItem (key value : list N).

Inductive level := Log | Error.

Section WithEngine.
Context {num : Type} {NumOps : Number num}.

(** [new URLSearchParams(init).get(name)], the browser's parser of
    form-urlencoded text: [None] is [null]. *)
Variable params_get : list N -> list N -> option (list N).

(** What [Date.now()] and [Math.random()] answer at a call. *)
Record env := Env { now : num; random : num }.

(** A fetch settles with a network failure or with a response; of a response
    the script reads [ok] and [json()], which rejects ([None]) when the body
    does not parse. *)
Inductive fetch_result :=
| NetworkError
| Response (ok : bool) (json : option (value num)).

(** The body handed to JSON.stringify in [sendNuruMessage]. *)
Record chat_body := ChatBody {
  message : list N;
  session_id : option (list N);
  audit_context : option (value num)
}.

Inductive request :=
| Get (url : list N)
| Post (url : list N) (body : chat_body).

(** Children of the [chatMessages] container. *)
Inductive node :=
| MessageNode (isUser : bool) (innerHTML : list N)
| TypingNode.   (* the element with id [typingIndicator] *)

Record log_entry := LogEntry { lvl : level; label : list N; payload : option (value num) }.

(** A suspended [sendNuruMessage]: at [await fetch(...)], or at
    [await response.json()] with what the body will give. *)
Inductive pending :=
| AwaitFetch
| AwaitJson (json : option (value num)).

Record widget := Widget {
  sessionId : option (list N);            (* [null] or a string *)
  isWaitingForResponse : bool;
  auditContext : value num;
  localStorage : gmap (list N) (list N);
  storage_log : list storage_op;          (* accesses to the storage, oldest first *)
  input_value : list N;                   (* [nuruInput.value] *)
  chatMessages : list node;
  console : list log_entry;
  requests : list request;                (* fetches issued, oldest first *)
  inflight : list pending                 (* suspended calls of sendNuruMessage *)
}.

Definition initial (storage : gmap (list N) (list N)) : widget :=
  Widget None false VNull storage [] [] [] [] [] [].

(** *** Effects: state, and a thrown exception that keeps the state *)
Inductive result (A : Type) :=
| Ok (a : A)
| Throw.
Arguments Ok {A} a.
Arguments Throw {A}.

Definition M (A : Type) : Type := widget -> result A * widget.

Definition ret {A} (a : A) : M A := fun w => (Ok a, w).
Definition throw {A} : M A := fun w => (Throw, w).
Definition bind {A B} (m : M A) (f : A -> M B) : M B :=
  fun w => match m w with
           | (Ok a, w') => f a w'
           | (Throw, w') => (Throw, w')
           end.
Definition read : M widget := fun w => (Ok w, w).
Definition modify (f : widget -> widget) : M unit := fun w => (Ok tt, f w).
Definition lift {A} (o : option A) : M A :=
  match o with Some a => ret a | None => throw end.

(** [try { body } catch { handler } finally { fin }] *)
Definition try_catch_finally (body handler fin : M unit) : M unit :=
  fun w =>
    match body w with
    | (Ok _, w1) => fin w1
    | (Throw, w1) =>
        match handler w1 with
        | (Ok _, w2) => fin w2
        | (Throw, w2) => match fin w2 with (_, w3) => (Throw, w3) end
        end
    end.

(** [try { body } catch { handler }] *)
Definition try_catch {A} (body handler : M A) : M A :=
  fun w =>
    match body w with
    | (Ok a, w1) => (Ok a, w1)
    | (Throw, w1) => handler w1
    end.


Notation "'let*' x ':=' m 'in' k" := (bind m (fun x => k))
  (at level 10, x pattern, m at level 100, k at level 200).
Notation "m ';;' k" := (bind m (fun _ => k))
  (at level 100, k at level 200, right associativity).

Definition set_sessionId (v : option (list N)) : M unit :=
  modify (fun w => Widget v (isWaitingForResponse w) (auditContext w) (localStorage w)
                     (storage_log w) (input_value w) (chatMessages w) (console w)
                     (requests w) (inflight w)).
Definition set_waiting (b : bool) : M unit :=
  modify (fun w => Widget (sessionId w) b (auditContext w) (localStorage w)
                     (storage_log w) (input_value w) (chatMessages w) (console w)
                     (requests w) (inflight w)).
Definition set_auditContext (c : value num) : M unit :=
  modify (fun w => Widget (sessionId w) (isWaitingForResponse w) c (localStorage w)
                     (storage_log w) (input_value w) (chatMessages w) (console w)
                     (requests w) (inflight w)).
Definition set_storage (st : gmap (list N) (list N)) (op : storage_op) : M unit :=
  modify (fun w => Widget (sessionId w) (isWaitingForResponse w) (auditContext w) st
                     (storage_log w ++ [op]) (input_value w) (chatMessages w) (console w)
                     (requests w) (inflight w)).
Definition set_input (v : list N) : M unit :=
  modify (fun w => Widget (sessionId w) (isWaitingForResponse w) (auditContext w)
                     (localStorage w) (storage_log w) v (chatMessages w) (console w)
                     (requests w) (inflight w)).
Definition set_chatMessages (l : list node) : M unit :=
  modify (fun w => Widget (sessionId w) (isWaitingForResponse w) (auditContext w)
                     (localStorage w) (storage_log w) (input_value w) l (console w)
                     (requests w) (inflight w)).
Definition console_write (e : log_entry) : M unit :=
  modify (fun w => Widget (sessionId w) (isWaitingForResponse w) (auditContext w)
                     (localStorage w) (storage_log w) (input_value w) (chatMessages w)
                     (console w ++ [e]) (requests w) (inflight w)).
Definition issue (r : request) : M unit :=
  modify (fun w => Widget (sessionId w) (isWaitingForResponse w) (auditContext w)
                     (localStorage w) (storage_log w) (input_value w) (chatMessages w)
                     (console w) (requests w ++ [r]) (inflight w)).
Definition set_inflight (l : list pending) : M unit :=
  modify (fun w => Widget (sessionId w) (isWaitingForResponse w) (auditContext w)
                     (localStorage w) (storage_log w) (input_value w) (chatMessages w)
                     (console w) (requests w) l).

(** *** getSessionId *)

(** [!sessionId]: [null] and the empty string are falsy. *)
Definition no_id (o : option (list N)) : bool :=
  match o with
  | None => true
  | Some [] => true
  | Some (_ :: _) => false
  end.

(** [s.substr(2, 9)] *)
Definition substr_2_9 (s : list N) : list N := firstn 9 (skipn 2 s).

(** ['session_' + Date.now() + '_' + Math.random().toString(36).substr(2, 9)] *)
Definition fresh_id (e : env) : list N :=
  str "session_" ++ num_toString (now e) ++ str "_" ++ substr_2_9 (num_toString36 (random e)).

Definition localStorage_getItem (k : list N) : M (option (list N)) :=
  let* w := read in
  set_storage (localStorage w) (GetItem k);;
  ret (localStorage w !! k).

Definition localStorage_setItem (k v : list N) : M unit :=
  let* w := read in
  set_storage (<[k := v]> (localStorage w)) (SetItem k v).

Definition getSessionId (e : env) : M (option (list N)) :=
  let* w := read in
  (if no_id (sessionId w) then
     let* stored := localStorage_getItem storage_key in
     set_sessionId stored;;
     if no_id stored then
       set_sessionId (Some (fresh_id e));;
       localStorage_setItem storage_key (fresh_id e)
     else ret tt
   else ret tt);;
  let* w' := read in
  ret (sessionId w').

(** *** loadAuditContext *)

(** [s.split('?')]: the segments between question marks. *)
Fixpoint split_q (s : list N) : list (list N) :=
  match s with
  | [] => [[]]
  | c :: s' =>
      if ch_eqb c 63 then [] :: split_q s'
      else match split_q s' with
           | seg :: segs => (c :: seg) :: segs
           | [] => [[c]]
           end
  end.

(** [window.location.hash.split('?')[1] || ''] *)
Definition hashParams (hash : list N) : list N :=
  match split_q hash with
  | _ :: seg :: _ => seg
  | _ => []
  end.

Definition session_url (base id : list N) : list N :=
  base ++ str "/api/session/" ++ id.

(** [await fetch(url)] against the network [net]; a network failure throws. *)
Definition fetch_get (net : list N -> fetch_result) (url : list N)
    : M (bool * option (value num)) :=
  issue (Get url);;
  match net url with
  | NetworkError => throw
  | Response ok body => ret (ok, body)
  end.

(** One [try { ... } catch { ... }] block of [loadAuditContext]: [Some] is
    the [return context] inside the block, [None] falls through to the next
    statement. *)
Definition probe (net : list N -> fetch_result) (base id : list N)
    (loaded : list N) (miss : log_entry) : M (option (value num)) :=
  try_catch
    (let* r := fetch_get net (session_url base id) in
     if fst r then
       let* context := lift (snd r) in
       console_write (LogEntry Log loaded (Some context));;
       ret (Some context)
     else ret None)
    (console_write miss;; ret None).

(** The three awaits are modelled in one run: between them the function
    reads and writes only its own locals and the console. *)
Definition loadAuditContext (hash : list N) (net : list N -> fetch_result)
    : M (value num) :=
  match params_get (hashParams hash) (str "session") with
  | None => ret VNull
  | Some [] => ret VNull
  | Some auditSessionId =>
      let* r5 := probe net TOOL5_API auditSessionId
                   (str "Loaded ROI context from Tool #5:")
                   (LogEntry Log (str "Not Tool #5 session") None) in
      match r5 with
      | Some context => ret context
      | None =>
          let* r4 := probe net TOOL4_API auditSessionId
                       (str "Loaded readiness context from Tool #4:")
                       (LogEntry Log (str "Not Tool #4 session") None) in
          match r4 with
          | Some context => ret context
          | None =>
              let* r3 := probe net TOOL3_API auditSessionId
                           (str "Loaded audit context from Tool #3:")
                           (LogEntry Error (str "Session not found in any tool") None) in
              match r3 with
              | Some context => ret context
              | None => ret VNull
              end
          end
      end
  end.


(** *** The message log and the typing indicator *)

(** The escaping of a user message in [addMessage]: the three entities, then
    [\n] to a line break. *)
Definition escape_user (content : list N) : list N :=
  replace_char Markdown.newline Markdown.br_tag (Markdown.escape content).

(** [parseMarkdown(content)] on any value: a falsy one gives the empty
    string, a string is rendered, and any other value has no [replace]
    method (TypeError). *)
Definition render_ai (content : value num) : option (list N) :=
  if truthy content then
    match content with
    | VStr s => Some (Markdown.parseMarkdown s)
    | _ => None
    end
  else Some [].

(** [content.replace(...)] of the user branch needs a string. *)
Definition render_user (content : value num) : option (list N) :=
  match content with
  | VStr s => Some (escape_user s)
  | _ => None
  end.

Definition addMessage (content : value num) (isUser : bool) : M unit :=
  let* html := lift (if isUser then render_user content else render_ai content) in
  let* w := read in
  set_chatMessages (chatMessages w ++ [MessageNode isUser html]).

Definition showTyping : M unit :=
  let* w := read in
  set_chatMessages (chatMessages w ++ [TypingNode]).

(** [getElementById('typingIndicator')] finds the first such element. *)
Fixpoint remove_typing (l : list node) : list node :=
  match l with
  | [] => []
  | TypingNode :: l' => l'
  | n :: l' => n :: remove_typing l'
  end.

Definition hideTyping : M unit :=
  let* w := read in
  set_chatMessages (remove_typing (chatMessages w)).

(** *** generateGreeting

    [None] is a thrown TypeError.  [random] is what [Math.random()] answers
    in the audit branch. *)
Definition generic_greeting : list N := str "Hi! I'm Nuru. What brings you here today?".

Definition nn : list N := [10%N; 10%N].

Definition opt_bind {A B} (o : option A) (f : A -> option B) : option B :=
  match o with Some a => f a | None => None end.

Notation "'do' x '<-' o ';' k" := (opt_bind o (fun x => k))
  (at level 10, x pattern, o at level 100, k at level 200).

Definition roi_greeting (context : value num) : option (list N) :=
  do annual_savings <- get context (str "annual_savings");
  do savings <- to_currency annual_savings;
  do roi_percentage <- get context (str "roi_percentage");
  do roi <- to_fixed1 roi_percentage;
  do breakeven <- get context (str "breakeven_months");
  do process_name <- get context (str "process_name");
  do process_name_s <- to_string process_name;
  do breakeven_s <- to_string breakeven;
  do risk_level <- get context (str "risk_level");
  Some (str "I see you just calculated ROI for " ++ process_name_s ++ str "." ++ nn
        ++ str "Your projection shows " ++ savings ++ str " annual savings with " ++ roi
        ++ str "% ROI, breaking even in " ++ breakeven_s ++ str " months." ++ nn
        ++ (if is_str risk_level (str "Low") then
              str "This looks like a strong automation candidate. Want to explore implementation options?"
            else if is_str risk_level (str "Medium") then
              str "There are some considerations to address. Let's discuss how to de-risk this project."
            else
              str "I notice some challenges with this automation. Let's find a better starting point for your AI journey.")).

Definition readiness_greeting (context : value num) : option (list N) :=
  do score <- get context (str "overall_score");
  do level <- get context (str "readiness_level");
  do score_s <- to_string score;
  do level_s <- to_string level;
  do ge75 <- geb_lit score 75;
  do closing <-
    (if ge75 : bool then
       Some (str "You're in great shape! Let's talk about which automation to build first.")
     else
       do ge60 <- geb_lit score 60;
       Some (if ge60 : bool then
               str "You have solid foundations. Want to address the gaps before we start building?"
             else
               str "Let's work on strengthening your foundations. I can show you the fastest path forward."));
  Some (str "I see you scored " ++ score_s ++ str "/100 on AI readiness (" ++ level_s
        ++ str ")." ++ nn ++ closing).

(** [top_waste_zones && top_waste_zones[0] ? top_waste_zones[0].name : 'operations'] *)
Definition top_zone (top_waste_zones : value num) : option (value num) :=
  if truthy top_waste_zones then
    do first <- get0 top_waste_zones;
    if truthy first then get first (str "name")
    else Some (VStr (str "operations"))
  else Some (VStr (str "operations")).

Definition audit_greeting (random : num) (context : value num) : option (list N) :=
  do company_name <- get context (str "company_name");
  do waste_score <- get context (str "waste_score");
  do total_hours_wasted <- get context (str "total_hours_wasted");
  do top_waste_zones <- get context (str "top_waste_zones");
  do topZone <- top_zone top_waste_zones;
  let patternCount := num_floor_scale random 50 50 in
  do company_name_s <- to_string company_name;
  do waste_score_s <- to_string waste_score;
  do total_hours_wasted_s <- to_string total_hours_wasted;
  do topZone_s <- to_string topZone;
  Some (str "I see you just completed an intelligence audit for " ++ company_name_s ++ str "." ++ nn
        ++ str "Your waste score is " ++ waste_score_s ++ str "/100, with " ++ total_hours_wasted_s
        ++ str " hours lost monthly." ++ nn
        ++ str "Top waste zone: " ++ topZone_s ++ nn
        ++ str "I've analyzed " ++ num_toString patternCount
        ++ str " similar businesses. Want to see what worked for them?").

(** [context.k !== undefined], for a truthy [context] *)
Definition has (context : value num) (k : list N) : bool :=
  match get context k with
  | Some v => defined v
  | None => false
  end.

Definition generateGreeting (random : num) (context : value num) : option (list N) :=
  if negb (truthy context) then Some generic_greeting
  else if has context (str "annual_savings") then roi_greeting context
  else if has context (str "overall_score") then readiness_greeting context
  else if has context (str "waste_score") then audit_greeting random context
  else Some generic_greeting.


(** *** sendNuruMessage *)

(** WhiteSpace and LineTerminator code units, which [trim] removes. *)
Definition is_ws (c : N) : bool :=
  existsb (N.eqb c) [9; 10; 11; 12; 13; 32; 160; 5760; 8232; 8233; 8239; 8287; 12288; 65279]%N
  || (N.leb 8192 c && N.leb c 8202).

Fixpoint trim_start (s : list N) : list N :=
  match s with
  | [] => []
  | c :: s' => if is_ws c then trim_start s' else s
  end.

(** String.prototype.trim *)
Definition trim (s : list N) : list N := rev (trim_start (rev (trim_start s))).

Definition apology_backend : list N := str "Sorry, I encountered an error. Please try again.".
Definition apology_connection : list N := str "Sorry, I'm having trouble connecting. Please try again.".

Definition chat_url : list N := BACKEND_URL ++ str "/api/chat".

Definition suspend (p : pending) : M unit :=
  let* w := read in
  set_inflight (inflight w ++ [p]).

(** The call of [sendNuruMessage] up to [await fetch(...)].  Nothing between
    [try] and the fetch can throw here (the storage is taken to work), so the
    handlers belong to the later segments. *)
Definition sendNuruMessage (e : env) : M unit :=
  let* w := read in
  if isWaitingForResponse w then ret tt
  else
    match trim (input_value w) with
    | [] => ret tt
    | message =>
        addMessage (VStr message) true;;
        set_input [];;
        set_waiting true;;
        showTyping;;
        let* sid := getSessionId e in
        let* w1 := read in
        let requestBody :=
          ChatBody message sid
                   (if truthy (auditContext w1) then Some (auditContext w1) else None) in
        issue (Post chat_url requestBody);;
        suspend AwaitFetch
    end.

(** The [catch] and [finally] blocks. *)
Definition send_catch : M unit :=
  hideTyping;;
  addMessage (VStr apology_connection) false;;
  console_write (LogEntry Error (str "Connection error:") None).

Definition send_finally : M unit := set_waiting false.

(** From [await response.json()] to the end of the [try] block. *)
Definition send_reply (json : option (value num)) : M unit :=
  let* data := lift json in
  hideTyping;;
  let* response := lift (get data (str "response")) in
  if truthy response then addMessage response false
  else
    let* error := lift (get data (str "error")) in
    if truthy error then
      addMessage (VStr apology_backend) false;;
      console_write (LogEntry Error (str "Backend error:") (Some error))
    else ret tt.

(** *** Events of the chat

    The script runs one handler at a time; a suspended [sendNuruMessage]
    resumes when its fetch or its body settles.  These are the events of the
    chat alone; the DOMContentLoaded handler, which can resume between them,
    is added in [Page]. *)
Inductive event :=
| UserTypes (text : list N)                 (* the input field is edited *)
| Submit (e : env)                          (* Enter or the send button *)
| FetchSettles (i : nat) (r : fetch_result) (* the fetch of the i-th suspended call *)
| JsonSettles (i : nat).                    (* its [response.json()] *)

Definition handle (ev : event) : M unit :=
  match ev with
  | UserTypes text => set_input text
  | Submit e => sendNuruMessage e
  | FetchSettles i r =>
      let* w := read in
      match inflight w !! i with
      | Some AwaitFetch =>
          match r with
          | NetworkError =>
              set_inflight (delete i (inflight w));;
              try_catch_finally throw send_catch send_finally
          | Response _ json =>
              set_inflight (<[i := AwaitJson json]> (inflight w))
          end
      | _ => ret tt
      end
  | JsonSettles i =>
      let* w := read in
      match inflight w !! i with
      | Some (AwaitJson json) =>
          set_inflight (delete i (inflight w));;
          try_catch_finally (send_reply json) send_catch send_finally
      | _ => ret tt
      end
  end.

Definition step (ev : event) (w : widget) : widget := snd (handle ev w).

Definition run (evs : list event) (w : widget) : widget :=
  fold_left (fun w ev => step ev w) evs w.

(** *** The DOMContentLoaded handler *)
Definition DOMContentLoaded (e : env) (hash : list N) (net : list N -> fetch_result)
    (random : num) : M unit :=
  console_write (LogEntry Log (str "Nuru Chat Widget initialized") None);;
  getSessionId e;;
  let* context := loadAuditContext hash net in
  set_auditContext context;;
  set_chatMessages [];;
  let* greeting := lift (generateGreeting random context) in
  addMessage (VStr greeting) false;;
  console_write (LogEntry Log (str "Nuru ready with context:")
                   (Some (VStr (if truthy context then str "Context loaded"
                                else str "No context")))).

End WithEngine.

Arguments Ok {A} a.
Arguments Throw {A}.

End Widget.

(** ** The basic widget (frontend/chat-widget.js)

    The widget without tool contexts and without rendering: a message is
    shown through [textContent], and the request body has no context. *)
Module Basic.
Import JS Values.

Definition BACKEND_URL : list N := str "https://tool6-client-intake-production.up.railway.app".

Section WithEngine.
Context {num : Type} {NumOps : Number num}.

(** Children of the [chatMessages] container. *)
Inductive bubble :=
| Message (isUser : bool) (textContent : list N)
| Typing.   (* the element with id [typingIndicator] *)

Record page := Page {
  sessionId : option (list N);
  isWaitingForResponse : bool;
  localStorage : gmap (list N) (list N);
  storage_log : list Widget.storage_op;
  input_value : list N;
  chatMessages : list bubble;
  console : list (Widget.log_entry (num := num));
  requests : list (Widget.request (num := num));
  inflight : list (Widget.pending (num := num))
}.

Definition initial (storage : gmap (list N) (list N)) : page :=
  Page None false storage [] [] [] [] [] [].

Definition M (A : Type) : Type := page -> Widget.result A * page.

Definition ret {A} (a : A) : M A := fun p => (Widget.Ok a, p).
Definition throw {A} : M A := fun p => (Widget.Throw, p).
Definition bind {A B} (m : M A) (f : A -> M B) : M B :=
  fun p => match m p with
           | (Widget.Ok a, p') => f a p'
           | (Widget.Throw, p') => (Widget.Throw, p')
           end.
Definition read : M page := fun p => (Widget.Ok p, p).
Definition modify (f : page -> page) : M unit := fun p => (Widget.Ok tt, f p).
Definition lift {A} (o : option A) : M A :=
  match o with Some a => ret a | None => throw end.

(** [try { body } catch { handler } finally { fin }] *)
Definition try_catch_finally (body handler fin : M unit) : M unit :=
  fun p =>
    match body p with
    | (Widget.Ok _, p1) => fin p1
    | (Widget.Throw, p1) =>
        match handler p1 with
        | (Widget.Ok _, p2) => fin p2
        | (Widget.Throw, p2) => match fin p2 with (_, p3) => (Widget.Throw, p3) end
        end
    end.

Notation "'let*' x ':=' m 'in' k" := (bind m (fun x => k))
  (at level 10, x pattern, m at level 100, k at level 200).
Notation "m ';;' k" := (bind m (fun _ => k))
  (at level 100, k at level 200, right associativity).

Definition set_sessionId (v : option (list N)) : M unit :=
  modify (fun p => Page v (isWaitingForResponse p) (localStorage p) (storage_log p)
                     (input_value p) (chatMessages p) (console p) (requests p) (inflight p)).
Definition set_waiting (b : bool) : M unit :=
  modify (fun p => Page (sessionId p) b (localStorage p) (storage_log p)
                     (input_value p) (chatMessages p) (console p) (requests p) (inflight p)).
Definition set_storage (st : gmap (list N) (list N)) (op : Widget.storage_op) : M unit :=
  modify (fun p => Page (sessionId p) (isWaitingForResponse p) st (storage_log p ++ [op])
                     (input_value p) (chatMessages p) (console p) (requests p) (inflight p)).
Definition set_input (v : list N) : M unit :=
  modify (fun p => Page (sessionId p) (isWaitingForResponse p) (localStorage p) (storage_log p)
                     v (chatMessages p) (console p) (requests p) (inflight p)).
Definition set_chatMessages (l : list bubble) : M unit :=
  modify (fun p => Page (sessionId p) (isWaitingForResponse p) (localStorage p) (storage_log p)
                     (input_value p) l (console p) (requests p) (inflight p)).
Definition console_write (e : Widget.log_entry) : M unit :=
  modify (fun p => Page (sessionId p) (isWaitingForResponse p) (localStorage p) (storage_log p)
                     (input_value p) (chatMessages p) (console p ++ [e]) (requests p)
                     (inflight p)).
Definition issue (r : Widget.request) : M unit :=
  modify (fun p => Page (sessionId p) (isWaitingForResponse p) (localStorage p) (storage_log p)
                     (input_value p) (chatMessages p) (console p) (requests p ++ [r])
                     (inflight p)).
Definition set_inflight (l : list Widget.pending) : M unit :=
  modify (fun p => Page (sessionId p) (isWaitingForResponse p) (localStorage p) (storage_log p)
                     (input_value p) (chatMessages p) (console p) (requests p) l).

(** *** getSessionId *)

(** ['session_' + Date.now() + '_' + Math.random().toString(36).substr(2, 9)] *)
Definition fresh_id (e : Widget.env) : list N :=
  str "session_" ++ num_toString (Widget.now e) ++ str "_"
  ++ Widget.substr_2_9 (num_toString36 (Widget.random e)).

Definition localStorage_getItem (k : list N) : M (option (list N)) :=
  let* p := read in
  set_storage (localStorage p) (Widget.GetItem k);;
  ret (localStorage p !! k).

Definition localStorage_setItem (k v : list N) : M unit :=
  let* p := read in
  set_storage (<[k := v]> (localStorage p)) (Widget.SetItem k v).

Definition getSessionId (e : Widget.env) : M (option (list N)) :=
  let* p := read in
  (if Widget.no_id (sessionId p) then
     let* stored := localStorage_getItem (str "nuru_session_id") in
     set_sessionId stored;;
     if Widget.no_id stored then
       set_sessionId (Some (fresh_id e));;
       localStorage_setItem (str "nuru_session_id") (fresh_id e)
     else ret tt
   else ret tt);;
  let* p' := read in
  ret (sessionId p').

(** *** The message log and the typing indicator *)

(** [bubble.textContent = content]: [null] and [undefined] give the empty
    text, any other value its string; the conversion of an object can throw. *)
Definition text_of (content : value num) : option (list N) :=
  match content with
  | VUndefined | VNull => Some []
  | _ => to_string content
  end.

Definition addMessage (content : value num) (isUser : bool) : M unit :=
  let* text := lift (text_of content) in
  let* p := read in
  set_chatMessages (chatMessages p ++ [Message isUser text]).

Definition showTyping : M unit :=
  let* p := read in
  set_chatMessages (chatMessages p ++ [Typing]).

(** [getElementById('typingIndicator')] finds the first such element. *)
Fixpoint remove_typing (l : list bubble) : list bubble :=
  match l with
  | [] => []
  | Typing :: l' => l'
  | n :: l' => n :: remove_typing l'
  end.

Definition hideTyping : M unit :=
  let* p := read in
  set_chatMessages (remove_typing (chatMessages p)).

(** *** sendNuruMessage *)

Definition apology_backend : list N := str "Sorry, I encountered an error. Please try again.".
Definition apology_connection : list N := str "Sorry, I'm having trouble connecting. Please try again.".

Definition chat_url : list N := BACKEND_URL ++ str "/api/chat".

Definition suspend (q : Widget.pending) : M unit :=
  let* p := read in
  set_inflight (inflight p ++ [q]).

(** The call up to [await fetch(...)]. *)
Definition sendNuruMessage (e : Widget.env) : M unit :=
  let* p := read in
  if isWaitingForResponse p then ret tt
  else
    match Widget.trim (input_value p) with
    | [] => ret tt
    | message =>
        addMessage (VStr message) true;;
        set_input [];;
        set_waiting true;;
        showTyping;;
        let* sid := getSessionId e in
        issue (Widget.Post chat_url (Widget.ChatBody message sid None));;
        suspend Widget.AwaitFetch
    end.

(** The [catch] and [finally] blocks. *)
Definition send_catch : M unit :=
  hideTyping;;
  addMessage (VStr apology_connection) false;;
  console_write (Widget.LogEntry Widget.Error (str "Connection error:") None).

Definition send_finally : M unit := set_waiting false.

(** From [await response.json()] to the end of the [try] block. *)
Definition send_reply (json : option (value num)) : M unit :=
  let* data := lift json in
  hideTyping;;
  let* response := lift (get data (str "response")) in
  if truthy response then addMessage response false
  else
    let* error := lift (get data (str "error")) in
    if truthy error then
      addMessage (VStr apology_backend) false;;
      console_write (Widget.LogEntry Widget.Error (str "Backend error:") (Some error))
    else ret tt.

(** *** Events of a page view *)
Definition handle (ev : Widget.event) : M unit :=
  match ev with
  | Widget.UserTypes text => set_input text
  | Widget.Submit e => sendNuruMessage e
  | Widget.FetchSettles i r =>
      let* p := read in
      match inflight p !! i with
      | Some Widget.AwaitFetch =>
          match r with
          | Widget.NetworkError =>
              set_inflight (delete i (inflight p));;
              try_catch_finally throw send_catch send_finally
          | Widget.Response _ json =>
              set_inflight (<[i := Widget.AwaitJson json]> (inflight p))
          end
      | _ => ret tt
      end
  | Widget.JsonSettles i =>
      let* p := read in
      match inflight p !! i with
      | Some (Widget.AwaitJson json) =>
          set_inflight (delete i (inflight p));;
          try_catch_finally (send_reply json) send_catch send_finally
      | _ => ret tt
      end
  end.

Definition step (ev : Widget.event) (p : page) : page := snd (handle ev p).

Definition run (evs : list Widget.event) (p : page) : page :=
  fold_left (fun p ev => step ev p) evs p.

(** *** handleNuruKeyPress

    The result tells whether [preventDefault] was called. *)
Definition handleNuruKeyPress (key : list N) (shiftKey : bool) (e : Widget.env) : M bool :=
  if str_eqb key (str "Enter") && negb shiftKey then
    sendNuruMessage e;;
    ret true
  else ret false.

(** *** The DOMContentLoaded handler *)
Definition DOMContentLoaded (e : Widget.env) : M unit :=
  console_write (Widget.LogEntry Widget.Log (str "Nuru Chat Widget initialized") None);;
  getSessionId e;;
  ret tt.

End WithEngine.
End Basic.

(** ** The Enter key of the multi-tool widget *)
Module Keyboard.
Import JS Values Widget.

Section WithEngine.
Context {num : Type} {NumOps : Number num}.

(** [handleNuruKeyPress(event)]; the result tells whether [preventDefault]
    was called. *)
Definition handleNuruKeyPress (key : list N) (shiftKey : bool) (e : env)
    : M (num := num) bool :=
  if str_eqb key (str "Enter") && negb shiftKey then
    bind (sendNuruMessage e) (fun _ => ret true)
  else ret false.

End WithEngine.
End Keyboard.

(** ** The page view: the startup handler together with the chat

    The DOMContentLoaded handler is suspended at [await loadAuditContext()]
    while the probes are on the network; chat events can run meanwhile, and
    the handler resumes after them.  [Widget.event] has the chat events alone;
    here the handler is cut at its awaits as well. *)
Module Page.
Import JS Values Widget.

Section WithEngine.
Context {num : Type} {NumOps : Number num}.
Variable params_get : list N -> list N -> option (list N).

Notation "'let*' x ':=' m 'in' k" := (bind m (fun x => k))
  (at level 10, x pattern, m at level 100, k at level 200).
Notation "m ';;' k" := (bind m (fun _ => k))
  (at level 100, k at level 200, right associativity).

(** The three [try] blocks of [loadAuditContext], in order: the base URL, the
    label logged with a loaded context, and what the [catch] block logs. *)
Definition probes : list (list N * list N * log_entry (num := num)) :=
  [ (TOOL5_API, str "Loaded ROI context from Tool #5:",
     LogEntry Log (str "Not Tool #5 session") None);
    (TOOL4_API, str "Loaded readiness context from Tool #4:",
     LogEntry Log (str "Not Tool #4 session") None);
    (TOOL3_API, str "Loaded audit context from Tool #3:",
     LogEntry Error (str "Session not found in any tool") None) ].

(** Where the DOMContentLoaded handler stands. *)
Inductive boot :=
| Unloaded                                  (* the event has not fired *)
| AwaitProbe (id : list N) (k : nat)        (* at [await fetch(...)] of block [k] *)
| AwaitBody (id : list N) (k : nat) (json : option (value num))
                                            (* at [await response.json()] of block [k] *)
| Started.                                  (* the handler has returned or thrown *)

(** The handler from [auditContext = ...] on, once [loadAuditContext] has
    answered [context]. *)
Definition resume (random : num) (context : value num) : M unit :=
  set_auditContext context;;
  set_chatMessages [];;
  let* greeting := lift (generateGreeting random context) in
  addMessage (VStr greeting) false;;
  console_write (LogEntry Log (str "Nuru ready with context:")
                   (Some (VStr (if truthy context then str "Context loaded"
                                else str "No context")))).

(** Entering block [k] of [loadAuditContext]: its fetch is issued and the
    handler waits; after the last block the function returns [null] and the
    handler goes on at once. *)
Definition enter (id : list N) (k : nat) (random : num) (w : widget) : widget * boot :=
  match probes !! k with
  | Some (base, _, _) => (snd (issue (Get (session_url base id)) w), AwaitProbe id k)
  | None => (snd (resume random VNull w), Started)
  end.

(** The handler up to its first wait.  Without a session parameter
    [loadAuditContext] returns at once and no other event can run before the
    handler goes on. *)
Definition load (e : env) (hash : list N) (random : num) (w : widget) : widget * boot :=
  let w1 := snd ((console_write (LogEntry Log (str "Nuru Chat Widget initialized") None);;
                  getSessionId e;; ret tt) w) in
  match params_get (hashParams hash) (str "session") with
  | None => (snd (resume random VNull w1), Started)
  | Some [] => (snd (resume random VNull w1), Started)
  | Some auditSessionId => enter auditSessionId 0 random w1
  end.

(** The fetch of block [k] settles. *)
Definition probe_settles (r : fetch_result) (random : num) (id : list N) (k : nat)
    (w : widget) : widget * boot :=
  match probes !! k with
  | Some (_, _, miss) =>
      match r with
      | NetworkError => enter id (S k) random (snd (console_write miss w))
      | Response true json => (w, AwaitBody id k json)
      | Response false _ => enter id (S k) random w
      end
  | None => (w, Started)
  end.

(** [response.json()] of block [k] settles. *)
Definition body_settles (random : num) (id : list N) (k : nat)
    (json : option (value num)) (w : widget) : widget * boot :=
  match probes !! k with
  | Some (_, loaded, miss) =>
      match json with
      | Some context =>
          (snd ((console_write (LogEntry Log loaded (Some context));;
                 resume random context) w), Started)
      | None => enter id (S k) random (snd (console_write miss w))
      end
  | None => (w, Started)
  end.

(** The events of a page view.  [random] is what [Math.random()] answers if
    the handler reaches [generateGreeting] in this step. *)
Inductive event :=
| Chat (ev : Widget.event (num := num))
| Load (e : env (num := num)) (hash : list N) (random : num)  (* DOMContentLoaded fires *)
| ProbeSettles (r : fetch_result (num := num)) (random : num)
| BodySettles (random : num).

Definition step (ev : event) (p : widget * boot) : widget * boot :=
  match ev, snd p with
  | Chat ev, b => (Widget.step ev (fst p), b)
  | Load e hash random, Unloaded => load e hash random (fst p)
  | ProbeSettles r random, AwaitProbe id k => probe_settles r random id k (fst p)
  | BodySettles random, AwaitBody id k json => body_settles random id k json (fst p)
  | _, _ => p
  end.

Definition run (evs : list event) (p : widget * boot) : widget * boot :=
  fold_left (fun p ev => step ev p) evs p.

Definition initial (storage : gmap (list N) (list N)) : widget (num := num) * boot :=
  (Widget.initial storage, Unloaded).

End WithEngine.
End Page.

(** ** A reference engine, to evaluate the model on concrete inputs

    Numbers are exact rationals and NaN.  The formatting functions agree with
    an engine's doubles on the integers below 2^53 in magnitude and on the
    fractions with a short exact decimal (or base 36) expansion, which is all
    the examples below use; StringToNumber reads plain decimal literals only.
    No theorem about the script depends on this instance. *)
Module Reference.
Import JS Values.

Inductive qnum :=
| NaN
| Fin (q : Q).

Definition digit_char (d : Z) : N :=
  if (d <? 10)%Z then Z.to_N (48 + d) else Z.to_N (87 + d).

(** The digits of a natural number in a base, most significant first. *)
Fixpoint digits_fuel (fuel : nat) (base n : Z) (acc : list N) : list N :=
  match fuel with
  | O => acc
  | S fuel' =>
      let acc' := digit_char (n mod base) :: acc in
      if (n / base =? 0)%Z then acc' else digits_fuel fuel' base (n / base) acc'
  end.

Definition digits (base n : Z) : list N :=
  digits_fuel (S (Z.to_nat (Z.log2 n))) base n [].

(** The digits of a fraction [0 <= r < 1] in a base, until it is exhausted. *)
Fixpoint frac_digits (fuel : nat) (base : Z) (r : Q) : list N :=
  match fuel with
  | O => []
  | S fuel' =>
      if Qeq_bool r 0 then []
      else
        let x := (r * inject_Z base)%Q in
        let d := Qfloor x in
        digit_char d :: frac_digits fuel' base (x - inject_Z d)%Q
  end.

Definition radix_string (base : Z) (q : Q) : list N :=
  let a := Qabs q in
  let i := Qfloor a in
  let f := frac_digits 20 base (a - inject_Z i)%Q in
  (if Qle_bool 0 q then [] else str "-")
  ++ digits base i
  ++ match f with [] => [] | _ => str "." ++ f end.

(** [x.toFixed(1)]: the nearest tenth, the larger one on a tie. *)
Definition fixed1 (q : Q) : list N :=
  let n := Qfloor (Qabs q * inject_Z 10 + (1 # 2))%Q in
  (if Qle_bool 0 q then [] else str "-")
  ++ digits 10 (n / 10) ++ str "." ++ digits 10 (n mod 10).

(** Thousands separators of en-US. *)
Fixpoint group3 (rev_digits : list N) : list N :=
  match rev_digits with
  | a :: b :: c :: ((_ :: _) as more) => a :: b :: c :: 44%N :: group3 more
  | l => l
  end.

(** en-US currency, USD, between 0 and 2 fraction digits, rounding half away
    from zero. *)
Definition currency (q : Q) : list N :=
  let cents := Qfloor (Qabs q * inject_Z 100 + (1 # 2))%Q in
  let c := (cents mod 100)%Z in
  (if Qle_bool 0 q then [] else str "-")
  ++ str "$" ++ rev (group3 (rev (digits 10 (cents / 100))))
  ++ (if (c =? 0)%Z then []
      else if (c mod 10 =? 0)%Z then str "." ++ digits 10 (c / 10)
      else str "." ++ digits 10 (c / 10) ++ digits 10 (c mod 10)).

Fixpoint read_digits (s : list N) (acc : Z) : option Z :=
  match s with
  | [] => Some acc
  | c :: s' =>
      if is_digit c then read_digits s' (acc * 10 + Z.of_N c - 48)%Z else None
  end.

Definition read_number (s : list N) : qnum :=
  match s with
  | [] => Fin 0
  | 45%N :: (_ :: _) as d =>
      match read_digits d 0 with Some z => Fin (inject_Z (- z)) | None => NaN end
  | d => match read_digits d 0 with Some z => Fin (inject_Z z) | None => NaN end
  end.

#[export] Instance qnum_number : Number qnum := {
  num_of_Z z := Fin (inject_Z z);
  num_toString x := match x with NaN => str "NaN" | Fin q => radix_string 10 q end;
  num_toString36 x := match x with NaN => str "NaN" | Fin q => radix_string 36 q end;
  num_toFixed1 x := match x with NaN => str "NaN" | Fin q => fixed1 q end;
  num_toCurrency x := match x with NaN => str "NaN" | Fin q => currency q end;
  num_of_string s := read_number s;
  num_nan := NaN;
  num_geb x y := match x, y with Fin a, Fin b => Qle_bool b a | _, _ => false end;
  num_truthy x := match x with NaN => false | Fin q => negb (Qeq_bool q 0) end;
  num_floor_scale x k k' :=
    match x with NaN => NaN | Fin q => Fin (inject_Z (Qfloor (q * inject_Z k) + k')) end
}.

Definition int (z : Z) : value qnum := VNum (Fin (inject_Z z)).

(** *** URLSearchParams

    The form-urlencoded parser on code units: sequences between [&], each
    split at its first [=], [+] read as a space and [%XX] as the code unit
    [XX] (which is the browser's answer when the decoded bytes are ASCII). *)
Fixpoint split_on (sep : N) (s : list N) : list (list N) :=
  match s with
  | [] => [[]]
  | c :: s' =>
      if N.eqb c sep then [] :: split_on sep s'
      else match split_on sep s' with
           | seg :: segs => (c :: seg) :: segs
           | [] => [[c]]
           end
  end.

Fixpoint cut_at (sep : N) (s : list N) : list N * list N :=
  match s with
  | [] => ([], [])
  | c :: s' =>
      if N.eqb c sep then ([], s')
      else let (a, b) := cut_at sep s' in (c :: a, b)
  end.

Definition hex_val (c : N) : option N :=
  if (N.leb 48 c && N.leb c 57)%bool then Some (c - 48)%N
  else if (N.leb 65 c && N.leb c 70)%bool then Some (c - 55)%N
  else if (N.leb 97 c && N.leb c 102)%bool then Some (c - 87)%N
  else None.

Fixpoint percent_decode (s : list N) : list N :=
  match s with
  | [] => []
  | c :: s' =>
      if N.eqb c 43 then 32%N :: percent_decode s'
      else if N.eqb c 37 then
        match s' with
        | h :: ((l :: _) as s'') =>
            match hex_val h, hex_val l with
            | Some a, Some b =>
                (16 * a + b)%N :: match percent_decode s'' with _ :: r => r | [] => [] end
            | _, _ => c :: percent_decode s'
            end
        | _ => c :: percent_decode s'
        end
      else c :: percent_decode s'
  end.

Definition parse_params (init : list N) : list (list N * list N) :=
  List.map (fun seq => let (k, v) := cut_at 61 seq in (percent_decode k, percent_decode v))
           (List.filter (fun seq => match seq with [] => false | _ => true end)
                        (split_on 38 init)).

Fixpoint first_named (name : list N) (l : list (list N * list N)) : option (list N) :=
  match l with
  | [] => None
  | (k, v) :: l' => if str_eqb k name then Some v else first_named name l'
  end.

Definition params_get (init name : list N) : option (list N) :=
  first_named name (parse_params init).

End Reference.

(** * Properties *)

(** ** Substrings and adjacent code units *)
Module Text.
Import JS.

(** [w] occurs in [s] (String.prototype.includes). *)
Definition sub (w s : list N) : Prop := exists a b, s = a ++ w ++ b.

Definition starts (w s : list N) : Prop := exists b, s = w ++ b.

(** No occurrence of the code unit [x] directly before [y]. *)
Definition clean (x y : N) (s : list N) : Prop := ~ sub [x; y] s.

Lemma sub_refl (w : list N) : sub w w.
Proof. exists [], []. now rewrite app_nil_r. Qed.

Lemma sub_app_l (w a b : list N) : sub w a -> sub w (a ++ b).
Proof.
  intros (p & q & ->). exists p, (q ++ b). now rewrite <- !List.app_assoc.
Qed.

Lemma sub_app_r (w a b : list N) : sub w b -> sub w (a ++ b).
Proof.
  intros (p & q & ->). exists (a ++ p), q. now rewrite <- !List.app_assoc.
Qed.

Lemma sub_cons (w : list N) (c : N) (s : list N) : sub w s -> sub w (c :: s).
Proof. apply (sub_app_r w [c] s). Qed.

Lemma sub_refl_starts (w : list N) : starts w w.
Proof. exists []. now rewrite List.app_nil_r. Qed.

Lemma starts_sub (w s : list N) : starts w s -> sub w s.
Proof. intros (b & ->). now exists [], b. Qed.

Lemma sub_cons_inv (w : list N) (c : N) (s : list N) :
  sub w (c :: s) -> starts w (c :: s) \/ sub w s.
Proof.
  intros ([|x a] & b & E); simpl in E.
  - left. now exists b.
  - right. injection E as -> ->. now exists a, b.
Qed.

Lemma sub_nil_inv (w : list N) : sub w [] -> w = [].
Proof.
  intros (a & b & E). symmetry in E.
  apply app_eq_nil in E as [_ E]. now apply app_eq_nil in E as [E _].
Qed.

(** An occurrence in [a ++ b] lies in [a], in [b], or across the seam. *)
Lemma sub_app_inv (w a b : list N) :
  sub w (a ++ b) ->
  sub w a \/ sub w b \/
  exists w1 w2 p q, w = w1 ++ w2 /\ w1 <> [] /\ w2 <> [] /\ a = p ++ w1 /\ b = w2 ++ q.
Proof.
  intros (p & q & E).
  apply app_eq_app in E as (l & [[Ea Ew] | [Ep Eb]]).
  - symmetry in Ew. apply app_eq_app in Ew as (l' & [[El Eq] | [Ew Eb]]).
    + left. exists p, l'. now rewrite Ea, El.
    + destruct l as [|x l].
      * right. left. exists [], q. simpl in *. now rewrite Eb, Ew.
      * destruct l' as [|y l'].
        -- left. exists p, []. rewrite Ea, Ew. now rewrite !List.app_nil_r.
        -- right. right. exists (x :: l), (y :: l'), p, q. repeat split; easy.
  - right. left. exists l, q. exact Eb.
Qed.


(** String.prototype.includes, as a test. *)
Fixpoint includes (w s : list N) : bool :=
  match strip w s with
  | Some _ => true
  | None =>
      match s with
      | [] => false
      | _ :: s' => includes w s'
      end
  end.

Lemma strip_app (p r : list N) : strip p (p ++ r) = Some r.
Proof.
  induction p as [|x p IH]; [reflexivity|]. simpl.
  unfold ch_eqb. now rewrite N.eqb_refl.
Qed.

Lemma includes_false (w s : list N) : includes w s = false -> ~ sub w s.
Proof.
  induction s as [|c s IH]; intros H Hs.
  - apply sub_nil_inv in Hs as ->. discriminate H.
  - unfold includes in H; fold includes in H.
    destruct (strip w (c :: s)) eqn:E; [discriminate|].
    apply sub_cons_inv in Hs as [(b & Hb) | Hs]; [|now apply IH].
    rewrite Hb, strip_app in E. discriminate.
Qed.

Lemma sub_trans (u w s : list N) : sub u w -> sub w s -> sub u s.
Proof.
  intros (a & b & ->) (p & q & ->).
  exists (p ++ a), (b ++ q). now rewrite <- !List.app_assoc.
Qed.

Lemma clean_sub (x y : N) (t s : list N) : clean x y s -> sub t s -> clean x y t.
Proof. intros C H H'. apply C. eapply sub_trans; eauto. Qed.

(** Two clean texts stay clean when joined, unless the pair forms at the seam. *)
Lemma clean_app (x y : N) (a b : list N) :
  clean x y a -> clean x y b ->
  ((forall p, a <> p ++ [x]) \/ (forall q, b <> y :: q)) ->
  clean x y (a ++ b).
Proof.
  intros Ca Cb Seam H.
  apply sub_app_inv in H as [H | [H | (w1 & w2 & p & q & E & N1 & N2 & Ea & Eb)]]; auto.
  destruct w1 as [|x1 [|? w1]]; try easy;
    destruct w2 as [|y1 w2]; try easy; simpl in E.
  - injection E as <- <- <-. destruct Seam as [S | S]; [now apply (S p) | now apply (S q)].
  - injection E as _ _ E. now destruct w1.
Qed.

Lemma clean_nil (x y : N) : clean x y [].
Proof. intros H. now apply sub_nil_inv in H. Qed.

Section Plain.
(** [special] marks the code units a rule looks at; a plain word holds none
    of them. *)
Variable special : N -> bool.

Definition plain (w : list N) : Prop := Forall (fun c => special c = false) w.
Definition marked (w : list N) : Prop := Forall (fun c => special c = true) w.

Definition ends_special (a : list N) : Prop :=
  forall p x, a = p ++ [x] -> special x = true.
Definition starts_special (b : list N) : Prop :=
  forall x q, b = x :: q -> special x = true.

Lemma plain_app_inv (a b : list N) : plain (a ++ b) -> plain a /\ plain b.
Proof. apply Forall_app. Qed.

Lemma ends_special_app (a b : list N) : b <> [] -> ends_special b -> ends_special (a ++ b).
Proof.
  intros Nb Hb p x E.
  destruct (exists_last Nb) as (b' & z & ->).
  rewrite List.app_assoc in E. apply app_inj_tail in E as [_ <-].
  now apply (Hb b' z).
Qed.

(** A plain word cannot cross a seam next to a special code unit. *)
Lemma sub_seam (w a b : list N) :
  plain w -> ends_special a \/ starts_special b ->
  sub w (a ++ b) -> sub w a \/ sub w b.
Proof.
  intros Pw Seam H.
  apply sub_app_inv in H as [H | [H | (w1 & w2 & p & q & -> & N1 & N2 & -> & ->)]]; auto.
  exfalso. apply plain_app_inv in Pw as [P1 P2].
  destruct Seam as [S | S].
  - destruct (exists_last N1) as (w1' & z & ->).
    apply plain_app_inv in P1 as [_ P1]. inversion P1 as [|? ? Hz _]; subst.
    rewrite List.app_assoc in S. specialize (S _ _ eq_refl). congruence.
  - destruct w2 as [|z w2]; [easy|].
    inversion P2 as [|? ? Hz _]; subst.
    specialize (S _ _ eq_refl). congruence.
Qed.

Lemma sub_marked (w q : list N) : marked q -> plain w -> w <> [] -> ~ sub w q.
Proof.
  intros Mq Pw Nw (a & b & ->).
  destruct w as [|z w]; [easy|].
  apply Forall_app in Mq as [_ Mq]. simpl in Mq.
  inversion Mq as [|? ? Hz _]; subst. inversion Pw as [|? ? Hz' _]; subst. congruence.
Qed.

Lemma marked_ends (q : list N) : marked q -> ends_special q.
Proof.
  intros Mq p x ->. apply Forall_app in Mq as [_ Mq]. now inversion Mq.
Qed.

Lemma marked_starts (q : list N) : marked q -> starts_special q.
Proof. intros Mq x r ->. now inversion Mq. Qed.

(** A plain word in [p ++ t ++ q], with [p] and [q] made of special code
    units, lies in [t]. *)
Lemma sub_between (w p t q : list N) :
  marked p -> marked q -> plain w -> w <> [] -> sub w (p ++ t ++ q) -> sub w t.
Proof.
  intros Mp Mq Pw Nw H.
  apply sub_seam in H as [H | H]; auto.
  - now apply sub_marked in H.
  - apply sub_seam in H as [H | H]; auto.
    + now apply sub_marked in H.
    + right. now apply marked_starts.
  - left. now apply marked_ends.
Qed.

End Plain.

End Text.

(** ** Global replacement: what every rule of the renderer preserves *)
Module ReplaceFacts.
Import JS Text.

Section Keeps.
Variable special : N -> bool.

(** A rule that starts at a special code unit, ends next to one, and whose
    replacement keeps the plain words of the matched text. *)
Record keeps (m : matcher) : Prop := {
  keeps_split : forall prev s h, m prev s = Some h -> s = matched h ++ rest h;
  keeps_nonempty : forall prev s h, m prev s = Some h -> matched h <> [];
  keeps_head : forall prev s h, m prev s = Some h -> starts_special special s;
  keeps_seam : forall prev s h, m prev s = Some h ->
    ends_special special (matched h) \/ starts_special special (rest h);
  keeps_word : forall prev s h w, m prev s = Some h ->
    plain special w -> w <> [] -> sub w (matched h) -> sub w (repl h)
}.
Arguments keeps_split {m}.
Arguments keeps_nonempty {m}.
Arguments keeps_head {m}.
Arguments keeps_seam {m}.
Arguments keeps_word {m}.

Variable m : matcher.
Hypothesis Hm : keeps m.

Lemma replace_fuel_starts (w : list N) :
  plain special w ->
  forall fuel prev s, starts w s -> starts w (replace_fuel m fuel prev s).
Proof.
  intros Pw. induction Pw as [|c w Hc Pw IH]; intros fuel prev s (b & ->).
  - now exists (replace_fuel m fuel prev ([] ++ b)).
  - destruct fuel as [|fuel]; simpl.
    + now exists b.
    + destruct (m prev (c :: w ++ b)) as [h|] eqn:E.
      * apply (keeps_head Hm) in E. specialize (E c (w ++ b) eq_refl). congruence.
      * destruct (IH fuel (Some c) (w ++ b)) as (b' & Hb'); [now exists b|].
        exists b'. now rewrite Hb'.
Qed.

Lemma replace_fuel_sub (w : list N) :
  plain special w -> w <> [] ->
  forall fuel prev s, sub w s -> sub w (replace_fuel m fuel prev s).
Proof.
  intros Pw Nw fuel. induction fuel as [|fuel IH]; intros prev s H; simpl; auto.
  destruct s as [|c s].
  - now apply sub_nil_inv in H.
  - destruct (m prev (c :: s)) as [h|] eqn:E.
    + pose proof (keeps_split Hm _ _ _ E) as Es.
      pose proof (keeps_nonempty Hm _ _ _ E) as Ne.
      destruct (matched h) as [|m0 ms] eqn:Em; [easy|].
      rewrite Es in H. apply (sub_seam special) in H; auto.
      * destruct H as [H | H].
        -- apply sub_app_l. rewrite <- Em in H. eapply (keeps_word Hm); eauto.
        -- apply sub_app_r. now apply IH.
      * rewrite <- Em. eapply (keeps_seam Hm); eauto.
    + apply sub_cons_inv in H as [H | H].
      * apply starts_sub.
        destruct w as [|x w]; [easy|]. destruct H as (b & Hb). injection Hb as -> ->.
        inversion Pw as [|? ? _ Pw']; subst.
        destruct (replace_fuel_starts w Pw' fuel (Some x) (w ++ b)) as (b' & Hb'); [now exists b|].
        exists b'. simpl. now rewrite Hb'.
      * apply sub_cons. now apply IH.
Qed.

End Keeps.

Section Tags.
(** The pair of code units [x], [y] that no rule may bring together. *)
Variables x y : N.
Hypothesis x_not_gt : x <> 62%N.
Hypothesis y_not_lt : y <> 60%N.

(** A rule whose replacement opens with [<] and closes with [>], and is
    clean when the matched text is. *)
Record tags (m : matcher) : Prop := {
  tags_split : forall prev s h, m prev s = Some h -> s = matched h ++ rest h;
  tags_open : forall prev s h, m prev s = Some h -> exists r, repl h = 60%N :: r;
  tags_close : forall prev s h, m prev s = Some h -> exists r, repl h = r ++ [62%N];
  tags_clean : forall prev s h, m prev s = Some h ->
    clean x y (matched h) -> clean x y (repl h)
}.
Arguments tags_split {m}.
Arguments tags_open {m}.
Arguments tags_close {m}.
Arguments tags_clean {m}.

Variable m : matcher.
Hypothesis Hm : tags m.

Lemma replace_fuel_head (fuel : nat) (prev : option N) (s : list N) (c : N) (q : list N) :
  replace_fuel m fuel prev s = c :: q -> c = 60%N \/ exists s', s = c :: s'.
Proof.
  destruct fuel as [|fuel]; simpl.
  - intros ->. right. now exists q.
  - destruct s as [|c0 s]; [easy|].
    destruct (m prev (c0 :: s)) as [h|] eqn:E.
    + destruct (tags_open Hm _ _ _ E) as (r & Er).
      destruct (matched h); rewrite Er; simpl; intros H; injection H as <- _; now left.
    + intros H. injection H as <- _. right. now exists s.
Qed.

Lemma clean_cons (c : N) (s : list N) :
  clean x y s -> (c <> x \/ forall q, s <> y :: q) -> clean x y (c :: s).
Proof.
  intros Cs Seam. apply (clean_app x y [c] s); auto.
  - intros H. apply sub_cons_inv in H as [(b & Hb) | H]; [easy|].
    now apply sub_nil_inv in H.
  - destruct Seam as [S | S]; [left | now right].
    intros p Hp. destruct p as [|? [|? p]]; try easy. simpl in Hp. now injection Hp.
Qed.

Lemma replace_fuel_clean (fuel : nat) :
  forall prev s, clean x y s -> clean x y (replace_fuel m fuel prev s).
Proof.
  induction fuel as [|fuel IH]; intros prev s Cs; simpl; auto.
  destruct s as [|c s]; [apply clean_nil|].
  assert (Ctail : clean x y s) by (eapply clean_sub; [exact Cs | now apply sub_cons, sub_refl]).
  assert (Keep : clean x y (c :: replace_fuel m fuel (Some c) s)).
  { apply clean_cons; [now apply IH|].
    destruct (N.eq_dec c x) as [-> | Nc]; [right | now left].
    intros q Hq. apply replace_fuel_head in Hq as [Hq | (s' & ->)]; [easy|].
    apply Cs. exists [], s'. reflexivity. }
  destruct (m prev (c :: s)) as [h|] eqn:E; [|exact Keep].
  pose proof (tags_split Hm _ _ _ E) as Es.
  destruct (tags_close Hm _ _ _ E) as (r & Er).
  assert (Crepl : clean x y (repl h)).
  { apply (tags_clean Hm _ _ _ E). eapply clean_sub; [exact Cs|].
    rewrite Es. apply sub_app_l, sub_refl. }
  assert (Seam : forall p, repl h <> p ++ [x]).
  { intros p Hp. rewrite Er in Hp. apply app_inj_tail in Hp as [_ Hp]. congruence. }
  destruct (matched h) as [|m0 ms] eqn:Em.
  - apply clean_app; auto.
  - apply clean_app; auto. apply IH.
    eapply clean_sub; [exact Cs|]. rewrite Es. apply sub_app_r, sub_refl.
Qed.

End Tags.

End ReplaceFacts.

(** ** The rules of parseMarkdown *)
Module RuleFacts.
Import JS Markdown Text ReplaceFacts.

(** The code units the rules of the renderer look at. *)
Definition special (c : N) : bool :=
  is_lt c || is_digit c || existsb (N.eqb c) [32; 35; 42; 45; 46; 60; 62; 8226]%N.

Fixpoint has_pair (x y : N) (s : list N) : bool :=
  match s with
  | a :: ((b :: _) as t) => (N.eqb a x && N.eqb b y) || has_pair x y t
  | _ => false
  end.

Lemma has_pair_clean (x y : N) (s : list N) : has_pair x y s = false -> clean x y s.
Proof.
  induction s as [|a s IH]; intros H.
  - apply clean_nil.
  - intros Hs. apply sub_cons_inv in Hs as [(b & Hb) | Hs].
    + simpl in Hb. injection Hb as -> Hb. subst s. simpl in H.
      rewrite !N.eqb_refl in H. discriminate.
    + revert Hs. apply IH. destruct s as [|b s]; [reflexivity|].
      simpl in H. apply orb_false_iff in H as [_ H]. exact H.
Qed.

Lemma strip_spec (p s r : list N) : strip p s = Some r -> s = p ++ r.
Proof.
  revert s. induction p as [|x p IH]; intros s H; simpl in H.
  - now injection H as ->.
  - destruct s as [|c s]; [discriminate|].
    unfold ch_eqb in H. destruct (N.eqb_spec x c) as [-> | _]; [|discriminate].
    simpl. f_equal. now apply IH.
Qed.

Lemma is_lt_special (c : N) : is_lt c = true -> special c = true.
Proof. unfold special. now intros ->. Qed.

Lemma take_line_spec (s l r : list N) :
  take_line s = (l, r) -> s = l ++ r /\ starts_special special r.
Proof.
  revert l r. induction s as [|c s IH]; intros l r H; simpl in H.
  - injection H as <- <-. split; [reflexivity | easy].
  - destruct (is_lt c) eqn:Ec.
    + injection H as <- <-. split; [reflexivity|].
      intros x q E. injection E as <- _. now apply is_lt_special.
    + destruct (take_line s) as [l' r'] eqn:E. injection H as <- <-.
      destruct (IH l' r' eq_refl) as [-> Hr]. split; [reflexivity | exact Hr].
Qed.

Section Wrapping.
Variables x y : N.
Hypothesis x_not_gt : x <> 62%N.
Hypothesis y_not_lt : y <> 60%N.

(** An opening or closing tag of a replacement template. *)
Definition tag (t : list N) : Prop :=
  (exists r, t = 60%N :: r) /\ (exists r, t = r ++ [62%N]) /\ clean x y t.

Lemma tag_check (t : list N) :
  (match t with c :: _ => N.eqb c 60 | [] => false end
   && match rev t with c :: _ => N.eqb c 62 | [] => false end
   && negb (has_pair x y t)) = true -> tag t.
Proof.
  intros H. apply andb_true_iff in H as [H H3]. apply andb_true_iff in H as [H1 H2].
  repeat split.
  - destruct t as [|c r]; [discriminate|]. apply N.eqb_eq in H1 as ->. now exists r.
  - destruct (rev t) as [|c r] eqn:E; [discriminate|]. apply N.eqb_eq in H2 as ->.
    exists (rev r). rewrite <- (rev_involutive t), E. reflexivity.
  - apply has_pair_clean. now apply negb_true_iff.
Qed.

Lemma wrap_clean (open close t : list N) :
  tag open -> tag close -> clean x y t -> clean x y (open ++ t ++ close).
Proof.
  intros (_ & (o & Eo) & Co) ((c & Ec) & _ & Cc) Ct.
  apply clean_app; auto.
  - apply clean_app; auto. right. intros q Hq. rewrite Ec in Hq.
    injection Hq as Hq _. congruence.
  - left. intros p Hp. rewrite Eo in Hp. apply app_inj_tail in Hp as [_ Hp]. congruence.
Qed.

Lemma wrap_open (open close t : list N) :
  tag open -> exists r, open ++ t ++ close = 60%N :: r.
Proof. intros ((o & ->) & _). now exists (o ++ t ++ close). Qed.

Lemma wrap_close (open close t : list N) :
  tag close -> exists r, open ++ t ++ close = r ++ [62%N].
Proof.
  intros (_ & (c & ->) & _). exists (open ++ t ++ c). now rewrite <- !List.app_assoc.
Qed.

End Wrapping.

(** *** Line rules *)
Definition marker_ok (marker : list N -> option (list N * list N)) : Prop :=
  forall s mk after, marker s = Some (mk, after) ->
    s = mk ++ after /\ mk <> [] /\ marked special mk.

Lemma line_rule_inv marker open close prev s h :
  line_rule marker open close prev s = Some h ->
  exists mk after text,
    marker s = Some (mk, after) /\ take_line after = (text, rest h) /\ text <> [] /\
    matched h = mk ++ text /\ repl h = open ++ text ++ close.
Proof.
  unfold line_rule. destruct (at_bol prev); [|discriminate].
  destruct (marker s) as [[mk after]|] eqn:Em; [|discriminate].
  destruct (take_line after) as [text r] eqn:Et.
  destruct text as [|t0 text]; [discriminate|].
  intros H. injection H as <-. exists mk, after, (t0 :: text). now repeat split.
Qed.

Lemma line_rule_keeps marker open close :
  marker_ok marker -> keeps special (line_rule marker open close).
Proof.
  intros Hmk. split; intros prev s h; [| | | |intros w]; intros H;
    apply line_rule_inv in H as (mk & after & text & Em & Et & Nt & EM & ER);
    destruct (Hmk _ _ _ Em) as (Es & Nmk & Mmk);
    destruct (take_line_spec _ _ _ Et) as (Ea & Hr).
  - rewrite EM, Es, Ea. now rewrite <- List.app_assoc.
  - rewrite EM. destruct mk; [easy | discriminate].
  - intros c q E. rewrite Es in E. destruct mk as [|m0 mk]; [easy|].
    injection E as <- _. now inversion Mmk.
  - now right.
  - intros Pw Nw Hw. rewrite EM in Hw. rewrite ER.
    apply sub_app_r, sub_app_l.
    rewrite <- (List.app_nil_r text) in Hw.
    apply (sub_between special w mk text []) in Hw; auto. constructor.
Qed.

Lemma line_rule_tags x y marker open close :
  x <> 62%N -> y <> 60%N ->
  (forall s mk after, marker s = Some (mk, after) -> s = mk ++ after) ->
  tag x y open -> tag x y close -> tags x y (line_rule marker open close).
Proof.
  intros Hx Hy Hmk To Tc. split; intros prev s h H;
    apply line_rule_inv in H as (mk & after & text & Em & Et & Nt & EM & ER);
    pose proof (Hmk _ _ _ Em) as Es;
    destruct (take_line_spec _ _ _ Et) as (Ea & Hr).
  - rewrite EM, Es, Ea. now rewrite <- List.app_assoc.
  - rewrite ER. now apply (wrap_open x y).
  - rewrite ER. now apply (wrap_close x y).
  - intros C. rewrite ER. apply wrap_clean; auto.
    eapply clean_sub; [exact C|]. rewrite EM. apply sub_app_r, sub_refl.
Qed.


Lemma literal_marker_ok (p : list N) :
  p <> [] -> marked special p -> marker_ok (literal_marker p).
Proof.
  intros Np Mp s mk after H. unfold literal_marker in H.
  destruct (strip p s) as [r|] eqn:E; [|discriminate].
  injection H as <- <-. apply strip_spec in E. now repeat split.
Qed.

Lemma bullet_marker_ok : marker_ok bullet_marker.
Proof.
  intros s mk after H. unfold bullet_marker in H.
  destruct s as [|c [|sp r]]; try discriminate.
  destruct ((ch_eqb c dash || ch_eqb c bullet) && ch_eqb sp 32) eqn:E; [|discriminate].
  injection H as <- <-.
  apply andb_true_iff in E as [E1 E2]. apply N.eqb_eq in E2 as ->.
  repeat split; [easy|].
  apply orb_true_iff in E1 as [E1 | E1]; apply N.eqb_eq in E1 as ->;
    repeat constructor.
Qed.

Lemma take_digits_spec (s d r : list N) :
  take_digits s = (d, r) -> s = d ++ r /\ marked special d.
Proof.
  revert d r. induction s as [|c s IH]; intros d r H; simpl in H.
  - injection H as <- <-. split; [reflexivity | constructor].
  - destruct (is_digit c) eqn:Ec.
    + destruct (take_digits s) as [d' r'] eqn:E. injection H as <- <-.
      destruct (IH d' r' eq_refl) as [-> Md]. split; [reflexivity|].
      constructor; [|exact Md]. unfold special. rewrite Ec. now rewrite orb_true_r.
    + injection H as <- <-. split; [reflexivity | constructor].
Qed.

Lemma numbered_marker_ok : marker_ok numbered_marker.
Proof.
  intros s mk after H. unfold numbered_marker in H.
  destruct (take_digits s) as [d r] eqn:Ed.
  apply take_digits_spec in Ed as [-> Md].
  destruct d as [|d0 d]; [discriminate|].
  destruct (strip (str ". ") r) as [r'|] eqn:Er; [|discriminate].
  injection H as <- <-. apply strip_spec in Er as ->.
  repeat split.
  - simpl. f_equal. now rewrite <- List.app_assoc.
  - discriminate.
  - apply (Forall_app _ (d0 :: d) (str ". ")). split; [exact Md | repeat constructor].
Qed.

(** *** The divider *)
Lemma m_hr_inv prev s h :
  m_hr prev s = Some h ->
  s = matched h ++ rest h /\ starts_special special (rest h) /\
  (exists l, matched h = dash :: l) /\ marked special (matched h) /\ repl h = hr_tag.
Proof.
  unfold m_hr. destruct (at_bol prev); [|discriminate].
  destruct (take_line s) as [l r] eqn:Et.
  destruct ((3 <=? List.length l)%nat && forallb (ch_eqb dash) l) eqn:E; [|discriminate].
  intros H. injection H as <-. simpl.
  apply take_line_spec in Et as [-> Hr].
  apply andb_true_iff in E as [E1 E2].
  assert (M : Forall (fun c => c = dash) l).
  { apply List.Forall_forall. intros c Hc.
    rewrite forallb_forall in E2. specialize (E2 c Hc).
    unfold ch_eqb in E2. now apply N.eqb_eq in E2. }
  repeat split; auto.
  - destruct l as [|c l]; [discriminate|]. inversion M; subst. now exists l.
  - eapply List.Forall_impl; [|exact M]. now intros c ->.
Qed.

(** *** Bold and italic *)
Lemma bold_body_spec (s cap r : list N) :
  bold_body s = Some (cap, r) -> s = cap ++ [star; star] ++ r.
Proof.
  revert cap r. induction s as [|c s IH]; intros cap r H.
  - simpl in H. discriminate.
  - cbn [bold_body] in H.
    destruct (strip [star; star] (c :: s)) as [r0|] eqn:E.
    + injection H as <- <-. now apply strip_spec in E.
    + destruct (is_lt c); [discriminate|].
      destruct (bold_body s) as [[cap' r']|]; [|discriminate].
      injection H as <- <-. simpl. f_equal. now apply IH.
Qed.

Lemma m_bold_inv prev s h :
  m_bold prev s = Some h ->
  exists cap,
    s = matched h ++ rest h /\
    matched h = [star; star] ++ cap ++ [star; star] /\
    repl h = strong_open ++ cap ++ strong_close.
Proof.
  unfold m_bold.
  destruct (strip [star; star] s) as [[|c s']|] eqn:E; try discriminate.
  destruct (is_lt c); [discriminate|].
  destruct (bold_body s') as [[cap r]|] eqn:Eb; [|discriminate].
  intros H. injection H as <-. simpl.
  apply strip_spec in E as ->. apply bold_body_spec in Eb as ->.
  exists (c :: cap). repeat split. simpl. now rewrite <- !List.app_assoc.
Qed.

Lemma ital_body_spec (last : N) (s cap r : list N) :
  ital_body last s = Some (cap, r) -> s = cap ++ [star] ++ r.
Proof.
  revert last cap r. induction s as [|c s IH]; intros last cap r H; simpl in H.
  - discriminate.
  - destruct (ch_eqb c star && negb (ch_eqb last star) && negb (next_is_star s)) eqn:E.
    + injection H as <- <-.
      apply andb_true_iff in E as [E _]. apply andb_true_iff in E as [E _].
      apply N.eqb_eq in E as ->. reflexivity.
    + destruct (is_lt c); [discriminate|].
      destruct (ital_body c s) as [[cap' r']|] eqn:Ei; [|discriminate].
      injection H as <- <-. simpl. f_equal. now apply (IH c).
Qed.

Lemma m_italic_inv prev s h :
  m_italic prev s = Some h ->
  exists cap,
    s = matched h ++ rest h /\
    matched h = [star] ++ cap ++ [star] /\
    repl h = em_open ++ cap ++ em_close.
Proof.
  unfold m_italic. destruct s as [|o [|c s']]; try discriminate.
  destruct (ch_eqb o star
            && negb (match prev with Some x => ch_eqb x star | None => false end)
            && negb (ch_eqb c star) && negb (is_lt c)) eqn:E; [|discriminate].
  destruct (ital_body c s') as [[cap r]|] eqn:Ei; [|discriminate].
  intros H. injection H as <-. simpl.
  apply ital_body_spec in Ei as ->.
  repeat (apply andb_true_iff in E as [E _]). apply N.eqb_eq in E as ->.
  exists (c :: cap). repeat split. simpl. now rewrite <- !List.app_assoc.
Qed.

(** Rules of the shape delimiter, capture, delimiter. *)
Lemma delimited_keeps (m : matcher) (d open close : list N) :
  d <> [] -> marked special d ->
  (forall prev s h, m prev s = Some h ->
     exists cap, s = matched h ++ rest h /\ matched h = d ++ cap ++ d /\
                 repl h = open ++ cap ++ close) ->
  keeps special m.
Proof.
  intros Nd Md Inv. split; intros prev s h; [| | | |intros w]; intros H;
    destruct (Inv _ _ _ H) as (cap & Es & EM & ER).
  - exact Es.
  - rewrite EM. destruct d; [easy | discriminate].
  - intros c q E. rewrite Es, EM in E. destruct d as [|d0 d]; [easy|].
    injection E as <- _. now inversion Md.
  - left. rewrite EM, List.app_assoc. apply ends_special_app; auto. now apply marked_ends.
  - intros Pw Nw Hw. rewrite ER. apply sub_app_r, sub_app_l.
    rewrite EM in Hw. now apply (sub_between special w d cap d).
Qed.

Lemma delimited_tags x y (m : matcher) (d open close : list N) :
  x <> 62%N -> y <> 60%N -> tag x y open -> tag x y close ->
  (forall prev s h, m prev s = Some h ->
     exists cap, s = matched h ++ rest h /\ matched h = d ++ cap ++ d /\
                 repl h = open ++ cap ++ close) ->
  tags x y m.
Proof.
  intros Hx Hy To Tc Inv. split; intros prev s h H;
    destruct (Inv _ _ _ H) as (cap & Es & EM & ER).
  - exact Es.
  - rewrite ER. now apply (wrap_open x y).
  - rewrite ER. now apply (wrap_close x y).
  - intros C. rewrite ER. apply wrap_clean; auto.
    eapply clean_sub; [exact C|]. rewrite EM. apply sub_app_r, sub_app_l, sub_refl.
Qed.


(** Rules with a constant replacement: the divider and the paragraph break. *)
Lemma constant_keeps (m : matcher) :
  (forall prev s h, m prev s = Some h ->
     s = matched h ++ rest h /\ matched h <> [] /\ marked special (matched h)) ->
  keeps special m.
Proof.
  intros Inv. split; intros prev s h; [| | | |intros w]; intros H;
    destruct (Inv _ _ _ H) as (Es & Ne & Mm).
  - exact Es.
  - exact Ne.
  - intros c q E. rewrite Es in E. destruct (matched h) as [|m0 ms]; [easy|].
    injection E as <- _. now inversion Mm.
  - left. now apply marked_ends.
  - intros Pw Nw Hw. now apply (sub_marked special w (matched h)) in Hw.
Qed.

Lemma constant_tags x y (m : matcher) (t : list N) :
  tag x y t ->
  (forall prev s h, m prev s = Some h -> s = matched h ++ rest h /\ repl h = t) ->
  tags x y m.
Proof.
  intros (To & Tc & Ct) Inv. split; intros prev s h H;
    destruct (Inv _ _ _ H) as (Es & ER); rewrite ?ER; auto.
Qed.

Lemma m_parbreak_inv prev s h :
  m_parbreak prev s = Some h ->
  s = matched h ++ rest h /\ matched h = [newline; newline] /\ repl h = p_break.
Proof.
  unfold m_parbreak. destruct (strip [newline; newline] s) as [r|] eqn:E; [|discriminate].
  intros H. injection H as <-. simpl. apply strip_spec in E as ->. now repeat split.
Qed.

(** *** Grouping of list items *)
Definition closes (m : list N) : Prop := exists p z, m = p ++ [z] /\ special z = true.

Lemma closes_ends (m : list N) : closes m -> ends_special special m.
Proof.
  intros (p & z & -> & Hz) p' x' E. apply app_inj_tail in E as [_ <-]. exact Hz.
Qed.

Lemma closes_app (a b : list N) : closes b -> closes (a ++ b).
Proof.
  intros (p & z & -> & Hz). exists (a ++ p), z. split; [now rewrite <- List.app_assoc | exact Hz].
Qed.

Lemma li_tail_spec (s m r : list N) :
  li_tail s = Some (m, r) -> s = m ++ r /\ closes m.
Proof.
  revert m r. induction s as [|c s IH]; intros m r H; [discriminate|].
  cbn [li_tail] in H. destruct (is_lt c); [discriminate|].
  destruct (li_tail s) as [[m' r']|] eqn:E.
  - injection H as <- <-. destruct (IH m' r' eq_refl) as [-> Hc].
    split; [reflexivity|]. now apply (closes_app [c]).
  - destruct (strip li_close (c :: s)) as [r0|] eqn:Es; [|discriminate].
    injection H as <- <-. apply strip_spec in Es. split; [exact Es|].
    exists (str "</li"), 62%N. now split.
Qed.

Lemma li_item_spec (s m r : list N) :
  li_item s = Some (m, r) -> s = m ++ r /\ (exists t, m = 60%N :: t) /\ closes m.
Proof.
  unfold li_item. destruct (strip li_open s) as [after|] eqn:Es; [|discriminate].
  apply strip_spec in Es as ->.
  destruct (li_tail after) as [[m1 r1]|] eqn:Et; [|discriminate].
  apply li_tail_spec in Et as [-> Hc].
  destruct r1 as [|c r'].
  - intros H. injection H as <- <-. split; [|split].
    + simpl. now rewrite !List.app_nil_r.
    + now exists (str "li>" ++ m1).
    + now apply (closes_app li_open).
  - destruct (ch_eqb c newline) eqn:Ec.
    + intros H. injection H as <- <-. apply N.eqb_eq in Ec as ->. split; [|split].
      * simpl. now rewrite <- !List.app_assoc.
      * now exists (str "li>" ++ m1 ++ [newline]).
      * apply (closes_app li_open), closes_app. exists [], newline. now split.
    + intros H. injection H as <- <-. split; [|split].
      * reflexivity.
      * now exists (str "li>" ++ m1).
      * now apply (closes_app li_open).
Qed.

Lemma li_items_spec (fuel : nat) (s ms r : list N) :
  li_items fuel s = (ms, r) -> s = ms ++ r /\ (ms = [] \/ closes ms).
Proof.
  revert s ms r. induction fuel as [|fuel IH]; intros s ms r H; simpl in H.
  - injection H as <- <-. split; [reflexivity | now left].
  - destruct (li_item s) as [[m1 r1]|] eqn:Ei.
    + destruct (li_items fuel r1) as [ms' r'] eqn:El. injection H as <- <-.
      apply li_item_spec in Ei as (-> & _ & Hc).
      destruct (IH _ _ _ El) as [-> Hms]. split; [now rewrite <- List.app_assoc|].
      right. destruct Hms as [-> | Hms]; [now rewrite List.app_nil_r | now apply closes_app].
    + injection H as <- <-. split; [reflexivity | now left].
Qed.

Lemma m_ul_inv prev s h :
  m_ul prev s = Some h ->
  s = matched h ++ rest h /\ (exists t, matched h = 60%N :: t) /\ closes (matched h) /\
  repl h = ul_open ++ matched h ++ ul_close.
Proof.
  unfold m_ul. destruct (li_item s) as [[m1 r1]|] eqn:Ei; [|discriminate].
  destruct (li_items (List.length r1) r1) as [ms r'] eqn:El.
  intros H. injection H as <-. simpl.
  apply li_item_spec in Ei as (-> & (t & ->) & Hc).
  apply li_items_spec in El as [-> Hms]. repeat split.
  - now rewrite <- List.app_assoc.
  - now exists (t ++ ms).
  - destruct Hms as [-> | Hms]; [now rewrite List.app_nil_r | now apply closes_app].
Qed.

Lemma m_ul_keeps : keeps special m_ul.
Proof.
  split; intros prev s h; [| | | |intros w]; intros H;
    apply m_ul_inv in H as (Es & (t & Et) & Hc & ER).
  - exact Es.
  - now rewrite Et.
  - intros c q E. rewrite Es, Et in E. now injection E as <- _.
  - left. now apply closes_ends.
  - intros _ _ Hw. rewrite ER. now apply sub_app_r, sub_app_l.
Qed.

Lemma m_ul_tags x y :
  x <> 62%N -> y <> 60%N -> tag x y ul_open -> tag x y ul_close -> tags x y m_ul.
Proof.
  intros Hx Hy To Tc. split; intros prev s h H;
    apply m_ul_inv in H as (Es & _ & _ & ER).
  - exact Es.
  - rewrite ER. now apply (wrap_open x y).
  - rewrite ER. now apply (wrap_close x y).
  - intros C. rewrite ER. now apply wrap_clean.
Qed.

End RuleFacts.

(** ** The pipeline of parseMarkdown *)
Module RenderFacts.
Import JS Markdown Text ReplaceFacts RuleFacts.

(** *** Replacement of one code unit *)
Lemma replace_char_app (c : N) (r a b : list N) :
  replace_char c r (a ++ b) = replace_char c r a ++ replace_char c r b.
Proof. apply flat_map_app. Qed.

Lemma replace_char_id (c : N) (r w : list N) :
  ~ In c w -> replace_char c r w = w.
Proof.
  induction w as [|a w IH]; intros H; [reflexivity|]. simpl.
  unfold ch_eqb. destruct (N.eqb_spec a c) as [-> | _].
  - exfalso. apply H. now left.
  - simpl. f_equal. apply IH. intros Hin. apply H. now right.
Qed.

Lemma replace_char_sub (c : N) (r w s : list N) :
  ~ In c w -> sub w s -> sub w (replace_char c r s).
Proof.
  intros H (a & b & ->). rewrite !replace_char_app, (replace_char_id c r w H).
  now exists (replace_char c r a), (replace_char c r b).
Qed.

Lemma replace_char_clean (x y c : N) (r s : list N) :
  x <> 62%N -> y <> 60%N -> tag x y r ->
  clean x y s -> clean x y (replace_char c r s).
Proof.
  intros Hx Hy ((r1 & E1) & (r2 & E2) & Cr).
  induction s as [|c0 s IH]; intros Cs; [apply clean_nil|].
  assert (Ctail : clean x y s) by (eapply clean_sub; [exact Cs | now apply sub_cons, sub_refl]).
  specialize (IH Ctail).
  change (replace_char c r (c0 :: s))
    with ((if ch_eqb c0 c then r else [c0]) ++ replace_char c r s).
  destruct (ch_eqb c0 c).
  - apply clean_app; auto. left. intros p Hp. rewrite E2 in Hp.
    apply app_inj_tail in Hp as [_ Hp]. congruence.
  - apply (clean_cons x y c0); auto.
    destruct (N.eq_dec c0 x) as [-> | Nc]; [right | now left].
    intros q Hq. destruct s as [|c1 s]; [discriminate|].
    change (replace_char c r (c1 :: s))
      with ((if ch_eqb c1 c then r else [c1]) ++ replace_char c r s) in Hq.
    destruct (ch_eqb c1 c).
    + rewrite E1 in Hq. injection Hq as Hq _. congruence.
    + injection Hq as -> _. apply Cs. exists [], s. reflexivity.
Qed.

Lemma replace_char_chars (c : N) (r s : list N) (a : N) :
  In a (replace_char c r s) -> In a r \/ (a <> c /\ In a s).
Proof.
  induction s as [|c0 s IH]; [easy|].
  change (replace_char c r (c0 :: s))
    with ((if ch_eqb c0 c then r else [c0]) ++ replace_char c r s).
  intros H. apply in_app_or in H as [H | H].
  - unfold ch_eqb in H. destruct (N.eqb_spec c0 c) as [-> | Nc]; [now left|].
    destruct H as [<- | []]. right. split; [exact Nc | now left].
  - destruct (IH H) as [Hr | [Na Hs]]; [now left|]. right. split; [exact Na | now right].
Qed.

(** *** Escaping *)
Lemma escape_app (a b : list N) : escape (a ++ b) = escape a ++ escape b.
Proof. unfold escape. now rewrite !replace_char_app. Qed.

Lemma escape_no_angle (s : list N) (a : N) :
  In a (escape s) -> a <> 60%N /\ a <> 62%N.
Proof.
  unfold escape. intros H.
  apply replace_char_chars in H as [H | [N62 H]].
  - simpl in H. intuition (subst; discriminate).
  - split; [|exact N62].
    apply replace_char_chars in H as [H | [N60 H]]; [|exact N60].
    simpl in H. intuition (subst; discriminate).
Qed.

Lemma absent_clean_r (x y : N) (s : list N) : ~ In y s -> clean x y s.
Proof.
  intros H (a & b & ->). apply H. apply in_or_app. right. simpl. auto.
Qed.

Lemma absent_clean_l (x y : N) (s : list N) : ~ In x s -> clean x y s.
Proof.
  intros H (a & b & ->). apply H. apply in_or_app. right. simpl. auto.
Qed.

(** *** Every pass keeps plain words and brings no forbidden pair *)
Definition templates : list (list N) :=
  [h4_open; h4_close; h3_open; h3_close; strong_open; strong_close; em_open; em_close;
   li_open; li_close; ul_open; ul_close; hr_tag; p_break; br_tag; p_open; p_close].

Definition keeps_words (f : list N -> list N) : Prop :=
  forall w, plain special w -> w <> [] -> forall s, sub w s -> sub w (f s).

Definition keeps_clean (x y : N) (f : list N -> list N) : Prop :=
  forall s, clean x y s -> clean x y (f s).

Lemma replace_keeps_words (m : matcher) : keeps special m -> keeps_words (replace m).
Proof. intros Hm w Pw Nw s H. now apply (replace_fuel_sub special m Hm). Qed.

Lemma replace_keeps_clean (x y : N) (m : matcher) :
  x <> 62%N -> y <> 60%N -> tags x y m -> keeps_clean x y (replace m).
Proof. intros Hx Hy Hm s H. now apply (replace_fuel_clean x y Hx Hy m Hm). Qed.

Lemma passes_keep_words : Forall keeps_words passes.
Proof.
  unfold passes. repeat apply List.Forall_cons; try apply List.Forall_nil;
    try apply replace_keeps_words.
  - apply line_rule_keeps, literal_marker_ok; [discriminate | repeat constructor].
  - apply line_rule_keeps, literal_marker_ok; [discriminate | repeat constructor].
  - apply (delimited_keeps m_bold [star; star] strong_open strong_close);
      [discriminate | repeat constructor | apply m_bold_inv].
  - apply (delimited_keeps m_italic [star] em_open em_close);
      [discriminate | repeat constructor | apply m_italic_inv].
  - apply line_rule_keeps, bullet_marker_ok.
  - apply m_ul_keeps.
  - apply line_rule_keeps, numbered_marker_ok.
  - apply constant_keeps. intros prev s h H.
    apply m_hr_inv in H as (Es & _ & (l & El) & Mm & _).
    repeat split; auto. now rewrite El.
  - apply constant_keeps. intros prev s h H.
    apply m_parbreak_inv in H as (Es & EM & _).
    repeat split; auto; rewrite EM; [discriminate | repeat constructor].
  - intros w Pw Nw s H. apply replace_char_sub; auto.
    intros Hin. unfold plain in Pw. rewrite List.Forall_forall in Pw.
    now specialize (Pw _ Hin).
Qed.

Section Pair.
Variables x y : N.
Hypothesis x_not_gt : x <> 62%N.
Hypothesis y_not_lt : y <> 60%N.
Hypothesis all_tags : Forall (tag x y) templates.

Lemma template_tag (t : list N) : In t templates -> tag x y t.
Proof. intros H. rewrite List.Forall_forall in all_tags. now apply all_tags. Qed.

Ltac tpl := apply template_tag; unfold templates; simpl; tauto.

Lemma passes_keep_clean : Forall (keeps_clean x y) passes.
Proof.
  unfold passes. repeat apply List.Forall_cons; try apply List.Forall_nil;
    try (apply replace_keeps_clean; [exact x_not_gt | exact y_not_lt |]).
  - apply line_rule_tags; auto; [|tpl|tpl].
    intros s mk after H. now apply literal_marker_ok in H; [| discriminate | repeat constructor].
  - apply line_rule_tags; auto; [|tpl|tpl].
    intros s mk after H. now apply literal_marker_ok in H; [| discriminate | repeat constructor].
  - apply (delimited_tags x y m_bold [star; star] strong_open strong_close); auto;
      [tpl | tpl | apply m_bold_inv].
  - apply (delimited_tags x y m_italic [star] em_open em_close); auto;
      [tpl | tpl | apply m_italic_inv].
  - apply line_rule_tags; auto; [|tpl|tpl].
    intros s mk after H. now apply bullet_marker_ok in H.
  - apply m_ul_tags; auto; tpl.
  - apply line_rule_tags; auto; [|tpl|tpl].
    intros s mk after H. now apply numbered_marker_ok in H.
  - apply (constant_tags x y m_hr hr_tag); [tpl|].
    intros prev s h H. now apply m_hr_inv in H as (Es & _ & _ & _ & ER).
  - apply (constant_tags x y m_parbreak p_break); [tpl|].
    intros prev s h H. now apply m_parbreak_inv in H as (Es & _ & ER).
  - intros s H. apply replace_char_clean; auto. tpl.
Qed.

Lemma fold_passes (Q : list N -> Prop) (fs : list (list N -> list N)) :
  Forall (fun f => forall s, Q s -> Q (f s)) fs ->
  forall s, Q s -> Q (fold_left (fun html f => f html) fs s).
Proof.
  induction 1 as [|f fs Hf _ IH]; intros s Hs; simpl; auto.
Qed.

Lemma body_clean (text : list N) : clean x y (escape text) -> clean x y (body text).
Proof.
  unfold body. apply (fold_passes (clean x y)). exact passes_keep_clean.
Qed.

Lemma wrap_keeps_clean (html : list N) : clean x y html -> clean x y (wrap html).
Proof.
  intros H. unfold wrap. destruct (is_block html); [exact H|].
  apply wrap_clean; auto; tpl.
Qed.

End Pair.

Lemma body_keeps_word (w text : list N) :
  plain special w -> w <> [] -> sub w (escape text) -> sub w (body text).
Proof.
  intros Pw Nw. unfold body. apply (fold_passes (sub w)).
  eapply List.Forall_impl; [|exact passes_keep_words]. intros f Hf s. now apply Hf.
Qed.

Lemma wrap_keeps_word (w html : list N) : sub w html -> sub w (wrap html).
Proof.
  intros H. unfold wrap. destruct (is_block html); [exact H|].
  now apply sub_app_r, sub_app_l.
Qed.


Lemma templates_tagged (x y : N) :
  forallb (fun t => match t with c :: _ => N.eqb c 60 | [] => false end
                    && match rev t with c :: _ => N.eqb c 62 | [] => false end
                    && negb (has_pair x y t)) templates = true ->
  Forall (tag x y) templates.
Proof.
  intros H. apply List.Forall_forall. intros t Ht.
  rewrite forallb_forall in H. apply tag_check. now apply H.
Qed.

Definition script_open : list N := Eval vm_compute in (str "<script>").
Definition script_escaped : list N := Eval vm_compute in (str "&lt;script&gt;").

Lemma parseMarkdown_clean (x y : N) (text : list N) :
  x <> 62%N -> y <> 60%N -> Forall (tag x y) templates ->
  clean x y (escape text) -> clean x y (parseMarkdown text).
Proof.
  intros Hx Hy Ht H. destruct text as [|c text]; [apply clean_nil|].
  unfold parseMarkdown. now apply wrap_keeps_clean, body_clean.
Qed.

(** The renderer never produces an ordered-list wrapper. *)
Lemma no_ordered_list (text : list N) : ~ sub (str "<ol") (parseMarkdown text).
Proof.
  intros H.
  assert (C : clean 60 111 (parseMarkdown text)).
  { apply parseMarkdown_clean; try discriminate.
    - now apply templates_tagged.
    - apply absent_clean_l. intros Hin. now apply escape_no_angle in Hin as [? _]. }
  apply C. eapply sub_trans; [|exact H]. exists [], [108%N]. reflexivity.
Qed.

(** C4: a text that contains [<script>] is rendered to a fragment that
    contains [&lt;script&gt;] and does not contain [<script>]; the escaping of
    the three entities is applied to the text before every other pass. *)
Theorem script_tag_escaped (text : list N) :
  sub script_open text ->
  sub script_escaped (parseMarkdown text)
  /\ ~ sub script_open (parseMarkdown text)
  /\ parseMarkdown text = wrap (fold_left (fun html f => f html) passes (escape text)).
Proof.
  intros H. split; [|split].
  - destruct H as (a & b & ->).
    assert (He : sub script_escaped (escape (a ++ script_open ++ b))).
    { rewrite !escape_app. now exists (escape a), (escape b). }
    destruct (a ++ script_open ++ b) as [|c text] eqn:E.
    + now destruct a.
    + unfold parseMarkdown.
      apply wrap_keeps_word, body_keeps_word; [repeat constructor | discriminate | exact He].
  - intros Hs.
    assert (C : clean 116 62 (parseMarkdown text)).
    { apply parseMarkdown_clean; try discriminate.
      - now apply templates_tagged.
      - apply absent_clean_r. intros Hin. now apply escape_no_angle in Hin as [_ ?]. }
    apply C. eapply sub_trans; [|exact Hs]. exists (str "<scrip"), []. reflexivity.
  - destruct H as (a & b & ->). destruct (a ++ script_open ++ b) eqn:E; [|reflexivity].
    now destruct a.
Qed.

Lemma script_tag_escaped_witness :
  sub script_open (str "Hi <script>alert(1)</script>") /\
  (sub script_escaped (parseMarkdown (str "Hi <script>alert(1)</script>"))
   /\ ~ sub script_open (parseMarkdown (str "Hi <script>alert(1)</script>"))
   /\ parseMarkdown (str "Hi <script>alert(1)</script>")
      = wrap (fold_left (fun html f => f html) passes
                        (escape (str "Hi <script>alert(1)</script>")))).
Proof.
  assert (H : sub script_open (str "Hi <script>alert(1)</script>")).
  { exists (str "Hi "), (str "alert(1)</script>"). reflexivity. }
  split; [exact H | exact (script_tag_escaped _ H)].
Defined.


(** *** Numbered lines after a bullet line *)
Definition bullet_then_numbered : list N :=
  Eval vm_compute in (str "- a" ++ [newline] ++ str "1. b").

(** C8: the numbered line [1. b] becomes a list item when it is the whole
    text, but stays plain text after a bullet line: the grouping pass takes
    the line break into the wrapper, so the numbered line no longer starts a
    line when its rule runs. *)
Theorem numbered_line_after_bullet :
  parseMarkdown (str "1. b") = p_open ++ str "<li>b</li>" ++ p_close
  /\ parseMarkdown bullet_then_numbered
     = ul_open ++ str "<li>a</li><br>" ++ ul_close ++ str "1. b"
  /\ ~ sub (str "<li>b</li>") (parseMarkdown bullet_then_numbered).
Proof.
  split; [vm_compute; reflexivity | split; [vm_compute; reflexivity|]].
  apply includes_false. vm_compute. reflexivity.
Qed.

(** Bullet lines separated by single line feeds share one wrapper. *)
Lemma bullets_grouped :
  parseMarkdown (str "- a" ++ [newline] ++ str "- b" ++ [newline] ++ str "- c")
  = ul_open ++ str "<li>a</li><br><li>b</li><br><li>c</li>" ++ ul_close.
Proof. vm_compute. reflexivity. Qed.

End RenderFacts.

(** ** The session identifier *)
Module SessionFacts.
Import JS Values Widget.

Section WithEngine.
Context {num : Type} {NumOps : Number num}.

Lemma fresh_id_nonempty (e : env) : no_id (Some (fresh_id e)) = false.
Proof. reflexivity. Qed.

Lemma no_id_false (o : option (list N)) :
  no_id o = false -> exists c s, o = Some (c :: s).
Proof. destruct o as [[|c s]|]; try discriminate. intros _. now exists c, s. Qed.

(** A call with an identifier in memory answers it and touches nothing. *)
Lemma getSessionId_cached (e : env) (w : widget) :
  no_id (sessionId w) = false -> getSessionId e w = (Ok (sessionId w), w).
Proof.
  intros H. unfold getSessionId, bind, read. now rewrite H.
Qed.

(** The first call of a page view: the stored identifier when there is one,
    a new one, written to the storage, otherwise. *)
Lemma getSessionId_first (e : env) (w : widget) :
  sessionId w = None ->
  exists id w1,
    getSessionId e w = (Ok (Some id), w1) /\
    no_id (Some id) = false /\
    sessionId w1 = Some id /\
    localStorage w1 !! storage_key = Some id /\
    (no_id (localStorage w !! storage_key) = false ->
       localStorage w !! storage_key = Some id /\
       localStorage w1 = localStorage w /\
       storage_log w1 = storage_log w ++ [GetItem storage_key]).
Proof.
  intros Hs. unfold getSessionId, bind, read. rewrite Hs. simpl.
  destruct (no_id (localStorage w !! storage_key)) eqn:E; simpl.
  - eexists _, _. split; [reflexivity|]. simpl. repeat split; try easy.
    apply lookup_insert_eq.
  - destruct (no_id_false _ E) as (c & s & Es).
    eexists _, _. split; [rewrite Es; reflexivity|]. simpl. now repeat split.
Qed.

(** C9: in a page view the first call of [getSessionId] answers a non-empty
    identifier, the second call answers the same one and leaves the whole
    state, the log of storage accesses included, as it was; a fresh page view
    over the storage the first one left answers the same identifier again,
    with one read of the storage and no write. *)
Theorem getSessionId_stable (storage : gmap (list N) (list N)) (e1 e2 e3 : env) :
  exists id w1 w2,
    no_id (Some id) = false /\
    getSessionId e1 (initial storage) = (Ok (Some id), w1) /\
    getSessionId e2 w1 = (Ok (Some id), w1) /\
    getSessionId e3 (initial (localStorage w1)) = (Ok (Some id), w2) /\
    localStorage w2 = localStorage w1 /\
    storage_log w2 = [GetItem storage_key] /\
    getSessionId e1 w2 = (Ok (Some id), w2).
Proof.
  destruct (getSessionId_first e1 (initial storage) eq_refl)
    as (id & w1 & E1 & Hid & Hs1 & Hl1 & _).
  destruct (getSessionId_first e3 (initial (localStorage w1)) eq_refl)
    as (id' & w2 & E2 & Hid' & Hs2 & Hl2 & Hkeep).
  simpl in Hkeep. rewrite Hl1 in Hkeep. destruct (Hkeep Hid) as (Eid & Hst & Hlog).
  injection Eid as <-.
  exists id, w1, w2. repeat split; auto.
  - rewrite <- Hs1. apply getSessionId_cached. now rewrite Hs1.
  - rewrite <- Hs2. apply getSessionId_cached. now rewrite Hs2.
Qed.

End WithEngine.
End SessionFacts.

(** ** Context resolution *)
Module ResolverFacts.
Import JS Values Widget.

Section WithEngine.
Context {num : Type} {NumOps : Number num}.
Variable params_get : list N -> list N -> option (list N).

(** The endpoints in the order of the probes. *)
Definition endpoints : list (list N) := [TOOL5_API; TOOL4_API; TOOL3_API].

(** The response has a success status. *)
Definition status_ok (r : fetch_result (num := num)) : bool :=
  match r with
  | Response ok _ => ok
  | NetworkError => false
  end.

(** What a probe finds: the body of a response with a success status whose
    body parses. *)
Definition found (r : fetch_result (num := num)) : option (value num) :=
  match r with
  | Response true (Some body) => Some body
  | _ => None
  end.

Definition probes (id : list N) (bases : list (list N)) : list (request (num := num)) :=
  List.map (fun b => Get (session_url b id)) bases.

Lemma bind_ok {A B} (m : M (num := num) A) (f : A -> M B) (w w' : widget) (a : A) :
  m w = (Ok a, w') -> bind m f w = f a w'.
Proof. intros H. unfold bind. now rewrite H. Qed.

Lemma probe_found net base id loaded miss (w : widget) body :
  found (net (session_url base id)) = Some body ->
  exists w', probe net base id loaded miss w = (Ok (Some body), w')
             /\ requests w' = requests w ++ [Get (session_url base id)].
Proof.
  intros H. unfold probe, try_catch, fetch_get, bind, issue, modify, lift, console_write.
  simpl. destruct (net (session_url base id)) as [|[|] [b|]]; try discriminate.
  injection H as ->. simpl. eexists. split; reflexivity.
Qed.

Lemma probe_missed net base id loaded miss (w : widget) :
  found (net (session_url base id)) = None ->
  exists w', probe net base id loaded miss w = (Ok None, w')
             /\ requests w' = requests w ++ [Get (session_url base id)].
Proof.
  intros H. unfold probe, try_catch, fetch_get, bind, issue, modify, lift, console_write.
  simpl. destruct (net (session_url base id)) as [|[|] [b|]]; try discriminate;
    simpl; eexists; split; reflexivity.
Qed.

(** C7: without a [session] parameter in the locator, the resolution answers
    [null] and leaves the state as it was: no request is issued. *)
Theorem no_session_no_probe (hash : list N) (net : list N -> fetch_result (num := num)) (w : widget (num := num)) :
  params_get (hashParams hash) (str "session") = None ->
  loadAuditContext params_get hash net w = (Ok VNull, w).
Proof. intros H. unfold loadAuditContext. now rewrite H. Qed.

(** An empty [session] parameter is treated the same way. *)
Lemma empty_session_no_probe (hash : list N) (net : list N -> fetch_result (num := num)) (w : widget (num := num)) :
  params_get (hashParams hash) (str "session") = Some [] ->
  loadAuditContext params_get hash net w = (Ok VNull, w).
Proof. intros H. unfold loadAuditContext. now rewrite H. Qed.

(** C1, amended: the probes go through the endpoints in order; the first
    response with a success status and a body that parses gives the resolved
    context, and the requests issued are exactly the probes up to that one. *)
Theorem first_found_wins (hash : list N) (net : list N -> fetch_result (num := num)) (w : widget (num := num))
    (id : list N) (pre post : list (list N)) (base : list N) (body : value num) :
  params_get (hashParams hash) (str "session") = Some id -> id <> [] ->
  endpoints = pre ++ base :: post ->
  Forall (fun b => found (net (session_url b id)) = None) pre ->
  found (net (session_url base id)) = Some body ->
  fst (loadAuditContext params_get hash net w) = Ok body
  /\ requests (snd (loadAuditContext params_get hash net w))
     = requests w ++ probes id (pre ++ [base]).
Proof.
  intros Hp Hid He Hpre Hb.
  enough (R : exists w', loadAuditContext params_get hash net w = (Ok body, w')
                         /\ requests w' = requests w ++ probes id (pre ++ [base])).
  { destruct R as (w' & -> & R). now split. }
  unfold loadAuditContext. rewrite Hp.
  destruct id as [|i0 id]; [easy|]. clear Hid Hp.
  set (sid := i0 :: id) in *.
  unfold endpoints in He.
  destruct pre as [|p5 pre]; simpl in He.
  { injection He as <- _.
    destruct (probe_found net TOOL5_API sid
                (str "Loaded ROI context from Tool #5:")
                (LogEntry Log (str "Not Tool #5 session") None) w body Hb) as (w1 & E1 & R1).
    rewrite (bind_ok _ _ _ _ _ E1). exists w1. now split. }
  injection He as <- He. inversion Hpre as [|? ? H5 Hpre']; subst.
  destruct (probe_missed net TOOL5_API sid
              (str "Loaded ROI context from Tool #5:")
              (LogEntry Log (str "Not Tool #5 session") None) w H5) as (w1 & E1 & R1).
  rewrite (bind_ok _ _ _ _ _ E1).
  destruct pre as [|p4 pre]; simpl in He.
  { injection He as <- _.
    destruct (probe_found net TOOL4_API sid
                (str "Loaded readiness context from Tool #4:")
                (LogEntry Log (str "Not Tool #4 session") None) w1 body Hb) as (w2 & E2 & R2).
    rewrite (bind_ok _ _ _ _ _ E2). exists w2. split; [reflexivity|].
    rewrite R2, R1. now rewrite <- List.app_assoc. }
  injection He as <- He. inversion Hpre' as [|? ? H4 Hpre'']; subst.
  destruct (probe_missed net TOOL4_API sid
              (str "Loaded readiness context from Tool #4:")
              (LogEntry Log (str "Not Tool #4 session") None) w1 H4) as (w2 & E2 & R2).
  rewrite (bind_ok _ _ _ _ _ E2).
  destruct pre as [|p3 pre]; simpl in He.
  { injection He as <- _.
    destruct (probe_found net TOOL3_API sid
                (str "Loaded audit context from Tool #3:")
                (LogEntry Error (str "Session not found in any tool") None) w2 body Hb)
      as (w3 & E3 & R3).
    rewrite (bind_ok _ _ _ _ _ E3). exists w3. split; [reflexivity|].
    rewrite R3, R2, R1. now rewrite <- !List.app_assoc. }
  injection He as _ He. now destruct pre.
Qed.

(** When every probe misses, the three endpoints are probed and the answer is
    [null]. *)
Lemma all_missed (hash : list N) (net : list N -> fetch_result (num := num)) (w : widget (num := num)) (id : list N) :
  params_get (hashParams hash) (str "session") = Some id -> id <> [] ->
  Forall (fun b => found (net (session_url b id)) = None) endpoints ->
  fst (loadAuditContext params_get hash net w) = Ok VNull
  /\ requests (snd (loadAuditContext params_get hash net w))
     = requests w ++ probes id endpoints.
Proof.
  intros Hp Hid Hall.
  enough (R : exists w', loadAuditContext params_get hash net w = (Ok VNull, w')
                         /\ requests w' = requests w ++ probes id endpoints).
  { destruct R as (w' & -> & R). now split. }
  unfold loadAuditContext. rewrite Hp.
  destruct id as [|i0 id]; [easy|]. set (sid := i0 :: id) in *.
  inversion Hall as [|? ? H5 Hall']; subst.
  inversion Hall' as [|? ? H4 Hall'']; subst.
  inversion Hall'' as [|? ? H3 _]; subst.
  destruct (probe_missed net TOOL5_API sid
              (str "Loaded ROI context from Tool #5:")
              (LogEntry Log (str "Not Tool #5 session") None) w H5) as (w1 & E1 & R1).
  rewrite (bind_ok _ _ _ _ _ E1).
  destruct (probe_missed net TOOL4_API sid
              (str "Loaded readiness context from Tool #4:")
              (LogEntry Log (str "Not Tool #4 session") None) w1 H4) as (w2 & E2 & R2).
  rewrite (bind_ok _ _ _ _ _ E2).
  destruct (probe_missed net TOOL3_API sid
              (str "Loaded audit context from Tool #3:")
              (LogEntry Error (str "Session not found in any tool") None) w2 H3) as (w3 & E3 & R3).
  rewrite (bind_ok _ _ _ _ _ E3).
  exists w3. split; [reflexivity|].
  rewrite R3, R2, R1. now rewrite <- !List.app_assoc.
Qed.

End WithEngine.

(** *** Concrete runs, on the reference engine *)
Import Reference.

Definition demo_hash : list N := Eval vm_compute in (str "#/chat?session=abc123").
Definition demo_id : list N := Eval vm_compute in (str "abc123").

Definition readiness_context : value qnum :=
  VObj [(str "overall_score", int 80); (str "readiness_level", VStr (str "Advanced"))].

Definition audit_context_demo : value qnum :=
  VObj [(str "company_name", VStr (str "Acme")); (str "waste_score", int 40);
        (str "total_hours_wasted", int 12); (str "top_waste_zones", VArr [])].

(** Tool #5 answers 404, Tool #4 answers the readiness record, Tool #3 would
    answer an audit record. *)
Definition net_readiness (url : list N) : fetch_result (num := qnum) :=
  if str_eqb url (session_url TOOL5_API demo_id) then Response false None
  else if str_eqb url (session_url TOOL4_API demo_id) then Response true (Some readiness_context)
  else if str_eqb url (session_url TOOL3_API demo_id) then Response true (Some audit_context_demo)
  else NetworkError.

(** Tool #5 answers 200 with a body that is not JSON. *)
Definition net_unparsable (url : list N) : fetch_result (num := qnum) :=
  if str_eqb url (session_url TOOL5_API demo_id) then Response true None
  else if str_eqb url (session_url TOOL4_API demo_id) then Response true (Some readiness_context)
  else NetworkError.

Lemma no_session_no_probe_witness :
  Reference.params_get (hashParams (str "#/chat")) (str "session") = None
  /\ loadAuditContext Reference.params_get (str "#/chat") net_readiness (initial ∅)
     = (Ok VNull, initial ∅).
Proof.
  split; [reflexivity | apply no_session_no_probe; reflexivity].
Defined.

Lemma first_found_wins_witness :
  Reference.params_get (hashParams demo_hash) (str "session") = Some demo_id
  /\ fst (loadAuditContext Reference.params_get demo_hash net_readiness (initial ∅))
     = Ok readiness_context
  /\ requests (snd (loadAuditContext Reference.params_get demo_hash net_readiness (initial ∅)))
     = [Get (session_url TOOL5_API demo_id); Get (session_url TOOL4_API demo_id)].
Proof.
  split; [vm_compute; reflexivity|].
  apply (first_found_wins Reference.params_get demo_hash net_readiness (initial ∅)
           demo_id [TOOL5_API] [TOOL3_API] TOOL4_API readiness_context).
  - vm_compute; reflexivity.
  - discriminate.
  - reflexivity.
  - constructor; [vm_compute; reflexivity | constructor].
  - vm_compute; reflexivity.
Defined.

(** The claim as the specification words it: once a probe has a success
    status, no later endpoint is probed. *)
Definition first_success_stops : Prop :=
  forall (hash : list N) (net : list N -> fetch_result (num := qnum)) (w : widget)
         (id : list N) (pre post : list (list N)) (base : list N),
    Reference.params_get (hashParams hash) (str "session") = Some id -> id <> [] ->
    endpoints = pre ++ base :: post ->
    Forall (fun b => status_ok (net (session_url b id)) = false) pre ->
    status_ok (net (session_url base id)) = true ->
    requests (snd (loadAuditContext Reference.params_get hash net w))
    = requests w ++ probes id (pre ++ [base]).

(** A success status with a body that does not parse is a miss: the next
    endpoint is probed. *)
Lemma first_success_stops_fails : ~ first_success_stops.
Proof.
  intros H.
  specialize (H demo_hash net_unparsable (initial ∅) demo_id [] [TOOL4_API; TOOL3_API] TOOL5_API).
  assert (E : requests (snd (loadAuditContext Reference.params_get demo_hash net_unparsable (initial ∅)))
              = [Get (session_url TOOL5_API demo_id); Get (session_url TOOL4_API demo_id)])
    by (vm_compute; reflexivity).
  rewrite E in H.
  assert (H' := H ltac:(vm_compute; reflexivity) ltac:(discriminate) eq_refl
                  ltac:(constructor) ltac:(vm_compute; reflexivity)).
  vm_compute in H'. discriminate H'.
Qed.

End ResolverFacts.

(** ** The greeting *)
Module GreetingFacts.
Import JS Values Widget Text.

Section WithEngine.
Context {num : Type} {NumOps : Number num}.

(** The context reaches the audit branch of [generateGreeting]. *)
Definition audit_branch (context : value num) : bool :=
  truthy context
  && negb (has context (str "annual_savings"))
  && negb (has context (str "overall_score"))
  && has context (str "waste_score").

(** The greeting of the audit branch, for the texts of its fields. *)
Definition audit_text (company score hours zone count : list N) : list N :=
  str "I see you just completed an intelligence audit for " ++ company ++ str "." ++ nn
  ++ str "Your waste score is " ++ score ++ str "/100, with " ++ hours
  ++ str " hours lost monthly." ++ nn
  ++ str "Top waste zone: " ++ zone ++ nn
  ++ str "I've analyzed " ++ count
  ++ str " similar businesses. Want to see what worked for them?".

Lemma generateGreeting_audit (random : num) (context : value num) :
  audit_branch context = true ->
  generateGreeting random context = audit_greeting random context.
Proof.
  unfold audit_branch, generateGreeting. intros H.
  apply andb_true_iff in H as [H H4]. apply andb_true_iff in H as [H H3].
  apply andb_true_iff in H as [H1 H2].
  apply negb_true_iff in H2, H3. now rewrite H1, H2, H3, H4.
Qed.

Lemma generateGreeting_elsewhere (r1 r2 : num) (context : value num) :
  audit_branch context = false ->
  generateGreeting r1 context = generateGreeting r2 context.
Proof.
  unfold audit_branch, generateGreeting. intros H.
  destruct (truthy context); [|reflexivity]. simpl in *.
  destruct (has context (str "annual_savings")); [reflexivity|].
  destruct (has context (str "overall_score")); [reflexivity|].
  simpl in H. now rewrite H.
Qed.

Lemma audit_greeting_text (random : num) (context : value num) :
  audit_greeting random context
  = opt_bind (get context (str "company_name")) (fun company_name =>
    opt_bind (get context (str "waste_score")) (fun waste_score =>
    opt_bind (get context (str "total_hours_wasted")) (fun total_hours_wasted =>
    opt_bind (get context (str "top_waste_zones")) (fun top_waste_zones =>
    opt_bind (top_zone top_waste_zones) (fun topZone =>
    opt_bind (to_string company_name) (fun c =>
    opt_bind (to_string waste_score) (fun s =>
    opt_bind (to_string total_hours_wasted) (fun h =>
    opt_bind (to_string topZone) (fun z =>
    Some (audit_text c s h z (num_toString (num_floor_scale random 50 50)))))))))))).
Proof. reflexivity. Qed.

(** The text of the count: [Math.floor(Math.random() * 50) + 50] in a
    template literal. *)
Definition count_text (random : num) : list N :=
  num_toString (num_floor_scale random 50 50).

(** The greeting of the audit branch determines the text of the count. *)
Lemma audit_text_count (c s h z k1 k2 : list N) :
  audit_text c s h z k1 = audit_text c s h z k2 -> k1 = k2.
Proof.
  unfold audit_text. intros H.
  repeat apply app_inv_head in H. now apply app_inv_tail in H.
Qed.

Lemma audit_text_holds_count (c s h z k : list N) :
  sub (str "I've analyzed " ++ k ++ str " similar businesses.") (audit_text c s h z k).
Proof.
  unfold audit_text.
  exists (str "I see you just completed an intelligence audit for " ++ c ++ str "." ++ nn
          ++ str "Your waste score is " ++ s ++ str "/100, with " ++ h
          ++ str " hours lost monthly." ++ nn ++ str "Top waste zone: " ++ z ++ nn),
         (str " Want to see what worked for them?").
  rewrite <- !List.app_assoc. do 12 f_equal.
Qed.

(** In the audit branch the greeting either fails whatever the draw, or is
    the audit text of fields that do not depend on the draw, with the count
    of the draw. *)
Lemma audit_greeting_shape (context : value num) :
  (forall random, audit_greeting random context = None)
  \/ exists c s h z,
       forall random, audit_greeting random context
                      = Some (audit_text c s h z (count_text random)).
Proof.
  pose proof (audit_greeting_text) as E.
  destruct (get context (str "company_name")) as [cn|] eqn:E1;
    [|left; intros r; rewrite E, E1; reflexivity].
  destruct (get context (str "waste_score")) as [ws|] eqn:E2;
    [|left; intros r; rewrite E, E1, E2; reflexivity].
  destruct (get context (str "total_hours_wasted")) as [th|] eqn:E3;
    [|left; intros r; rewrite E, E1, E2, E3; reflexivity].
  destruct (get context (str "top_waste_zones")) as [tz|] eqn:E4;
    [|left; intros r; rewrite E, E1, E2, E3, E4; reflexivity].
  destruct (top_zone tz) as [zn|] eqn:E5;
    [|left; intros r; rewrite E, E1, E2, E3, E4; cbn [opt_bind]; rewrite E5; reflexivity].
  destruct (to_string cn) as [c|] eqn:E6;
    [|left; intros r; rewrite E, E1, E2, E3, E4; cbn [opt_bind]; rewrite E5; cbn [opt_bind];
      rewrite E6; reflexivity].
  destruct (to_string ws) as [sc|] eqn:E7;
    [|left; intros r; rewrite E, E1, E2, E3, E4; cbn [opt_bind]; rewrite E5; cbn [opt_bind];
      rewrite E6; cbn [opt_bind]; rewrite E7; reflexivity].
  destruct (to_string th) as [h|] eqn:E8;
    [|left; intros r; rewrite E, E1, E2, E3, E4; cbn [opt_bind]; rewrite E5; cbn [opt_bind];
      rewrite E6; cbn [opt_bind]; rewrite E7; cbn [opt_bind]; rewrite E8; reflexivity].
  destruct (to_string zn) as [z|] eqn:E9;
    [|left; intros r; rewrite E, E1, E2, E3, E4; cbn [opt_bind]; rewrite E5; cbn [opt_bind];
      rewrite E6; cbn [opt_bind]; rewrite E7; cbn [opt_bind]; rewrite E8; cbn [opt_bind];
      rewrite E9; reflexivity].
  right. exists c, sc, h, z. intros r.
  rewrite E, E1, E2, E3, E4; cbn [opt_bind]; rewrite E5; cbn [opt_bind];
    rewrite E6; cbn [opt_bind]; rewrite E7; cbn [opt_bind]; rewrite E8; cbn [opt_bind];
    rewrite E9; reflexivity.
Qed.

(** C3, amended: outside the audit branch the greeting does not depend on the
    random draw.  In the audit branch a greeting is produced for every draw or
    for none; when it is, it holds the text of the count drawn (in
    [I've analyzed ... similar businesses.]), all the rest of it is the same
    for every draw, and two draws give the same greeting exactly when the
    texts of their counts are equal. *)
Theorem greeting_random_only_in_audit (r1 r2 : num) (context : value num) :
  (audit_branch context = false ->
   generateGreeting r1 context = generateGreeting r2 context)
  /\ (count_text r1 = count_text r2 ->
      generateGreeting r1 context = generateGreeting r2 context)
  /\ (audit_branch context = true ->
      (generateGreeting r1 context = None /\ generateGreeting r2 context = None)
      \/ exists c s h z,
           generateGreeting r1 context = Some (audit_text c s h z (count_text r1))
           /\ generateGreeting r2 context = Some (audit_text c s h z (count_text r2))
           /\ sub (str "I've analyzed " ++ count_text r1 ++ str " similar businesses.")
                  (audit_text c s h z (count_text r1))
           /\ (generateGreeting r1 context = generateGreeting r2 context
               <-> count_text r1 = count_text r2)).
Proof.
  split; [apply generateGreeting_elsewhere|]. split.
  - intros H. destruct (audit_branch context) eqn:E.
    + rewrite !generateGreeting_audit, !audit_greeting_text by exact E.
      unfold count_text in H. now rewrite H.
    + now apply generateGreeting_elsewhere.
  - intros E. rewrite !generateGreeting_audit by exact E.
    destruct (audit_greeting_shape context) as [Hn | (c & s & h & z & Hs)].
    + left. now rewrite !Hn.
    + right. exists c, s, h, z. rewrite !Hs. repeat split.
      * apply audit_text_holds_count.
      * intros H. apply (audit_text_count c s h z). congruence.
      * intros H. now rewrite H.
Qed.

(** Where the fallback works: in the audit branch, when [top_waste_zones] is
    absent, [null], empty, or has a falsy first element, and the three fields
    put in the text convert to strings, the greeting is produced with the
    zone [operations]. *)
Lemma missing_zone_fallback (random : num) (context zones : value num)
    (company score hours : list N) :
  audit_branch context = true ->
  get context (str "top_waste_zones") = Some zones ->
  (zones = VUndefined \/ zones = VNull \/ zones = VArr []
   \/ exists first others, zones = VArr (first :: others) /\ truthy first = false) ->
  opt_bind (get context (str "company_name")) to_string = Some company ->
  opt_bind (get context (str "waste_score")) to_string = Some score ->
  opt_bind (get context (str "total_hours_wasted")) to_string = Some hours ->
  generateGreeting random context
  = Some (audit_text company score hours (str "operations")
            (num_toString (num_floor_scale random 50 50))).
Proof.
  intros Hb Hz Hcase Hc Hs Hh.
  rewrite generateGreeting_audit, audit_greeting_text by exact Hb.
  assert (Ht : top_zone zones = Some (VStr (str "operations"))).
  { destruct Hcase as [-> | [-> | [-> | (f & o & -> & Hf)]]]; try reflexivity.
    unfold top_zone. simpl. now rewrite Hf. }
  destruct (get context (str "company_name")) as [cn|]; [|discriminate]. simpl in Hc.
  destruct (get context (str "waste_score")) as [ws|]; [|discriminate]. simpl in Hs.
  destruct (get context (str "total_hours_wasted")) as [th|]; [|discriminate]. simpl in Hh.
  rewrite Hz. simpl. rewrite Ht. simpl. rewrite Hc. simpl. rewrite Hs. simpl.
  rewrite Hh. reflexivity.
Qed.

(** C10: the guard of the zone tests the first element, not its name.  In
    the audit branch, when [top_waste_zones] is truthy and its first element is
    truthy but has no [name], the greeting is produced with the zone text
    [undefined] where the claim has [operations]. *)
Theorem nameless_zone_undefined (random : num) (context zones first : value num)
    (company score hours : list N) :
  audit_branch context = true ->
  get context (str "top_waste_zones") = Some zones ->
  truthy zones = true -> get0 zones = Some first ->
  truthy first = true -> get first (str "name") = Some VUndefined ->
  opt_bind (get context (str "company_name")) to_string = Some company ->
  opt_bind (get context (str "waste_score")) to_string = Some score ->
  opt_bind (get context (str "total_hours_wasted")) to_string = Some hours ->
  generateGreeting random context
  = Some (audit_text company score hours (str "undefined")
            (num_toString (num_floor_scale random 50 50))).
Proof.
  intros Hb Hz Tz H0 Tf Hname Hc Hs Hh.
  rewrite generateGreeting_audit, audit_greeting_text by exact Hb.
  assert (Ht : top_zone zones = Some VUndefined).
  { unfold top_zone. rewrite Tz, H0. cbn [opt_bind]. now rewrite Tf. }
  destruct (get context (str "company_name")) as [cn|]; [|discriminate]. simpl in Hc.
  destruct (get context (str "waste_score")) as [ws|]; [|discriminate]. simpl in Hs.
  destruct (get context (str "total_hours_wasted")) as [th|]; [|discriminate]. simpl in Hh.
  rewrite Hz. simpl. rewrite Ht. simpl. rewrite Hc. simpl. rewrite Hs. simpl.
  rewrite Hh. reflexivity.
Qed.

End WithEngine.

(** *** Concrete contexts, on the reference engine *)
Import Reference.

Definition audit_of (zones : value qnum) : value qnum :=
  VObj [(str "company_name", VStr (str "Acme")); (str "waste_score", int 40);
        (str "total_hours_wasted", int 12); (str "top_waste_zones", zones)].

Lemma greeting_random_only_in_audit_witness :
  generateGreeting (Fin 0) (VObj [(str "overall_score", int 80)])
  = generateGreeting (Fin (1 # 2)) (VObj [(str "overall_score", int 80)])
  /\ generateGreeting (Fin (1 # 2)) (audit_of (VArr []))
     = generateGreeting (Fin (51 # 100)) (audit_of (VArr []))
  /\ ((generateGreeting (Fin 0) (audit_of (VArr [])) = None
       /\ generateGreeting (Fin (1 # 2)) (audit_of (VArr [])) = None)
      \/ exists c s h z,
           generateGreeting (Fin 0) (audit_of (VArr []))
           = Some (audit_text c s h z (count_text (Fin 0)))
           /\ generateGreeting (Fin (1 # 2)) (audit_of (VArr []))
              = Some (audit_text c s h z (count_text (Fin (1 # 2))))
           /\ sub (str "I've analyzed " ++ count_text (Fin 0) ++ str " similar businesses.")
                  (audit_text c s h z (count_text (Fin 0)))
           /\ (generateGreeting (Fin 0) (audit_of (VArr []))
               = generateGreeting (Fin (1 # 2)) (audit_of (VArr []))
               <-> count_text (Fin 0) = count_text (Fin (1 # 2)))).
Proof.
  split; [|split].
  - apply (proj1 (greeting_random_only_in_audit (Fin 0) (Fin (1 # 2))
                    (VObj [(str "overall_score", int 80)]))).
    vm_compute. reflexivity.
  - apply (proj1 (proj2 (greeting_random_only_in_audit (Fin (1 # 2)) (Fin (51 # 100))
                           (audit_of (VArr []))))).
    vm_compute. reflexivity.
  - apply (proj2 (proj2 (greeting_random_only_in_audit (Fin 0) (Fin (1 # 2))
                           (audit_of (VArr []))))).
    vm_compute. reflexivity.
Defined.

(** The claim as the specification words it: one input, one greeting. *)
Definition greeting_deterministic : Prop :=
  forall (r1 r2 : qnum) (context : value qnum),
    generateGreeting r1 context = generateGreeting r2 context.

Lemma greeting_deterministic_fails : ~ greeting_deterministic.
Proof.
  intros H. specialize (H (Fin 0) (Fin (1 # 2)) (audit_of (VArr []))).
  vm_compute in H. discriminate H.
Qed.

Lemma missing_zone_fallback_witness :
  generateGreeting (Fin (1 # 2)) (audit_of (VArr [VNull]))
  = Some (audit_text (str "Acme") (str "40") (str "12") (str "operations")
            (num_toString (num_floor_scale (Fin (1 # 2)) 50 50))).
Proof.
  refine (missing_zone_fallback (Fin (1 # 2)) (audit_of (VArr [VNull])) (VArr [VNull])
            (str "Acme") (str "40") (str "12") _ _ _ _ _ _).
  - vm_compute. reflexivity.
  - vm_compute. reflexivity.
  - right. right. right. exists VNull, []. split; reflexivity.
  - vm_compute. reflexivity.
  - vm_compute. reflexivity.
  - vm_compute. reflexivity.
Defined.

Lemma nameless_zone_undefined_witness :
  generateGreeting (Fin 0) (audit_of (VArr [VObj []]))
  = Some (audit_text (str "Acme") (str "40") (str "12") (str "undefined")
            (num_toString (num_floor_scale (Fin 0) 50 50))).
Proof.
  refine (nameless_zone_undefined (Fin 0) (audit_of (VArr [VObj []])) (VArr [VObj []])
            (VObj []) (str "Acme") (str "40") (str "12") _ _ _ _ _ _ _ _ _);
    vm_compute; reflexivity.
Defined.

(** The claim as the specification words it, for a first element without a
    name. *)
Definition nameless_zone_falls_back : Prop :=
  forall (random : qnum) (context first : value qnum) (others : list (value qnum)),
    audit_branch context = true ->
    get context (str "top_waste_zones") = Some (VArr (first :: others)) ->
    get first (str "name") = Some VUndefined ->
    exists greeting,
      generateGreeting random context = Some greeting
      /\ sub (str "Top waste zone: operations") greeting.

(** For a first element that is an object without a name the zone reads
    [undefined]. *)
Lemma nameless_zone_falls_back_fails : ~ nameless_zone_falls_back.
Proof.
  intros H.
  destruct (H (Fin 0) (audit_of (VArr [VObj []])) (VObj []) [])
    as (g & Hg & Hsub); try (vm_compute; reflexivity).
  assert (E : generateGreeting (Fin 0) (audit_of (VArr [VObj []]))
              = Some (audit_text (str "Acme") (str "40") (str "12") (str "undefined") (str "50")))
    by (vm_compute; reflexivity).
  rewrite E in Hg. injection Hg as <-.
  revert Hsub. apply includes_false. vm_compute. reflexivity.
Qed.

End GreetingFacts.

(** ** The chat transport *)
Module ChatFacts.
Import JS Values Widget.

#[local] Arguments Markdown.parseMarkdown : simpl never.

Section WithEngine.
Context {num : Type} {NumOps : Number num}.

Fixpoint count_typing (l : list (node)) : nat :=
  match l with
  | [] => 0
  | TypingNode :: l' => S (count_typing l')
  | MessageNode _ _ :: l' => count_typing l'
  end.

Lemma count_typing_app (a b : list node) :
  count_typing (a ++ b) = count_typing a + count_typing b.
Proof.
  induction a as [|[u h|] a IH]; simpl; auto.
Qed.

Lemma count_typing_remove (l : list node) :
  count_typing (remove_typing l) = pred (count_typing l).
Proof.
  induction l as [|[u h|] l IH]; simpl; auto.
Qed.

(** No request is in flight, the flag is down and no indicator is shown; or
    one request is in flight, the flag is up and one indicator is shown. *)
Definition quiet (w : widget (num := num)) : Prop :=
  isWaitingForResponse w = false /\ inflight w = [] /\ count_typing (chatMessages w) = 0.

Definition busy (w : widget (num := num)) : Prop :=
  isWaitingForResponse w = true /\ (exists p, inflight w = [p])
  /\ count_typing (chatMessages w) = 1.

Definition settled (w : widget (num := num)) : Prop := quiet w \/ busy w.

(** [getSessionId] touches the identifier and the storage only. *)
Lemma getSessionId_frame (e : env) (w : widget (num := num)) :
  exists r w', getSessionId e w = (Ok r, w')
    /\ sessionId w' = r
    /\ isWaitingForResponse w' = isWaitingForResponse w
    /\ auditContext w' = auditContext w
    /\ input_value w' = input_value w
    /\ chatMessages w' = chatMessages w
    /\ console w' = console w
    /\ requests w' = requests w
    /\ inflight w' = inflight w.
Proof.
  unfold getSessionId, bind, read. destruct (no_id (sessionId w)); simpl.
  - destruct (no_id (localStorage w !! storage_key)); simpl;
      eexists _, _; (split; [reflexivity|]); simpl; now repeat split.
  - eexists _, _. split; [reflexivity|]. now repeat split.
Qed.

(** C5, first part: while the flag is up a submission changes nothing. *)
Lemma send_blocked (e : env) (w : widget (num := num)) :
  isWaitingForResponse w = true -> sendNuruMessage e w = (Ok tt, w).
Proof. intros H. unfold sendNuruMessage, bind, read. now rewrite H. Qed.

(** A blank input changes nothing either. *)
Lemma send_blank (e : env) (w : widget (num := num)) :
  trim (input_value w) = [] -> sendNuruMessage e w = (Ok tt, w).
Proof.
  intros H. unfold sendNuruMessage, bind, read.
  destruct (isWaitingForResponse w); [reflexivity|]. now rewrite H.
Qed.

(** A submission that starts: the user message and the indicator are
    appended, the input is cleared, the flag is raised and one request is
    issued. *)
Lemma send_starts (e : env) (w : widget (num := num)) :
  isWaitingForResponse w = false -> trim (input_value w) <> [] ->
  exists w',
    sendNuruMessage e w = (Ok tt, w')
    /\ isWaitingForResponse w' = true
    /\ input_value w' = []
    /\ chatMessages w' = chatMessages w
                         ++ [MessageNode true (escape_user (trim (input_value w))); TypingNode]
    /\ requests w' = requests w
                     ++ [Post chat_url
                           (ChatBody (trim (input_value w)) (sessionId w')
                              (if truthy (auditContext w) then Some (auditContext w) else None))]
    /\ inflight w' = inflight w ++ [AwaitFetch]
    /\ console w' = console w
    /\ auditContext w' = auditContext w.
Proof.
  intros Hw Hm. unfold sendNuruMessage.
  unfold bind at 1. unfold read at 1. rewrite Hw.
  destruct (trim (input_value w)) as [|m0 ms] eqn:Em; [easy|].
  destruct w as [sid0 wt ctx ls lg inp msgs con reqs infl]. simpl in *.
  unfold addMessage, set_input, set_waiting, showTyping, lift, render_user, bind, read,
    set_chatMessages, modify, ret. simpl.
  match goal with
  | |- context [getSessionId e ?w0] =>
      destruct (getSessionId_frame e w0) as (r & w1 & E & F0 & F1 & F2 & F3 & F4 & F5 & F6 & F7)
  end.
  rewrite E. destruct w1 as [sid1 wt1 ctx1 ls1 lg1 inp1 msgs1 con1 reqs1 infl1].
  simpl in *. subst.
  unfold issue, suspend, set_inflight, modify, bind, read. simpl.
  eexists. split; [reflexivity|]. simpl.
  rewrite <- List.app_assoc. now repeat split.
Qed.

(** The state a call of [sendNuruMessage] leaves when it ends: the flag is
    down; the log, the console and the suspended calls are as given. *)
Definition finish (w : widget (num := num)) (msgs : list node) (con : list log_entry)
    (l : list pending) : widget :=
  Widget (sessionId w) false (auditContext w) (localStorage w) (storage_log w)
         (input_value w) msgs con (requests w) l.

Definition connection_entry : log_entry (num := num) :=
  LogEntry Error (str "Connection error:") None.

Definition backend_entry (error : value num) : log_entry :=
  LogEntry Error (str "Backend error:") (Some error).

Definition ai (html : list N) : node := MessageNode false html.

Lemma render_apology_connection :
  render_ai (num := num) (VStr apology_connection)
  = Some (Markdown.parseMarkdown apology_connection).
Proof. reflexivity. Qed.

Lemma render_apology_backend :
  render_ai (num := num) (VStr apology_backend)
  = Some (Markdown.parseMarkdown apology_backend).
Proof. reflexivity. Qed.

(** The [catch] block followed by the [finally] block. *)
Lemma catch_finally (body : M unit) (w w1 : widget (num := num)) :
  body w = (Throw, w1) ->
  try_catch_finally body send_catch send_finally w
  = (Ok tt, finish w1 (remove_typing (chatMessages w1)
                         ++ [ai (Markdown.parseMarkdown apology_connection)])
                      (console w1 ++ [connection_entry]) (inflight w1)).
Proof.
  intros H. unfold try_catch_finally. rewrite H.
  unfold send_catch, hideTyping, addMessage, bind, read, lift, set_chatMessages, modify,
    console_write, send_finally, set_waiting.
  cbn [chatMessages]. rewrite render_apology_connection. reflexivity.
Qed.

Lemma body_finally (body : M unit) (w w1 : widget (num := num)) :
  body w = (Ok tt, w1) ->
  try_catch_finally body send_catch send_finally w
  = (Ok tt, finish w1 (chatMessages w1) (console w1) (inflight w1)).
Proof.
  intros H. unfold try_catch_finally. rewrite H. reflexivity.
Qed.

(** The reply segment, by the shape of the body. *)
Inductive reply_case (json : option (value num)) (msgs : list node) (con : list log_entry)
  : list node -> list log_entry -> Prop :=
| reply_unparsable :
    json = None ->
    reply_case json msgs con
      (remove_typing msgs ++ [ai (Markdown.parseMarkdown apology_connection)])
      (con ++ [connection_entry])
| reply_no_object data :
    json = Some data -> get data (str "response") = None ->
    reply_case json msgs con
      (remove_typing (remove_typing msgs) ++ [ai (Markdown.parseMarkdown apology_connection)])
      (con ++ [connection_entry])
| reply_text data response html :
    json = Some data -> get data (str "response") = Some response ->
    truthy response = true -> render_ai response = Some html ->
    reply_case json msgs con (remove_typing msgs ++ [ai html]) con
| reply_not_text data response :
    json = Some data -> get data (str "response") = Some response ->
    truthy response = true -> render_ai response = None ->
    reply_case json msgs con
      (remove_typing (remove_typing msgs) ++ [ai (Markdown.parseMarkdown apology_connection)])
      (con ++ [connection_entry])
| reply_error data response error :
    json = Some data -> get data (str "response") = Some response ->
    truthy response = false -> get data (str "error") = Some error ->
    truthy error = true ->
    reply_case json msgs con
      (remove_typing msgs ++ [ai (Markdown.parseMarkdown apology_backend)])
      (con ++ [backend_entry error])
| reply_nothing data response error :
    json = Some data -> get data (str "response") = Some response ->
    truthy response = false -> get data (str "error") = Some error ->
    truthy error = false ->
    reply_case json msgs con (remove_typing msgs) con.

Lemma get_total (data : value num) (k k' : list N) (v : value num) :
  get data k = Some v -> exists v', get data k' = Some v'.
Proof. destruct data; simpl; try discriminate; eauto. Qed.

(** The state with another log and console. *)
Definition with_log (w : widget (num := num)) (msgs : list node) (con : list log_entry)
    : widget :=
  Widget (sessionId w) (isWaitingForResponse w) (auditContext w) (localStorage w)
         (storage_log w) (input_value w) msgs con (requests w) (inflight w).

Ltac run_reply :=
  unfold send_reply, lift, bind, ret, throw, hideTyping, read, set_chatMessages, modify,
    addMessage, console_write, with_log; cbn -[str].

Lemma reply_settles (json : option (value num)) (w : widget (num := num)) :
  exists msgs con,
    reply_case json (chatMessages w) (console w) msgs con
    /\ try_catch_finally (send_reply json) send_catch send_finally w
       = (Ok tt, finish w msgs con (inflight w)).
Proof.
  destruct w as [sid0 wt ctx ls lg inp msgs0 con0 reqs infl].
  set (w := Widget sid0 wt ctx ls lg inp msgs0 con0 reqs infl).
  destruct json as [data|].
  2:{ eexists _, _. split; [exact (reply_unparsable _ _ _ eq_refl)|].
      assert (Hb : send_reply None w = (Throw, w)) by reflexivity.
      now rewrite (catch_finally _ _ _ Hb). }
  destruct (get data (str "response")) as [response|] eqn:Er.
  2:{ eexists _, _. split; [exact (reply_no_object _ _ _ data eq_refl Er)|].
      assert (Hb : send_reply (Some data) w = (Throw, with_log w (remove_typing msgs0) con0))
        by (run_reply; now rewrite Er).
      now rewrite (catch_finally _ _ _ Hb). }
  destruct (truthy response) eqn:Et.
  - destruct (render_ai response) as [html|] eqn:Eh.
    + eexists _, _. split; [exact (reply_text _ _ _ data response html eq_refl Er Et Eh)|].
      assert (Hb : send_reply (Some data) w
                   = (Ok tt, with_log w (remove_typing msgs0 ++ [ai html]) con0))
        by (run_reply; rewrite Er; cbn -[str]; rewrite Et; cbn -[str]; now rewrite Eh).
      now rewrite (body_finally _ _ _ Hb).
    + eexists _, _. split; [exact (reply_not_text _ _ _ data response eq_refl Er Et Eh)|].
      assert (Hb : send_reply (Some data) w = (Throw, with_log w (remove_typing msgs0) con0))
        by (run_reply; rewrite Er; cbn -[str]; rewrite Et; cbn -[str]; now rewrite Eh).
      now rewrite (catch_finally _ _ _ Hb).
  - destruct (get_total data _ (str "error") _ Er) as (error & Ee).
    destruct (truthy error) eqn:Ete.
    + eexists _, _. split; [exact (reply_error _ _ _ data response error eq_refl Er Et Ee Ete)|].
      assert (Hb : send_reply (Some data) w
                   = (Ok tt, with_log w (remove_typing msgs0
                                         ++ [ai (Markdown.parseMarkdown apology_backend)])
                                      (con0 ++ [backend_entry error])))
        by (run_reply; rewrite Er; cbn -[str]; rewrite Et; cbn -[str]; rewrite Ee; cbn -[str]; rewrite Ete; cbn -[str];
            now rewrite render_apology_backend).
      now rewrite (body_finally _ _ _ Hb).
    + eexists _, _. split; [exact (reply_nothing _ _ _ data response error eq_refl Er Et Ee Ete)|].
      assert (Hb : send_reply (Some data) w = (Ok tt, with_log w (remove_typing msgs0) con0))
        by (run_reply; rewrite Er; cbn -[str]; rewrite Et; cbn -[str]; rewrite Ee; cbn -[str]; now rewrite Ete).
      now rewrite (body_finally _ _ _ Hb).
Qed.

Definition with_inflight (w : widget (num := num)) (l : list pending) : widget :=
  Widget (sessionId w) (isWaitingForResponse w) (auditContext w) (localStorage w)
         (storage_log w) (input_value w) (chatMessages w) (console w) (requests w) l.

(** *** What each event does *)
Lemma step_fetch_failed (w : widget (num := num)) (i : nat) :
  inflight w !! i = Some AwaitFetch ->
  step (FetchSettles i NetworkError) w
  = finish w (remove_typing (chatMessages w)
                ++ [ai (Markdown.parseMarkdown apology_connection)])
             (console w ++ [connection_entry]) (delete i (inflight w)).
Proof.
  intros H. unfold step, handle. unfold bind at 1. unfold read at 1. rewrite H.
  unfold bind, set_inflight, modify.
  rewrite (catch_finally throw _ _ eq_refl). reflexivity.
Qed.

Lemma step_fetch_answered (w : widget (num := num)) (i : nat) (ok : bool)
    (json : option (value num)) :
  inflight w !! i = Some AwaitFetch ->
  step (FetchSettles i (Response ok json)) w
  = with_inflight w (<[i := AwaitJson json]> (inflight w)).
Proof.
  intros H. unfold step, handle. unfold bind at 1. unfold read at 1. now rewrite H.
Qed.

Lemma step_json_settled (w : widget (num := num)) (i : nat) (json : option (value num)) :
  inflight w !! i = Some (AwaitJson json) ->
  exists msgs con,
    reply_case json (chatMessages w) (console w) msgs con
    /\ step (JsonSettles i) w = finish w msgs con (delete i (inflight w)).
Proof.
  intros H. unfold step, handle. unfold bind at 1. unfold read at 1. rewrite H.
  unfold bind, set_inflight, modify.
  destruct (reply_settles json (with_inflight w (delete i (inflight w))))
    as (msgs & con & Hc & E).
  exists msgs, con. split; [exact Hc|].
  unfold with_inflight in E. cbn [fst snd] in *. now rewrite E.
Qed.

Lemma step_fetch_ignored (w : widget (num := num)) (i : nat) (r : fetch_result) :
  inflight w !! i <> Some AwaitFetch -> step (FetchSettles i r) w = w.
Proof.
  intros H. unfold step, handle. unfold bind at 1. unfold read at 1.
  destruct (inflight w !! i) as [[|json]|]; try reflexivity. now destruct H.
Qed.

Lemma step_json_ignored (w : widget (num := num)) (i : nat) :
  (forall json, inflight w !! i <> Some (AwaitJson json)) -> step (JsonSettles i) w = w.
Proof.
  intros H. unfold step, handle. unfold bind at 1. unfold read at 1.
  destruct (inflight w !! i) as [[|json]|]; try reflexivity. now destruct (H json).
Qed.

Lemma reply_case_count json msgs con msgs' con' :
  reply_case json msgs con msgs' con' ->
  count_typing msgs <= 1 -> count_typing msgs' = 0.
Proof.
  intros H Hc. destruct H;
    rewrite ?count_typing_app, ?count_typing_remove; simpl; lia.
Qed.

(** *** The invariant *)
Lemma settled_initial (storage : gmap (list N) (list N)) :
  settled (initial (num := num) storage).
Proof. left. now repeat split. Qed.

Lemma settled_step (ev : event) (w : widget (num := num)) :
  settled w -> settled (step ev w).
Proof.
  intros Hs. destruct ev as [text | e | i r | i].
  - destruct Hs as [(H1 & H2 & H3) | (H1 & H2 & H3)]; [left | right];
      unfold step, handle, set_input, modify; simpl; now repeat split.
  - unfold step, handle.
    destruct (isWaitingForResponse w) eqn:Hw.
    { now rewrite (send_blocked e w Hw). }
    destruct (trim (input_value w)) as [|m0 ms] eqn:Em.
    { now rewrite (send_blank e w Em). }
    destruct Hs as [(H1 & H2 & H3) | (H1 & _)]; [|congruence].
    destruct (send_starts e w Hw) as (w' & E & F1 & F2 & F3 & F4 & F5 & F6 & F7);
      [now rewrite Em|].
    rewrite E. simpl. right. repeat split; auto.
    + exists AwaitFetch. now rewrite F5, H2.
    + rewrite F3, count_typing_app, H3. reflexivity.
  - destruct Hs as [(H1 & H2 & H3) | (H1 & (p & H2) & H3)].
    + rewrite step_fetch_ignored; [now left|]. now rewrite H2.
    + destruct i as [|i]; [|rewrite step_fetch_ignored; [right; unfold busy; eauto | now rewrite H2]].
      destruct p as [|json]; [|rewrite step_fetch_ignored; [right; unfold busy; eauto | now rewrite H2]].
      destruct r as [|ok json].
      * rewrite step_fetch_failed by now rewrite H2. left. unfold quiet, finish; simpl.
        rewrite H2. repeat split.
        rewrite count_typing_app, count_typing_remove, H3. reflexivity.
      * rewrite step_fetch_answered by now rewrite H2. right.
        unfold busy, with_inflight; simpl.
        rewrite H2. repeat split; eauto.
  - destruct Hs as [(H1 & H2 & H3) | (H1 & (p & H2) & H3)].
    + rewrite step_json_ignored; [now left|]. intros json. now rewrite H2.
    + destruct i as [|i];
        [|rewrite step_json_ignored; [right; unfold busy; eauto | intros json; now rewrite H2]].
      destruct p as [|json];
        [rewrite step_json_ignored; [right; unfold busy; eauto | intros json; now rewrite H2]|].
      destruct (step_json_settled w 0 json) as (msgs & con & Hc & E); [now rewrite H2|].
      rewrite E. left. unfold quiet, finish; simpl. rewrite H2. repeat split.
      apply (reply_case_count _ _ _ _ _ Hc). lia.
Qed.

Lemma settled_run (evs : list event) (w : widget (num := num)) :
  settled w -> settled (run evs w).
Proof.
  revert w. induction evs as [|ev evs IH]; intros w H; [exact H|].
  apply IH, settled_step, H.
Qed.

(** C5: a submission made while the flag is up changes nothing (no message,
    no request); in every state a page view can reach at most one call is
    suspended, and the flag is up exactly when one is; when the fetch of a
    started request fails, or when its body settles (a reply, an error
    record, or a body that does not parse), the flag is down and no call is
    left suspended. *)
Theorem one_request_at_a_time :
  (forall (e : env) (w : widget (num := num)),
     isWaitingForResponse w = true -> sendNuruMessage e w = (Ok tt, w))
  /\ (forall (storage : gmap (list N) (list N)) (evs : list event),
        let w := run evs (initial (num := num) storage) in
        List.length (inflight w) <= 1
        /\ (isWaitingForResponse w = false <-> inflight w = []))
  /\ (forall (storage : gmap (list N) (list N)) (evs : list event) (i : nat),
        let w := run evs (initial (num := num) storage) in
        inflight w !! i = Some AwaitFetch ->
        isWaitingForResponse (step (FetchSettles i NetworkError) w) = false
        /\ inflight (step (FetchSettles i NetworkError) w) = [])
  /\ (forall (storage : gmap (list N) (list N)) (evs : list event) (i : nat)
             (json : option (value num)),
        let w := run evs (initial (num := num) storage) in
        inflight w !! i = Some (AwaitJson json) ->
        isWaitingForResponse (step (JsonSettles i) w) = false
        /\ inflight (step (JsonSettles i) w) = []).
Proof.
  split; [exact send_blocked|]. split; [|split].
  - intros storage evs w.
    destruct (settled_run evs _ (settled_initial storage))
      as [(H1 & H2 & _) | (H1 & (p & H2) & _)]; fold w in H1, H2; rewrite H1, H2; simpl.
    + split; [lia | easy].
    + split; [lia | easy].
  - intros storage evs i w H.
    pose proof (settled_step (FetchSettles i NetworkError) w
                  (settled_run evs _ (settled_initial storage))) as Hs.
    rewrite (step_fetch_failed w i H) in *.
    destruct Hs as [(H1 & H2 & _) | (H1 & _)]; [now split | discriminate H1].
  - intros storage evs i json w H.
    pose proof (settled_step (JsonSettles i) w
                  (settled_run evs _ (settled_initial storage))) as Hs.
    destruct (step_json_settled w i json H) as (msgs & con & _ & E).
    rewrite E in *.
    destruct Hs as [(H1 & H2 & _) | (H1 & _)]; [now split | discriminate H1].
Qed.

(** C6, amended: when the body of the response is an object without a
    [response] field and with a truthy [error] field, the indicator is
    removed, the one message appended is the fixed apology, the error goes to
    the console and the flag is down. *)
Theorem backend_error_apology (storage : gmap (list N) (list N)) (evs : list event)
    (i : nat) (fields : list (list N * value num)) (error : value num) :
  let w := run evs (initial (num := num) storage) in
  inflight w !! i = Some (AwaitJson (Some (VObj fields))) ->
  own fields (str "response") = None ->
  own fields (str "error") = Some error ->
  truthy error = true ->
  chatMessages (step (JsonSettles i) w)
  = remove_typing (chatMessages w)
    ++ [MessageNode false (Markdown.parseMarkdown apology_backend)]
  /\ count_typing (chatMessages (step (JsonSettles i) w)) = 0
  /\ console (step (JsonSettles i) w)
     = console w ++ [LogEntry Error (str "Backend error:") (Some error)]
  /\ isWaitingForResponse (step (JsonSettles i) w) = false.
Proof.
  intros w H Hr He Ht.
  assert (Hs : settled w) by apply settled_run, settled_initial.
  assert (Hcount : count_typing (chatMessages w) <= 1).
  { destruct Hs as [(_ & _ & H3) | (_ & _ & H3)]; rewrite H3; lia. }
  destruct (step_json_settled w i _ H) as (msgs & con & Hc & E).
  pose proof (reply_case_count _ _ _ _ _ Hc Hcount) as H0.
  rewrite E. unfold finish. cbn [chatMessages console isWaitingForResponse].
  assert (Gr : get (VObj fields) (str "response") = Some VUndefined)
    by (unfold get; now rewrite Hr).
  assert (Ge : get (VObj fields) (str "error") = Some error)
    by (unfold get; now rewrite He).
  destruct Hc as [J | d J G | d r h J G T R | d r J G T R
                  | d r e J G T G' T' | d r e J G T G' T'];
    try discriminate J; injection J as <-;
    rewrite Gr in G; try discriminate G; injection G as <-; try discriminate T;
    rewrite Ge in G'; injection G' as <-; [|congruence].
  now repeat split.
Qed.

End WithEngine.

(** *** Concrete runs, on the reference engine *)
Import Reference.

Definition demo_env : env (num := qnum) := Env (Fin (inject_Z 1700000000000)) (Fin (1 # 2)).

(** The user types a message and submits it. *)
Definition asking : list (event (num := qnum)) := [UserTypes (str "hi"); Submit demo_env].

(** ... and the backend answers with the given body. *)
Definition answered (body : value qnum) : list (event (num := qnum)) :=
  asking ++ [FetchSettles 0 (Response true (Some body))].

Lemma one_request_at_a_time_witness :
  sendNuruMessage demo_env (run asking (initial ∅)) = (Ok tt, run asking (initial ∅)).
Proof.
  apply (proj1 one_request_at_a_time). vm_compute. reflexivity.
Defined.

Lemma backend_error_apology_witness :
  chatMessages (step (JsonSettles 0)
                  (run (answered (VObj [(str "error", VStr (str "x"))])) (initial ∅)))
  = remove_typing (chatMessages (run (answered (VObj [(str "error", VStr (str "x"))]))
                                   (initial ∅)))
    ++ [MessageNode false (Markdown.parseMarkdown apology_backend)]
  /\ count_typing (chatMessages (step (JsonSettles 0)
                     (run (answered (VObj [(str "error", VStr (str "x"))])) (initial ∅)))) = 0
  /\ console (step (JsonSettles 0)
                (run (answered (VObj [(str "error", VStr (str "x"))])) (initial ∅)))
     = console (run (answered (VObj [(str "error", VStr (str "x"))])) (initial ∅))
       ++ [LogEntry Error (str "Backend error:") (Some (VStr (str "x")))]
  /\ isWaitingForResponse (step (JsonSettles 0)
        (run (answered (VObj [(str "error", VStr (str "x"))])) (initial ∅))) = false.
Proof.
  refine (backend_error_apology ∅ (answered (VObj [(str "error", VStr (str "x"))])) 0
            [(str "error", VStr (str "x"))] (VStr (str "x")) _ _ _ _).
  - vm_compute. reflexivity.
  - vm_compute. reflexivity.
  - vm_compute. reflexivity.
  - reflexivity.
Defined.

(** The claim as the specification words it: any [error] field, truthy or
    not, brings the apology. *)
Definition error_field_apologises : Prop :=
  forall (w : widget (num := qnum)) (i : nat) (fields : list (list N * value qnum))
         (error : value qnum),
    inflight w !! i = Some (AwaitJson (Some (VObj fields))) ->
    own fields (str "response") = None ->
    own fields (str "error") = Some error ->
    chatMessages (step (JsonSettles i) w)
    = remove_typing (chatMessages w)
      ++ [MessageNode false (Markdown.parseMarkdown apology_backend)].

(** With an empty error text nothing is appended. *)
Lemma error_field_apologises_fails : ~ error_field_apologises.
Proof.
  intros H.
  specialize (H (run (answered (VObj [(str "error", VStr [])])) (initial ∅)) 0
                [(str "error", VStr [])] (VStr [])).
  assert (H' := H ltac:(vm_compute; reflexivity) ltac:(vm_compute; reflexivity)
                  ltac:(vm_compute; reflexivity)).
  vm_compute in H'. discriminate H'.
Qed.

End ChatFacts.

(** ** A first line of dashes *)
Module DividerFacts.
Import JS Markdown Text ReplaceFacts RuleFacts RenderFacts.

Definition dashes (k : nat) : list N := repeat dash k.

(** The text is at its end or at a line terminator. *)
Definition line_end (r : list N) : Prop :=
  r = [] \/ exists c r', r = c :: r' /\ is_lt c = true.

Lemma is_lt_cases (c : N) :
  is_lt c = true -> c = 10%N \/ c = 13%N \/ c = 8232%N \/ c = 8233%N.
Proof.
  unfold is_lt. intros H.
  repeat (apply orb_true_iff in H as [H | H]); apply N.eqb_eq in H; auto.
Qed.

(** A rule that never matches at a dash of the first line, nor at a line
    terminator. *)
Definition dead (m : matcher) : Prop :=
  (forall prev k r, line_end r -> m prev (dash :: dashes k ++ r) = None)
  /\ (forall prev c s, is_lt c = true -> m prev (c :: s) = None).

Lemma skip_dashes (m : matcher) :
  dead m ->
  forall k fuel prev r, line_end r -> k <= fuel ->
    exists prev', replace_fuel m fuel prev (dashes k ++ r)
                  = dashes k ++ replace_fuel m (fuel - k) prev' r.
Proof.
  intros [Hd _]. induction k as [|k IH]; intros fuel prev r Hr Hk.
  - exists prev. simpl. now rewrite Nat.sub_0_r.
  - destruct fuel as [|fuel]; [lia|].
    change (dashes (S k) ++ r) with (dash :: dashes k ++ r).
    change (S fuel - S k) with (fuel - k).
    cbn [replace_fuel]. rewrite (Hd prev k r Hr).
    destruct (IH fuel (Some dash) r Hr ltac:(lia)) as (prev' & E).
    exists prev'. now rewrite E.
Qed.

Lemma keep_line_end (m : matcher) :
  dead m -> forall fuel prev r, line_end r -> line_end (replace_fuel m fuel prev r).
Proof.
  intros [_ Hl] fuel prev r [-> | (c & r' & -> & Hc)].
  - left. now destruct fuel.
  - destruct fuel as [|fuel]; simpl.
    + right. now exists c, r'.
    + rewrite (Hl prev c r' Hc). right. eexists _, _. split; [reflexivity | exact Hc].
Qed.

Lemma first_line_kept (m : matcher) (k : nat) (r : list N) :
  dead m -> line_end r ->
  exists r', replace m (dashes k ++ r) = dashes k ++ r' /\ line_end r'.
Proof.
  intros Hm Hr. unfold replace.
  destruct (skip_dashes m Hm k (List.length (dashes k ++ r)) None r Hr) as (prev' & E).
  { rewrite length_app. unfold dashes. rewrite repeat_length. lia. }
  rewrite E. eexists. split; [reflexivity|]. now apply keep_line_end.
Qed.

(** *** The rules before the divider are dead on such a line *)
Lemma line_end_not (r : list N) (x : N) :
  line_end r -> is_lt x = false -> forall q, r <> x :: q.
Proof.
  intros [-> | (c & r' & -> & Hc)] Hx q E; [discriminate|].
  injection E as -> _. congruence.
Qed.

Lemma line_rule_dead marker open close :
  (forall k r, line_end r -> marker (dash :: dashes k ++ r) = None) ->
  (forall c s, is_lt c = true -> marker (c :: s) = None) ->
  dead (line_rule marker open close).
Proof.
  intros H1 H2. split.
  - intros prev k r Hr. unfold line_rule. rewrite (H1 k r Hr). now destruct (at_bol prev).
  - intros prev c s Hc. unfold line_rule. rewrite (H2 c s Hc). now destruct (at_bol prev).
Qed.

Lemma literal_marker_dead (p0 : N) (p : list N) open close :
  p0 <> dash -> is_lt p0 = false ->
  dead (line_rule (literal_marker (p0 :: p)) open close).
Proof.
  intros Hd Hl. apply line_rule_dead.
  - intros k r _. unfold literal_marker. simpl. unfold ch_eqb.
    destruct (N.eqb_spec p0 dash); [congruence | reflexivity].
  - intros c s Hc. unfold literal_marker. simpl. unfold ch_eqb.
    destruct (N.eqb_spec p0 c) as [-> | _]; [congruence | reflexivity].
Qed.

Lemma m_bullet_dead : dead m_bullet.
Proof.
  apply line_rule_dead.
  - intros k r Hr. destruct k as [|k]; simpl.
    + destruct Hr as [-> | (c & r' & -> & Hc)]; [reflexivity|].
      simpl. apply is_lt_cases in Hc as [-> | [-> | [-> | ->]]]; reflexivity.
    + reflexivity.
  - intros c s Hc. unfold bullet_marker.
    destruct s as [|sp s]; [reflexivity|].
    apply is_lt_cases in Hc as [-> | [-> | [-> | ->]]]; reflexivity.
Qed.

Lemma m_numbered_dead : dead m_numbered.
Proof.
  apply line_rule_dead.
  - intros k r _. reflexivity.
  - intros c s Hc. unfold numbered_marker.
    apply is_lt_cases in Hc as [-> | [-> | [-> | ->]]]; reflexivity.
Qed.

Lemma m_bold_dead : dead m_bold.
Proof.
  split.
  - intros prev k r _. reflexivity.
  - intros prev c s Hc. unfold m_bold.
    apply is_lt_cases in Hc as [-> | [-> | [-> | ->]]]; reflexivity.
Qed.

Lemma m_italic_dead : dead m_italic.
Proof.
  split.
  - intros prev k r _. unfold m_italic. destruct (dashes k ++ r); reflexivity.
  - intros prev c s Hc. unfold m_italic. destruct s; [reflexivity|].
    apply is_lt_cases in Hc as [-> | [-> | [-> | ->]]]; reflexivity.
Qed.

Lemma m_ul_dead : dead m_ul.
Proof.
  split.
  - intros prev k r _. reflexivity.
  - intros prev c s Hc. unfold m_ul, li_item.
    apply is_lt_cases in Hc as [-> | [-> | [-> | ->]]]; reflexivity.
Qed.


(** *** The divider rule fires on it *)
Lemma take_line_dashes (k : nat) (r : list N) :
  line_end r -> take_line (dashes k ++ r) = (dashes k, r).
Proof.
  intros Hr. induction k as [|k IH].
  - destruct Hr as [-> | (c & r' & -> & Hc)]; simpl; [reflexivity | now rewrite Hc].
  - change (dashes (S k) ++ r) with (dash :: dashes k ++ r).
    cbn [take_line]. change (is_lt dash) with false. cbv iota. now rewrite IH.
Qed.

Lemma dashes_all (k : nat) : forallb (ch_eqb dash) (dashes k) = true.
Proof. induction k as [|k IH]; [reflexivity | exact IH]. Qed.

Lemma divider_fires (k : nat) (r : list N) :
  3 <= k -> line_end r -> starts hr_tag (replace m_hr (dashes k ++ r)).
Proof.
  intros Hk Hr. unfold replace.
  destruct k as [|k]; [lia|].
  assert (E : m_hr None (dashes (S k) ++ r) = Some (Hit (dashes (S k)) hr_tag r)).
  { unfold m_hr. cbn [at_bol]. rewrite (take_line_dashes (S k) r Hr).
    unfold dashes at 1. rewrite repeat_length, dashes_all.
    destruct (Nat.leb_spec 3 (S k)); [reflexivity | lia]. }
  change (dashes (S k) ++ r) with (dash :: dashes k ++ r) in *.
  cbn [List.length replace_fuel]. rewrite E. cbn [matched repl rest].
  change (dashes (S k)) with (dash :: dashes k). cbv iota.
  eexists. reflexivity.
Qed.

(** *** The passes after the divider keep it at the front *)
Definition is_newline (c : N) : bool := N.eqb c newline.

Lemma m_parbreak_keeps : keeps is_newline m_parbreak.
Proof.
  split; intros prev s h; [| | | |intros w]; intros H;
    apply m_parbreak_inv in H as (Es & EM & ER).
  - exact Es.
  - now rewrite EM.
  - intros c q E. rewrite Es, EM in E. now injection E as <- _.
  - left. rewrite EM. apply marked_ends. repeat constructor.
  - intros Pw Nw Hw. rewrite EM in Hw.
    apply (sub_marked is_newline w [newline; newline]) in Hw; [easy | | exact Pw | exact Nw].
    repeat constructor.
Qed.

Lemma hr_tag_no_newline : plain is_newline hr_tag.
Proof. repeat constructor. Qed.

Lemma starts_parbreak (s : list N) :
  starts hr_tag s -> starts hr_tag (replace m_parbreak s).
Proof.
  intros H. apply (replace_fuel_starts is_newline m_parbreak m_parbreak_keeps);
    [exact hr_tag_no_newline | exact H].
Qed.

Lemma starts_replace_char (c : N) (t w s : list N) :
  ~ In c w -> starts w s -> starts w (replace_char c t s).
Proof.
  intros Hc (b & ->). rewrite replace_char_app, (replace_char_id c t w Hc).
  now exists (replace_char c t b).
Qed.

(** *** Escaping keeps the line *)
Lemma not_in_dashes (c : N) (k : nat) : c <> dash -> ~ In c (dashes k).
Proof. intros Hc Hin. apply repeat_spec in Hin. congruence. Qed.

Lemma escape_dashes (k : nat) : escape (dashes k) = dashes k.
Proof.
  unfold escape.
  rewrite (replace_char_id 38 _ (dashes k)) by (apply not_in_dashes; discriminate).
  rewrite (replace_char_id 60 _ (dashes k)) by (apply not_in_dashes; discriminate).
  apply replace_char_id, not_in_dashes. discriminate.
Qed.

Lemma escape_line_end (r : list N) : line_end r -> line_end (escape r).
Proof.
  intros [-> | (c & r' & -> & Hc)]; [now left|]. right.
  change (c :: r') with ([c] ++ r'). rewrite escape_app.
  exists c, (escape r'). split; [|exact Hc].
  apply is_lt_cases in Hc as [-> | [-> | [-> | ->]]]; reflexivity.
Qed.

(** A text whose first line is three dashes or more renders to a fragment
    that starts with the divider. *)
Lemma body_divider (k : nat) (r : list N) :
  3 <= k -> line_end r -> starts hr_tag (body (dashes k ++ r)).
Proof.
  intros Hk Hr. unfold body, passes. cbn [fold_left].
  rewrite escape_app, escape_dashes.
  pose proof (escape_line_end r Hr) as H0.
  destruct (first_line_kept m_h4 k _ (literal_marker_dead 35 _ _ _ ltac:(discriminate) eq_refl) H0)
    as (r1 & -> & H1).
  destruct (first_line_kept m_h3 k _ (literal_marker_dead 35 _ _ _ ltac:(discriminate) eq_refl) H1)
    as (r2 & -> & H2).
  destruct (first_line_kept m_bold k _ m_bold_dead H2) as (r3 & -> & H3).
  destruct (first_line_kept m_italic k _ m_italic_dead H3) as (r4 & -> & H4).
  destruct (first_line_kept m_bullet k _ m_bullet_dead H4) as (r5 & -> & H5).
  destruct (first_line_kept m_ul k _ m_ul_dead H5) as (r6 & -> & H6).
  destruct (first_line_kept m_numbered k _ m_numbered_dead H6) as (r7 & -> & H7).
  apply starts_replace_char; [|apply starts_parbreak, divider_fires; assumption].
  vm_compute. intuition discriminate.
Qed.

Lemma starts_hr_block (html : list N) : starts hr_tag html -> is_block html = true.
Proof. intros (b & ->). reflexivity. Qed.

(** C2, amended: the fragment is wrapped in a paragraph exactly when it does
    not start with [<h], [<ul] or [<ol]; a fragment that starts with the
    divider starts with [<h], so it is not wrapped, and a text whose first
    line is three dashes or more renders to such a fragment. *)
Theorem paragraph_wrap (text : list N) :
  text <> [] ->
  (is_block (body text) = false -> parseMarkdown text = p_open ++ body text ++ p_close)
  /\ (is_block (body text) = true -> parseMarkdown text = body text)
  /\ (forall k r, 3 <= k -> line_end r -> text = dashes k ++ r ->
        parseMarkdown text = body text /\ starts hr_tag (parseMarkdown text)).
Proof.
  intros Ht. destruct text as [|c text]; [easy|].
  unfold parseMarkdown, wrap. split; [|split].
  - now intros ->.
  - now intros ->.
  - intros k r Hk Hr E.
    assert (H : starts hr_tag (body (c :: text))) by (rewrite E; now apply body_divider).
    rewrite (starts_hr_block _ H). now split.
Qed.

Lemma paragraph_wrap_witness :
  (is_block (body (str "plain text")) = false ->
   parseMarkdown (str "plain text") = p_open ++ body (str "plain text") ++ p_close)
  /\ (is_block (body (str "plain text")) = true ->
      parseMarkdown (str "plain text") = body (str "plain text"))
  /\ (forall k r, 3 <= k -> line_end r -> str "plain text" = dashes k ++ r ->
        parseMarkdown (str "plain text") = body (str "plain text")
        /\ starts hr_tag (parseMarkdown (str "plain text"))).
Proof.
  apply (paragraph_wrap (str "plain text")). discriminate.
Defined.

(** The claim as the specification words it: a fragment that begins with the
    divider is wrapped in a paragraph. *)
Definition divider_is_wrapped : Prop :=
  forall text, text <> [] -> starts hr_tag (body text) ->
    parseMarkdown text = p_open ++ body text ++ p_close.

Lemma divider_is_wrapped_fails : ~ divider_is_wrapped.
Proof.
  intros H. specialize (H (str "---") ltac:(discriminate)).
  assert (E : body (str "---") = hr_tag) by (vm_compute; reflexivity).
  rewrite E in H. specialize (H (sub_refl_starts hr_tag)).
  vm_compute in H. discriminate H.
Qed.

End DividerFacts.

(** ** The scan of a global replacement always completes *)
Module FuelFacts.
Import JS Markdown Text ReplaceFacts RuleFacts RenderFacts.

(** With a rule whose match is a prefix of the text, [length s] steps are
    enough: more fuel gives the same result. *)
Lemma replace_fuel_enough (m : matcher) :
  (forall prev s h, m prev s = Some h -> s = matched h ++ rest h) ->
  forall n s, List.length s <= n ->
  forall f1 f2 prev, List.length s <= f1 -> List.length s <= f2 ->
    replace_fuel m f1 prev s = replace_fuel m f2 prev s.
Proof.
  intros Hm. induction n as [|n IH]; intros s Hn f1 f2 prev H1 H2.
  - destruct s; [|simpl in Hn; lia]. now destruct f1, f2.
  - destruct s as [|c s]; [now destruct f1, f2|].
    destruct f1 as [|f1]; [simpl in H1; lia|].
    destruct f2 as [|f2]; [simpl in H2; lia|].
    simpl in *. destruct (m prev (c :: s)) as [h|] eqn:E.
    + pose proof (Hm _ _ _ E) as Es.
      destruct (matched h) as [|m0 ms] eqn:Em.
      * f_equal. f_equal. apply IH; lia.
      * f_equal.
        assert (L : List.length (rest h) <= List.length s).
        { apply (f_equal (@List.length N)) in Es. rewrite length_app in Es. simpl in Es. lia. }
        apply IH; lia.
    + f_equal. apply IH; lia.
Qed.

Lemma li_item_shorter (s m r : list N) :
  li_item s = Some (m, r) -> List.length r < List.length s.
Proof.
  intros H. apply li_item_spec in H as (-> & (t & ->) & _).
  rewrite length_app. simpl. lia.
Qed.

Lemma li_items_enough :
  forall n s, List.length s <= n ->
  forall f1 f2, List.length s <= f1 -> List.length s <= f2 ->
    li_items f1 s = li_items f2 s.
Proof.
  induction n as [|n IH]; intros s Hn f1 f2 H1 H2.
  - destruct s; [|simpl in Hn; lia].
    destruct f1, f2; reflexivity.
  - destruct f1 as [|f1], f2 as [|f2]; simpl.
    + reflexivity.
    + destruct s; [reflexivity | simpl in H1; lia].
    + destruct s; [reflexivity | simpl in H2; lia].
    + destruct (li_item s) as [[m r]|] eqn:E; [|reflexivity].
      pose proof (li_item_shorter _ _ _ E) as L.
      rewrite (IH r ltac:(lia) f1 f2 ltac:(lia) ltac:(lia)). reflexivity.
Qed.

(** Every rule of the pipeline matches a prefix of the text. *)
Lemma rules_split (m : matcher) :
  In m [m_h4; m_h3; m_bold; m_italic; m_bullet; m_ul; m_numbered; m_hr; m_parbreak] ->
  forall prev s h, m prev s = Some h -> s = matched h ++ rest h.
Proof.
  intros Hin prev s h H. simpl in Hin.
  destruct Hin as [<- | [<- | [<- | [<- | [<- | [<- | [<- | [<- | [<- | []]]]]]]]]].
  - eapply (keeps_split special _ (line_rule_keeps _ _ _
              (literal_marker_ok (str "### ") ltac:(discriminate) ltac:(repeat constructor)))), H.
  - eapply (keeps_split special _ (line_rule_keeps _ _ _
              (literal_marker_ok (str "## ") ltac:(discriminate) ltac:(repeat constructor)))), H.
  - now apply m_bold_inv in H as (cap & Es & _).
  - now apply m_italic_inv in H as (cap & Es & _).
  - eapply (keeps_split special _ (line_rule_keeps _ _ _ bullet_marker_ok)), H.
  - now apply m_ul_inv in H as (Es & _).
  - eapply (keeps_split special _ (line_rule_keeps _ _ _ numbered_marker_ok)), H.
  - now apply m_hr_inv in H as (Es & _).
  - now apply m_parbreak_inv in H as (Es & _).
Qed.

End FuelFacts.

(** ** Tags of the rendered fragment, and text without markup *)
Module ProseFacts.
Import JS Markdown Text ReplaceFacts RuleFacts RenderFacts.

(** *** Only the renderer's own tags *)

(** The code units that follow [x] in [t]. *)
Fixpoint followers (x : N) (t : list N) : list N :=
  match t with
  | a :: ((b :: _) as t') => if N.eqb a x then b :: followers x t' else followers x t'
  | _ => []
  end.

Lemma has_pair_followers (x y : N) (t : list N) :
  has_pair x y t = true -> In y (followers x t).
Proof.
  induction t as [|a t IH]; [discriminate|].
  destruct t as [|b t]; [discriminate|].
  cbn [has_pair followers]. intros H.
  apply orb_true_iff in H as [H | H].
  - apply andb_true_iff in H as [Ha Hb]. rewrite Ha. apply N.eqb_eq in Hb as ->. now left.
  - destruct (N.eqb a x); [right|]; now apply IH.
Qed.

(** The first code units of the tag names of the templates. *)
Definition tag_initials : list N :=
  Eval vm_compute in (nodup N.eq_dec (flat_map (followers 60) templates)).

Lemma templates_clean (y : N) :
  ~ In y tag_initials -> Forall (clean 60 y) templates.
Proof.
  intros Hy. apply List.Forall_forall. intros t Ht.
  apply has_pair_clean. destruct (has_pair 60 y t) eqn:E; [|reflexivity].
  exfalso. apply Hy. apply has_pair_followers in E.
  assert (Hin : In y (nodup N.eq_dec (flat_map (followers 60) templates))).
  { apply nodup_In, in_flat_map. now exists t. }
  exact Hin.
Qed.

(** In the rendered fragment a [<] is followed by the first code unit of one
    of the renderer's tag names ([h], [/], [s], [e], [l], [u], [b], [p]) or by
    another [<]: no other tag can appear, whatever the text. *)
Theorem only_own_tags (text : list N) (y : N) :
  sub [60%N; y] (parseMarkdown text) -> y = 60%N \/ In y tag_initials.
Proof.
  intros H. destruct (N.eq_dec y 60%N) as [-> | Hy]; [now left|]. right.
  destruct (in_dec N.eq_dec y tag_initials) as [Hin | Hout]; [exact Hin|].
  exfalso. revert H. apply parseMarkdown_clean; auto; try discriminate.
  - pose proof (templates_tagged 60 111 eq_refl) as T.
    pose proof (templates_clean y Hout) as C.
    rewrite List.Forall_forall in *. intros t Ht.
    destruct (T t Ht) as (To & Tc & _). repeat split; auto.
  - apply absent_clean_l. intros Hin. now apply escape_no_angle in Hin as [? _].
Qed.

Lemma only_own_tags_witness :
  sub [60%N; 104%N] (parseMarkdown (str "## <b>Title</b>"))
  /\ (104%N = 60%N \/ In 104%N tag_initials).
Proof.
  assert (H : sub [60%N; 104%N] (parseMarkdown (str "## <b>Title</b>"))).
  { exists [], (skipn 2 (parseMarkdown (str "## <b>Title</b>"))). vm_compute. reflexivity. }
  split; [exact H | exact (only_own_tags _ _ H)].
Defined.

(** *** Text without markup *)

(** The code units that can start a match of the rules before the line
    breaks: [#], [*], [-], the bullet, a digit, [<]. *)
Definition heads (c : N) : bool :=
  is_digit c || existsb (N.eqb c) [35; 42; 45; 60; 8226]%N.

Definition headed (m : matcher) : Prop :=
  forall prev c s h, m prev (c :: s) = Some h -> heads c = true.

Lemma replace_inert (m : matcher) (s : list N) :
  headed m -> Forall (fun c => heads c = false) s ->
  forall fuel prev, replace_fuel m fuel prev s = s.
Proof.
  intros Hm Hs. induction Hs as [|c s Hc Hs IH]; intros fuel prev.
  - now destruct fuel.
  - destruct fuel as [|fuel]; [reflexivity|]. simpl.
    destruct (m prev (c :: s)) as [h|] eqn:E.
    + apply Hm in E. congruence.
    + now rewrite IH.
Qed.

Lemma line_rule_headed marker open close :
  (forall c s mk after, marker (c :: s) = Some (mk, after) -> heads c = true) ->
  headed (line_rule marker open close).
Proof.
  intros Hmk prev c s h H. apply line_rule_inv in H as (mk & after & text & Em & _).
  eapply Hmk, Em.
Qed.

Lemma rules_headed :
  Forall headed [m_h4; m_h3; m_bold; m_italic; m_bullet; m_ul; m_numbered; m_hr].
Proof.
  repeat apply List.Forall_cons; try apply List.Forall_nil.
  - apply line_rule_headed. intros c s mk after H. unfold literal_marker in H.
    destruct (strip (str "### ") (c :: s)) eqn:E; [|discriminate].
    apply strip_spec in E. now injection E as ->.
  - apply line_rule_headed. intros c s mk after H. unfold literal_marker in H.
    destruct (strip (str "## ") (c :: s)) eqn:E; [|discriminate].
    apply strip_spec in E. now injection E as ->.
  - intros prev c s h H. apply m_bold_inv in H as (cap & Es & EM & _).
    rewrite EM in Es. now injection Es as ->.
  - intros prev c s h H. apply m_italic_inv in H as (cap & Es & EM & _).
    rewrite EM in Es. now injection Es as ->.
  - apply line_rule_headed. intros c s mk after H. unfold bullet_marker in H.
    destruct s as [|sp s]; [discriminate|].
    destruct ((ch_eqb c dash || ch_eqb c bullet) && ch_eqb sp 32) eqn:E; [|discriminate].
    apply andb_true_iff in E as [E _].
    apply orb_true_iff in E as [E | E]; apply N.eqb_eq in E as ->; reflexivity.
  - intros prev c s h H. apply m_ul_inv in H as (Es & (t & Et) & _).
    rewrite Et in Es. now injection Es as ->.
  - apply line_rule_headed. intros c s mk after H. unfold numbered_marker in H.
    cbn [take_digits] in H. destruct (is_digit c) eqn:Ec.
    + unfold heads. now rewrite Ec.
    + discriminate.
  - intros prev c s h H. apply m_hr_inv in H as (Es & _ & (l & El) & _).
    rewrite El in Es. now injection Es as ->.
Qed.

(** The markup characters of a text: [#], [*], [-], the bullet and digits. *)
Definition markup (c : N) : bool :=
  is_digit c || existsb (N.eqb c) [35; 42; 45; 8226]%N.

Lemma escape_headless (text : list N) :
  Forall (fun c => markup c = false) text ->
  Forall (fun c => heads c = false) (escape text).
Proof.
  intros Ht. apply List.Forall_forall. intros a Ha.
  pose proof (escape_no_angle _ _ Ha) as [N60 _].
  assert (Hm : markup a = false).
  { unfold escape in Ha.
    rewrite List.Forall_forall in Ht.
    apply replace_char_chars in Ha as [Ha | [_ Ha]];
      [simpl in Ha; intuition (subst; reflexivity)|].
    apply replace_char_chars in Ha as [Ha | [_ Ha]];
      [simpl in Ha; intuition (subst; reflexivity)|].
    apply replace_char_chars in Ha as [Ha | [_ Ha]];
      [simpl in Ha; intuition (subst; reflexivity)|].
    now apply Ht. }
  unfold heads, markup in *. apply orb_false_iff in Hm as [Hd Hm].
  rewrite Hd. simpl in *.
  repeat (apply orb_false_iff in Hm as [? Hm]).
  destruct (N.eqb_spec a 60); [congruence|].
  repeat (apply orb_false_iff; split; auto).
Qed.

Lemma body_prose (text : list N) :
  Forall (fun c => markup c = false) text ->
  body text = replace_char newline br_tag (replace m_parbreak (escape text)).
Proof.
  intros Ht. pose proof (escape_headless text Ht) as He.
  pose proof rules_headed as R.
  repeat match type of R with
         | Forall _ (_ :: _) => inversion R as [|? ? ? R']; subst; clear R; rename R' into R
         end.
  unfold body, passes. cbn [fold_left].
  assert (Id : forall m, headed m -> replace m (escape text) = escape text)
    by (intros m Hm; now apply replace_inert).
  now rewrite (Id m_h4), (Id m_h3), (Id m_bold), (Id m_italic), (Id m_bullet), (Id m_ul),
    (Id m_numbered), (Id m_hr).
Qed.


Lemma strip_angle (p s : list N) (c : N) : c <> 60%N -> strip (60%N :: p) (c :: s) = None.
Proof.
  intros Hc. cbn [strip]. unfold ch_eqb.
  destruct (N.eqb_spec 60 c); [congruence | reflexivity].
Qed.

Lemma parbreak_front (e : list N) :
  ~ In 60%N e ->
  replace m_parbreak e = []
  \/ starts p_break (replace m_parbreak e)
  \/ exists c h', replace m_parbreak e = c :: h' /\ c <> 60%N.
Proof.
  intros He. unfold replace. destruct e as [|c e]; [now left|]. right.
  cbn [List.length replace_fuel].
  destruct (m_parbreak None (c :: e)) as [h|] eqn:E.
  - left. apply m_parbreak_inv in E as (_ & -> & ->). eexists. reflexivity.
  - right. eexists _, _. split; [reflexivity|]. intros ->. apply He. now left.
Qed.

Lemma breaks_not_block (e : list N) :
  ~ In 60%N e ->
  is_block (replace_char newline br_tag (replace m_parbreak e)) = false.
Proof.
  intros He. destruct (parbreak_front e He) as [-> | [(b & ->) | (c & h' & -> & Hc)]].
  - reflexivity.
  - rewrite replace_char_app.
    rewrite (replace_char_id newline br_tag p_break) by (vm_compute; intuition discriminate).
    reflexivity.
  - change (replace_char newline br_tag (c :: h'))
      with ((if ch_eqb c newline then br_tag else [c]) ++ replace_char newline br_tag h').
    destruct (ch_eqb c newline); [reflexivity|].
    unfold is_block, startsWith. cbn [app].
    change (str "<h") with (60%N :: str "h").
    change (str "<ul") with (60%N :: str "ul").
    change (str "<ol") with (60%N :: str "ol").
    now rewrite !strip_angle.
Qed.

Lemma parbreak_id (s : list N) : ~ In newline s -> replace m_parbreak s = s.
Proof.
  intros Hs. unfold replace. generalize (List.length s) at 1. generalize (@None N).
  induction s as [|c s IH]; intros prev fuel; [now destruct fuel|].
  destruct fuel as [|fuel]; [reflexivity|]. cbn [replace_fuel].
  destruct (m_parbreak prev (c :: s)) as [h|] eqn:E.
  - exfalso. apply m_parbreak_inv in E as (Es & EM & _). rewrite EM in Es.
    injection Es as -> _. apply Hs. now left.
  - f_equal. apply IH. intros Hin. apply Hs. now right.
Qed.

(** A text without markup characters ([#], [*], [-], the bullet, digits) is
    rendered as one paragraph holding the text with its entities escaped,
    double line feeds turned into paragraph breaks and the other line feeds
    into line breaks; without line feeds and [&], [<], [>] the paragraph
    holds the text itself. *)
Theorem prose_paragraph (text : list N) :
  text <> [] ->
  Forall (fun c => markup c = false) text ->
  parseMarkdown text
  = p_open ++ replace_char newline br_tag (replace m_parbreak (escape text)) ++ p_close
  /\ (Forall (fun c => existsb (N.eqb c) [10; 38; 60; 62]%N = false) text ->
      parseMarkdown text = p_open ++ text ++ p_close).
Proof.
  intros Ht Hm.
  assert (E : parseMarkdown text
              = p_open ++ replace_char newline br_tag (replace m_parbreak (escape text))
                ++ p_close).
  { destruct text as [|c text]; [easy|]. unfold parseMarkdown, wrap.
    rewrite (body_prose _ Hm), breaks_not_block; [reflexivity|].
    intros Hin. now apply escape_no_angle in Hin as [? _]. }
  split; [exact E|]. intros Hp. rewrite E.
  assert (Hout : forall x, In x [10; 38; 60; 62]%N -> ~ In x text).
  { intros x Hx Hin. rewrite List.Forall_forall in Hp. specialize (Hp x Hin).
    rewrite <- not_true_iff_false in Hp. apply Hp. apply existsb_exists.
    exists x. split; [exact Hx | apply N.eqb_refl]. }
  assert (Ee : escape text = text).
  { unfold escape.
    rewrite (replace_char_id 38 _ text) by (apply Hout; simpl; auto).
    rewrite (replace_char_id 60 _ text) by (apply Hout; simpl; auto).
    apply replace_char_id, Hout. simpl; auto. }
  rewrite Ee.
  rewrite (parbreak_id text) by (apply Hout; simpl; auto).
  rewrite (replace_char_id newline _ text) by (apply Hout; simpl; auto).
  reflexivity.
Qed.

Lemma prose_paragraph_witness :
  parseMarkdown (str "Hello, world")
  = p_open ++ replace_char newline br_tag (replace m_parbreak (escape (str "Hello, world")))
    ++ p_close
  /\ (Forall (fun c => existsb (N.eqb c) [10; 38; 60; 62]%N = false) (str "Hello, world") ->
      parseMarkdown (str "Hello, world") = p_open ++ str "Hello, world" ++ p_close).
Proof.
  apply (prose_paragraph (str "Hello, world")).
  - discriminate.
  - repeat constructor.
Defined.

End ProseFacts.

(** ** The resolution as a search, and the locator *)
Module SearchFacts.
Import JS Values Widget ResolverFacts.

Section WithEngine.
Context {num : Type} {NumOps : Number num}.
Variable params_get : list N -> list N -> option (list N).

(** The body found at the first endpoint that has one. *)
Fixpoint first_found (net : list N -> fetch_result (num := num)) (id : list N)
    (bases : list (list N)) : option (value num) :=
  match bases with
  | [] => None
  | b :: bs =>
      match found (net (session_url b id)) with
      | Some body => Some body
      | None => first_found net id bs
      end
  end.

(** The endpoints up to that one. *)
Fixpoint probed (net : list N -> fetch_result (num := num)) (id : list N)
    (bases : list (list N)) : list (list N) :=
  match bases with
  | [] => []
  | b :: bs =>
      match found (net (session_url b id)) with
      | Some _ => [b]
      | None => b :: probed net id bs
      end
  end.

(** The fields that a probe leaves alone. *)
Definition same_page (w w' : widget (num := num)) : Prop :=
  sessionId w' = sessionId w
  /\ isWaitingForResponse w' = isWaitingForResponse w
  /\ auditContext w' = auditContext w
  /\ localStorage w' = localStorage w
  /\ storage_log w' = storage_log w
  /\ input_value w' = input_value w
  /\ chatMessages w' = chatMessages w
  /\ inflight w' = inflight w.

Lemma same_page_refl (w : widget (num := num)) : same_page w w.
Proof. now repeat split. Qed.

Lemma same_page_trans (a b c : widget (num := num)) :
  same_page a b -> same_page b c -> same_page a c.
Proof.
  unfold same_page. intros H1 H2. decompose [and] H1. decompose [and] H2.
  repeat split; congruence.
Qed.

Lemma probe_run net base id loaded miss (w : widget (num := num)) :
  exists w', probe net base id loaded miss w = (Ok (found (net (session_url base id))), w')
             /\ requests w' = requests w ++ [Get (session_url base id)]
             /\ same_page w w'.
Proof.
  unfold probe, try_catch, fetch_get, bind, issue, modify, lift, console_write.
  simpl. destruct (net (session_url base id)) as [|[|] [b|]];
    simpl; eexists; (split; [reflexivity|]); simpl; split; try reflexivity;
    now repeat split.
Qed.

Lemma search_run (hash : list N) (net : list N -> fetch_result (num := num))
    (w : widget (num := num)) (id : list N) :
  params_get (hashParams hash) (str "session") = Some id -> id <> [] ->
  exists w',
    loadAuditContext params_get hash net w
    = (Ok (match first_found net id endpoints with Some body => body | None => VNull end), w')
    /\ requests w' = requests w ++ probes id (probed net id endpoints)
    /\ same_page w w'.
Proof.
  intros Hp Hid. unfold loadAuditContext. rewrite Hp.
  destruct id as [|i0 id]; [easy|]. clear Hid Hp. set (sid := i0 :: id).
  unfold endpoints, first_found, probed, probes.
  destruct (probe_run net TOOL5_API sid
              (str "Loaded ROI context from Tool #5:")
              (LogEntry Log (str "Not Tool #5 session") None) w) as (w1 & E1 & R1 & F1).
  rewrite (bind_ok _ _ _ _ _ E1).
  destruct (found (net (session_url TOOL5_API sid))) as [b5|].
  { exists w1. split; [reflexivity | split; [exact R1 | exact F1]]. }
  destruct (probe_run net TOOL4_API sid
              (str "Loaded readiness context from Tool #4:")
              (LogEntry Log (str "Not Tool #4 session") None) w1) as (w2 & E2 & R2 & F2).
  rewrite (bind_ok _ _ _ _ _ E2).
  destruct (found (net (session_url TOOL4_API sid))) as [b4|].
  { exists w2. split; [reflexivity|]. split; [|eapply same_page_trans; eauto].
    rewrite R2, R1. now rewrite <- List.app_assoc. }
  destruct (probe_run net TOOL3_API sid
              (str "Loaded audit context from Tool #3:")
              (LogEntry Error (str "Session not found in any tool") None) w2)
    as (w3 & E3 & R3 & F3).
  rewrite (bind_ok _ _ _ _ _ E3).
  assert (F : same_page w w3) by (eapply same_page_trans; [|exact F3]; eapply same_page_trans; eauto).
  destruct (found (net (session_url TOOL3_API sid))) as [b3|];
    (exists w3; split; [reflexivity|]; split; [|exact F];
     rewrite R3, R2, R1; now rewrite <- !List.app_assoc).
Qed.

(** [loadAuditContext] is the search for the first endpoint, in the order
    Tool #5, Tool #4, Tool #3, that answers a success status with a body that
    parses: it returns that body, or [null] when there is none, issues the
    GET requests of the endpoints up to that one and no other, and leaves the
    rest of the page state alone. *)
Theorem loadAuditContext_search (hash : list N) (net : list N -> fetch_result (num := num))
    (w : widget (num := num)) (id : list N) :
  params_get (hashParams hash) (str "session") = Some id -> id <> [] ->
  exists w',
    loadAuditContext params_get hash net w
    = (Ok (match first_found net id endpoints with Some body => body | None => VNull end), w')
    /\ requests w' = requests w ++ probes id (probed net id endpoints)
    /\ same_page w w'.
Proof. exact (search_run hash net w id). Qed.

(** At most three requests, each to [/api/session/{id}] of a tool. *)
Lemma probed_bound net id (bases : list (list N)) :
  List.length (probed net id bases) <= List.length bases.
Proof.
  induction bases as [|b bs IH]; simpl; [lia|].
  destruct (found (net (session_url b id))); simpl; lia.
Qed.

(** *** The locator: [window.location.hash.split('?')[1] || ''] *)
Lemma split_q_plain (s : list N) : ~ In 63%N s -> split_q s = [s].
Proof.
  induction s as [|c s IH]; intros H; [reflexivity|].
  cbn [split_q]. unfold ch_eqb. destruct (N.eqb_spec c 63) as [-> | _].
  - exfalso. apply H. now left.
  - rewrite IH; [reflexivity|]. intros Hin. apply H. now right.
Qed.

Lemma split_q_app (a b : list N) :
  ~ In 63%N a -> split_q (a ++ 63%N :: b) = a :: split_q b.
Proof.
  induction a as [|c a IH]; intros H; [reflexivity|].
  cbn [split_q app]. unfold ch_eqb. destruct (N.eqb_spec c 63) as [-> | _].
  - exfalso. apply H. now left.
  - rewrite IH; [reflexivity|]. intros Hin. apply H. now right.
Qed.

(** The parameters are what stands between the first question mark of the
    fragment and the second one, when there is one; a fragment without a
    question mark has none. *)
Theorem hashParams_between (route params : list N) :
  ~ In 63%N route -> ~ In 63%N params ->
  hashParams route = []
  /\ hashParams (route ++ [63%N] ++ params) = params
  /\ forall more, hashParams (route ++ [63%N] ++ params ++ [63%N] ++ more) = params.
Proof.
  intros Hr Hp. unfold hashParams. split; [|split].
  - now rewrite split_q_plain.
  - cbn [app]. now rewrite split_q_app, split_q_plain.
  - intros more. cbn [app]. rewrite split_q_app by exact Hr.
    rewrite split_q_app by exact Hp. reflexivity.
Qed.

End WithEngine.

Import Reference.

Lemma loadAuditContext_search_witness :
  exists w',
    loadAuditContext Reference.params_get demo_hash net_unparsable (initial ∅)
    = (Ok (match first_found net_unparsable demo_id endpoints with
           | Some body => body
           | None => VNull
           end), w')
    /\ requests w' = requests (initial ∅) ++ probes demo_id (probed net_unparsable demo_id endpoints)
    /\ same_page (initial ∅) w'.
Proof.
  apply (loadAuditContext_search Reference.params_get demo_hash net_unparsable (initial ∅) demo_id).
  - vm_compute. reflexivity.
  - discriminate.
Defined.

Lemma hashParams_between_witness :
  hashParams (str "#/chat") = []
  /\ hashParams (str "#/chat" ++ [63%N] ++ str "session=abc") = str "session=abc"
  /\ forall more,
       hashParams (str "#/chat" ++ [63%N] ++ str "session=abc" ++ [63%N] ++ more)
       = str "session=abc".
Proof.
  apply (hashParams_between (str "#/chat") (str "session=abc")).
  - vm_compute. intuition discriminate.
  - vm_compute. intuition discriminate.
Defined.

Lemma empty_session_no_probe_witness :
  loadAuditContext Reference.params_get (str "#/chat?session=") net_readiness (initial ∅)
  = (Ok VNull, initial ∅).
Proof.
  apply empty_session_no_probe. vm_compute. reflexivity.
Defined.

End SearchFacts.

(** ** The identifier and the storage *)
Module StorageFacts.
Import JS Values Widget Text SessionFacts.

Section WithEngine.
Context {num : Type} {NumOps : Number num}.

(** With no identifier in memory, [getSessionId] reads the storage once.  A
    stored non-empty identifier is answered and nothing is written.  A missing
    or empty entry is replaced: the identifier made from the clock and the
    random draw, which starts with [session_], is written under
    [nuru_session_id], and reading the storage back gives it. *)
Theorem getSessionId_storage (e : env) (w : widget (num := num)) :
  no_id (sessionId w) = true ->
  let stored := localStorage w !! storage_key in
  let w' := snd (getSessionId e w) in
  (no_id stored = false ->
     fst (getSessionId e w) = Ok stored
     /\ sessionId w' = stored
     /\ localStorage w' = localStorage w
     /\ storage_log w' = storage_log w ++ [GetItem storage_key])
  /\ (no_id stored = true ->
     fst (getSessionId e w) = Ok (Some (fresh_id e))
     /\ sessionId w' = Some (fresh_id e)
     /\ localStorage w' = <[storage_key := fresh_id e]> (localStorage w)
     /\ localStorage w' !! storage_key = Some (fresh_id e)
     /\ storage_log w' = storage_log w
                         ++ [GetItem storage_key; SetItem storage_key (fresh_id e)]
     /\ starts (str "session_") (fresh_id e)).
Proof.
  intros Hs stored w'. subst stored w'.
  unfold getSessionId, bind, read. rewrite Hs. simpl.
  split; intros H; rewrite H; simpl.
  - now repeat split.
  - repeat split.
    + apply lookup_insert_eq.
    + now rewrite <- List.app_assoc.
    + eexists. reflexivity.
Qed.

End WithEngine.

Import Reference.

Lemma getSessionId_storage_witness :
  let e := Env (Fin (inject_Z 1700000000000)) (Fin (1 # 2)) in
  let w := initial (num := qnum) (<[storage_key := str "session_1_abc"]> ∅) in
  let stored := localStorage w !! storage_key in
  let w' := snd (getSessionId e w) in
  (no_id stored = false ->
     fst (getSessionId e w) = Ok stored
     /\ sessionId w' = stored
     /\ localStorage w' = localStorage w
     /\ storage_log w' = storage_log w ++ [GetItem storage_key])
  /\ (no_id stored = true ->
     fst (getSessionId e w) = Ok (Some (fresh_id e))
     /\ sessionId w' = Some (fresh_id e)
     /\ localStorage w' = <[storage_key := fresh_id e]> (localStorage w)
     /\ localStorage w' !! storage_key = Some (fresh_id e)
     /\ storage_log w' = storage_log w
                         ++ [GetItem storage_key; SetItem storage_key (fresh_id e)]
     /\ starts (str "session_") (fresh_id e)).
Proof.
  exact (getSessionId_storage (Env (Fin (inject_Z 1700000000000)) (Fin (1 # 2)))
           (initial (<[storage_key := str "session_1_abc"]> ∅)) eq_refl).
Defined.

End StorageFacts.

(** ** Trimming and the echo of a user message *)
Module InputFacts.
Import JS Values Widget Text RenderFacts.

Lemma trim_start_split (s : list N) :
  exists a, s = a ++ trim_start s /\ forallb is_ws a = true
            /\ forall c t, trim_start s = c :: t -> is_ws c = false.
Proof.
  induction s as [|c s (a & Es & Ha & Hh)].
  - exists []. now repeat split.
  - cbn [trim_start]. destruct (is_ws c) eqn:Ec.
    + exists (c :: a). repeat split.
      * simpl. now rewrite <- Es.
      * simpl. now rewrite Ec, Ha.
      * exact Hh.
    + exists []. repeat split. intros c' t E. now injection E as <- _.
Qed.

Lemma forallb_rev (f : N -> bool) (l : list N) : forallb f (rev l) = forallb f l.
Proof.
  induction l as [|x l IH]; [reflexivity|]. simpl.
  rewrite forallb_app, IH. simpl. rewrite andb_true_r. apply andb_comm.
Qed.

Lemma trim_split (s : list N) :
  exists a b,
    s = a ++ trim s ++ b
    /\ forallb is_ws a = true /\ forallb is_ws b = true
    /\ (forall c t, trim s = c :: t -> is_ws c = false)
    /\ (forall t c, trim s = t ++ [c] -> is_ws c = false).
Proof.
  unfold trim.
  destruct (trim_start_split s) as (a & Es & Ha & Hh).
  destruct (trim_start_split (rev (trim_start s))) as (b & Er & Hb & Hl).
  set (t1 := trim_start s) in *. set (t2 := trim_start (rev t1)) in *.
  assert (E1 : t1 = rev t2 ++ rev b).
  { rewrite <- rev_app_distr, <- Er. now rewrite rev_involutive. }
  exists a, (rev b). repeat split.
  - now rewrite <- E1.
  - exact Ha.
  - now rewrite forallb_rev.
  - intros c t E. apply (Hh c (t ++ rev b)). now rewrite E1, E.
  - intros t c E. apply (Hl c (rev t)).
    rewrite <- (rev_involutive t2), E, rev_app_distr. reflexivity.
Qed.

Lemma trim_blank (s : list N) : trim s = [] <-> forallb is_ws s = true.
Proof.
  destruct (trim_split s) as (a & b & Es & Ha & Hb & _). split.
  - intros E. rewrite E in Es. rewrite Es. simpl. now rewrite forallb_app, Ha, Hb.
  - intros H. destruct (trim s) as [|c t] eqn:E; [reflexivity|].
    destruct (trim_split s) as (a' & b' & Es' & _ & _ & Hh & _).
    rewrite E in Es'. specialize (Hh c t E).
    rewrite Es', !forallb_app in H. simpl in H. rewrite Hh in H.
    rewrite andb_false_r in H. discriminate.
Qed.

(** [trim] removes a run of white space at each end and nothing else: what
    is left neither starts nor ends with white space. *)
Theorem trim_spec (s : list N) :
  exists a b,
    s = a ++ trim s ++ b
    /\ forallb is_ws a = true /\ forallb is_ws b = true
    /\ (forall c t, trim s = c :: t -> is_ws c = false)
    /\ (forall t c, trim s = t ++ [c] -> is_ws c = false).
Proof. exact (trim_split s). Qed.

Section WithEngine.
Context {num : Type} {NumOps : Number num}.

(** A submission of an input made of white space only (or empty) changes
    nothing: no message, no request, the flag and the input stay as they
    were. *)
Theorem blank_submission (e : env) (w : widget (num := num)) :
  forallb is_ws (input_value w) = true -> sendNuruMessage e w = (Ok tt, w).
Proof.
  intros H. apply trim_blank in H. unfold sendNuruMessage, bind, read.
  destruct (isWaitingForResponse w); [reflexivity|]. now rewrite H.
Qed.

End WithEngine.

(** *** The echo of the user's text *)

(** In the HTML of a user message every [<] is the first code unit of a
    [<br>]: wherever the HTML is cut before a [<], what follows starts with
    the whole tag.  The text typed cannot bring a tag of its own. *)
Theorem user_echo_tags (content a b : list N) :
  escape_user content = a ++ 60%N :: b -> exists b', 60%N :: b = str "<br>" ++ b'.
Proof.
  unfold escape_user.
  assert (He : ~ In 60%N (Markdown.escape content))
    by (intros Hin; now apply escape_no_angle in Hin as [? _]).
  revert He a. generalize (Markdown.escape content) as s.
  induction s as [|c s IH]; intros He a H.
  - now destruct a.
  - change (replace_char Markdown.newline Markdown.br_tag (c :: s))
      with ((if ch_eqb c Markdown.newline then Markdown.br_tag else [c])
            ++ replace_char Markdown.newline Markdown.br_tag s) in H.
    assert (Hs : ~ In 60%N s) by (intros Hin; apply He; now right).
    destruct (ch_eqb c Markdown.newline).
    + cbn [app Markdown.br_tag] in H.
      destruct a as [|a0 [|a1 [|a2 [|a3 a]]]]; cbn [app] in H.
      * injection H as <-. eexists. reflexivity.
      * injection H as _ H _. discriminate.
      * injection H as _ _ H _. discriminate.
      * injection H as _ _ _ H _. discriminate.
      * injection H as _ _ _ _ H. now apply (IH Hs a).
    + destruct a as [|a0 a]; cbn [app] in H.
      * injection H as -> _. exfalso. apply He. now left.
      * injection H as _ H. now apply (IH Hs a).
Qed.

Lemma user_echo_tags_witness :
  exists b', 60%N :: str "br>&lt;b&gt;" = str "<br>" ++ b'.
Proof.
  apply (user_echo_tags (str "a" ++ [10%N] ++ str "<b>") (str "a") (str "br>&lt;b&gt;")).
  vm_compute. reflexivity.
Defined.

End InputFacts.

(** ** How a request ends *)
Module OutcomeFacts.
Import JS Values Widget ChatFacts.

#[local] Arguments Markdown.parseMarkdown : simpl never.

Section WithEngine.
Context {num : Type} {NumOps : Number num}.

(** Under the chat events alone the typing indicator is shown exactly while a
    call is suspended (the startup handler, which can empty the container
    meanwhile, is taken in [PageFacts]). *)
Lemma indicator_tracks_request (storage : gmap (list N) (list N)) (evs : list event) :
  count_typing (chatMessages (run evs (initial (num := num) storage)))
  = List.length (inflight (run evs (initial (num := num) storage))).
Proof.
  destruct (settled_run evs _ (settled_initial storage))
    as [(_ & H2 & H3) | (_ & (p & H2) & H3)]; now rewrite H2, H3.
Qed.

Lemma remove_typing_none (l : list (node)) :
  count_typing l = 0 -> remove_typing l = l.
Proof.
  induction l as [|[u h|] l IH]; simpl; intros H; [reflexivity | | discriminate].
  now rewrite IH.
Qed.

Lemma remove_typing_twice (l : list (node)) :
  count_typing l <= 1 -> remove_typing (remove_typing l) = remove_typing l.
Proof.
  intros H. apply remove_typing_none. rewrite count_typing_remove. lia.
Qed.

Lemma reachable_count (storage : gmap (list N) (list N)) (evs : list event) :
  count_typing (chatMessages (run evs (initial (num := num) storage))) <= 1.
Proof.
  destruct (settled_run evs _ (settled_initial storage))
    as [(_ & _ & H3) | (_ & _ & H3)]; rewrite H3; lia.
Qed.

(** A reply that is a non-empty string is rendered by [parseMarkdown] and
    appended in place of the indicator; nothing goes to the console. *)
Theorem reply_rendered (storage : gmap (list N) (list N)) (evs : list event) (i : nat)
    (data : value num) (text : list N) :
  let w := run evs (initial (num := num) storage) in
  inflight w !! i = Some (AwaitJson (Some data)) ->
  get data (str "response") = Some (VStr text) -> text <> [] ->
  chatMessages (step (JsonSettles i) w)
  = remove_typing (chatMessages w) ++ [MessageNode false (Markdown.parseMarkdown text)]
  /\ console (step (JsonSettles i) w) = console w
  /\ isWaitingForResponse (step (JsonSettles i) w) = false.
Proof.
  intros w H Hr Ht.
  destruct (step_json_settled w i _ H) as (msgs & con & Hc & E).
  rewrite E. unfold finish. cbn [chatMessages console isWaitingForResponse].
  assert (Tt : truthy (num := num) (VStr text) = true) by now destruct text.
  assert (Rt : render_ai (num := num) (VStr text) = Some (Markdown.parseMarkdown text))
    by (unfold render_ai; now rewrite Tt).
  destruct Hc as [J | d J G | d r h J G T R | d r J G T R
                  | d r e J G T G' T' | d r e J G T G' T'];
    try discriminate J; injection J as <-; rewrite Hr in G; try discriminate G;
    injection G as <-; try congruence.
  rewrite Rt in R. injection R as <-. now repeat split.
Qed.

(** A body that does not parse, a [null] body, and a reply that is truthy
    but not a string (a number, [true], an array, an object) all end in the
    fixed connection apology, with a note on the console. *)
Theorem odd_reply_apology (storage : gmap (list N) (list N)) (evs : list event) (i : nat)
    (json : option (value num)) :
  let w := run evs (initial (num := num) storage) in
  inflight w !! i = Some (AwaitJson json) ->
  (json = None \/ json = Some VNull
   \/ exists data r, json = Some data /\ get data (str "response") = Some r
                     /\ truthy r = true /\ forall s, r <> VStr s) ->
  chatMessages (step (JsonSettles i) w)
  = remove_typing (chatMessages w)
    ++ [MessageNode false (Markdown.parseMarkdown apology_connection)]
  /\ console (step (JsonSettles i) w)
     = console w ++ [LogEntry Error (str "Connection error:") None]
  /\ isWaitingForResponse (step (JsonSettles i) w) = false.
Proof.
  intros w H Hcase.
  pose proof (reachable_count storage evs) as Hn. fold w in Hn.
  destruct (step_json_settled w i _ H) as (msgs & con & Hc & E).
  rewrite E. unfold finish. cbn [chatMessages console isWaitingForResponse].
  clear E H.
  assert (Hfail : msgs = remove_typing (chatMessages w)
                         ++ [ai (Markdown.parseMarkdown apology_connection)]
                  /\ con = console w ++ [connection_entry]).
  { destruct Hc as [J | d J G | d r h J G T R | d r J G T R
                    | d r e J G T G' T' | d r e J G T G' T'].
    - split; reflexivity.
    - rewrite remove_typing_twice by exact Hn. split; reflexivity.
    - exfalso. destruct Hcase as [-> | [-> | (data & r0 & -> & Hr & Tr & Ns)]].
      + discriminate J.
      + injection J as <-. discriminate G.
      + injection J as <-. rewrite Hr in G. injection G as <-.
        unfold render_ai in R. rewrite Tr in R.
        destruct r0 as [| | | |s0| |]; try discriminate R. now apply (Ns s0).
    - rewrite remove_typing_twice by exact Hn. split; reflexivity.
    - exfalso. destruct Hcase as [-> | [-> | (data & r0 & -> & Hr & Tr & Ns)]].
      + discriminate J.
      + injection J as <-. discriminate G.
      + injection J as <-. rewrite Hr in G. injection G as <-. congruence.
    - exfalso. destruct Hcase as [-> | [-> | (data & r0 & -> & Hr & Tr & Ns)]].
      + discriminate J.
      + injection J as <-. discriminate G.
      + injection J as <-. rewrite Hr in G. injection G as <-. congruence. }
  destruct Hfail as [-> ->]. split; [reflexivity | split; reflexivity].
Qed.

(** A body with a falsy reply and a falsy or missing error (the empty
    object, for one) removes the indicator and shows nothing at all. *)
Theorem empty_answer_silent (storage : gmap (list N) (list N)) (evs : list event) (i : nat)
    (data r e : value num) :
  let w := run evs (initial (num := num) storage) in
  inflight w !! i = Some (AwaitJson (Some data)) ->
  get data (str "response") = Some r -> truthy r = false ->
  get data (str "error") = Some e -> truthy e = false ->
  chatMessages (step (JsonSettles i) w) = remove_typing (chatMessages w)
  /\ console (step (JsonSettles i) w) = console w
  /\ isWaitingForResponse (step (JsonSettles i) w) = false.
Proof.
  intros w H Hr Tr He Te.
  destruct (step_json_settled w i _ H) as (msgs & con & Hc & E).
  rewrite E. unfold finish. cbn [chatMessages console isWaitingForResponse].
  destruct Hc as [J | d J G | d r' h J G T R | d r' J G T R
                  | d r' e' J G T G' T' | d r' e' J G T G' T'];
    try discriminate J; injection J as <-; rewrite Hr in G; try discriminate G;
    injection G as <-; try congruence.
  split; [reflexivity | split; reflexivity].
Qed.

End WithEngine.

Import Reference.

Lemma reply_rendered_witness :
  let w := run (answered (VObj [(str "response", VStr (str "**ok**"))])) (initial ∅) in
  chatMessages (step (JsonSettles 0) w)
  = remove_typing (chatMessages w)
    ++ [MessageNode false (Markdown.parseMarkdown (str "**ok**"))]
  /\ console (step (JsonSettles 0) w) = console w
  /\ isWaitingForResponse (step (JsonSettles 0) w) = false.
Proof.
  refine (reply_rendered ∅ (answered (VObj [(str "response", VStr (str "**ok**"))])) 0
            (VObj [(str "response", VStr (str "**ok**"))]) (str "**ok**") _ _ _).
  - vm_compute. reflexivity.
  - vm_compute. reflexivity.
  - discriminate.
Defined.

Lemma odd_reply_apology_witness :
  let w := run (answered (VObj [(str "response", int 42)])) (initial ∅) in
  chatMessages (step (JsonSettles 0) w)
  = remove_typing (chatMessages w)
    ++ [MessageNode false (Markdown.parseMarkdown apology_connection)]
  /\ console (step (JsonSettles 0) w)
     = console w ++ [LogEntry Error (str "Connection error:") None]
  /\ isWaitingForResponse (step (JsonSettles 0) w) = false.
Proof.
  refine (odd_reply_apology ∅ (answered (VObj [(str "response", int 42)])) 0
            (Some (VObj [(str "response", int 42)])) _ _).
  - vm_compute. reflexivity.
  - right. right. exists (VObj [(str "response", int 42)]), (int 42).
    repeat split; try (vm_compute; reflexivity). discriminate.
Defined.

Lemma empty_answer_silent_witness :
  let w := run (answered (VObj [])) (initial ∅) in
  chatMessages (step (JsonSettles 0) w) = remove_typing (chatMessages w)
  /\ console (step (JsonSettles 0) w) = console w
  /\ isWaitingForResponse (step (JsonSettles 0) w) = false.
Proof.
  refine (empty_answer_silent ∅ (answered (VObj [])) 0 (VObj []) VUndefined VUndefined
            _ _ _ _ _); vm_compute; reflexivity.
Defined.

End OutcomeFacts.

(** ** The message log and the requests over a page view *)
Module LogFacts.
Import JS Values Widget ChatFacts.

#[local] Arguments Markdown.parseMarkdown : simpl never.

Section WithEngine.
Context {num : Type} {NumOps : Number num}.

(** The messages of the log, without the indicator. *)
Fixpoint messages (l : list node) : list node :=
  match l with
  | [] => []
  | TypingNode :: l' => messages l'
  | n :: l' => n :: messages l'
  end.

Lemma messages_app (a b : list node) : messages (a ++ b) = messages a ++ messages b.
Proof. induction a as [|[u h|] a IH]; simpl; now rewrite ?IH. Qed.

Lemma messages_remove (l : list node) : messages (remove_typing l) = messages l.
Proof. induction l as [|[u h|] l IH]; simpl; now rewrite ?IH. Qed.

(** What an event can add to the log: nothing, or one message of the side
    the event belongs to (the user for a submission, the assistant for a
    request that settles). *)
Definition adds (ev : event (num := num)) (added : list node) : Prop :=
  added = []
  \/ exists html,
       added = [MessageNode (match ev with Submit _ => true | _ => false end) html].

Lemma reply_case_messages json (msgs : list node) (con : list (log_entry (num := num)))
    msgs' con' :
  reply_case json msgs con msgs' con' ->
  exists added, messages msgs' = messages msgs ++ added
                /\ (added = [] \/ exists html, added = [MessageNode false html]).
Proof.
  intros H. destruct H; rewrite ?messages_app, ?messages_remove;
    try (eexists; split; [reflexivity | right; eexists; reflexivity]).
  exists []. split; [now rewrite List.app_nil_r | now left].
Qed.

(** Settling events leave the identifier and the requests as they are. *)
Lemma step_fetch_cases (w : widget (num := num)) (i : nat) (r : fetch_result) :
  step (FetchSettles i r) w = w
  \/ step (FetchSettles i r) w
     = finish w (remove_typing (chatMessages w)
                   ++ [ai (Markdown.parseMarkdown apology_connection)])
                (console w ++ [connection_entry]) (delete i (inflight w))
  \/ exists json, step (FetchSettles i r) w
                  = with_inflight w (<[i := AwaitJson json]> (inflight w)).
Proof.
  destruct (inflight w !! i) as [[|json]|] eqn:E.
  - destruct r as [|ok json].
    + right. left. now apply step_fetch_failed.
    + right. right. exists json. now apply step_fetch_answered.
  - left. apply step_fetch_ignored. now rewrite E.
  - left. apply step_fetch_ignored. now rewrite E.
Qed.

Lemma step_json_cases (w : widget (num := num)) (i : nat) :
  step (JsonSettles i) w = w
  \/ exists json msgs con,
       reply_case json (chatMessages w) (console w) msgs con
       /\ step (JsonSettles i) w = finish w msgs con (delete i (inflight w)).
Proof.
  destruct (inflight w !! i) as [[|json]|] eqn:E.
  - left. apply step_json_ignored. intros json. now rewrite E.
  - right. exists json. now apply step_json_settled.
  - left. apply step_json_ignored. intros json. now rewrite E.
Qed.

Lemma step_appends (ev : event) (w : widget (num := num)) :
  exists added,
    messages (chatMessages (step ev w)) = messages (chatMessages w) ++ added
    /\ adds ev added.
Proof.
  destruct ev as [text | e | i r | i].
  - exists []. split; [now rewrite List.app_nil_r | now left].
  - unfold step, handle.
    destruct (isWaitingForResponse w) eqn:Hw.
    { rewrite (send_blocked e w Hw). exists []. split; [now rewrite List.app_nil_r | now left]. }
    destruct (trim (input_value w)) as [|m0 ms] eqn:Em.
    { rewrite (send_blank e w Em). exists []. split; [now rewrite List.app_nil_r | now left]. }
    destruct (send_starts e w Hw) as (w' & E & _ & _ & F3 & _); [now rewrite Em|].
    rewrite E. cbn [snd]. rewrite F3, messages_app. simpl.
    eexists. split; [reflexivity|]. right. eexists. reflexivity.
  - destruct (step_fetch_cases w i r) as [-> | [-> | (json & ->)]].
    + exists []. split; [now rewrite List.app_nil_r | now left].
    + unfold finish. cbn [chatMessages]. rewrite messages_app, messages_remove.
      eexists. split; [reflexivity|]. right. eexists. reflexivity.
    + exists []. split; [now rewrite List.app_nil_r | now left].
  - destruct (step_json_cases w i) as [-> | (json & msgs & con & Hc & ->)].
    + exists []. split; [now rewrite List.app_nil_r | now left].
    + unfold finish. cbn [chatMessages].
      destruct (reply_case_messages _ _ _ _ _ Hc) as (added & E & Ha).
      exists added. split; [exact E | exact Ha].
Qed.

(** Over a whole run the messages at the start are a prefix of the messages
    at the end. *)
Lemma log_grows (evs : list event) (w : widget (num := num)) :
  exists more, messages (chatMessages (run evs w)) = messages (chatMessages w) ++ more.
Proof.
  revert w. induction evs as [|ev evs IH]; intros w.
  - exists []. now rewrite List.app_nil_r.
  - destruct (step_appends ev w) as (added & E & _).
    destruct (IH (step ev w)) as (more & E').
    exists (added ++ more). simpl. rewrite E', E. now rewrite <- List.app_assoc.
Qed.

(** Under a chat event the log is append-only: the event keeps every message,
    in order, and adds at most one (the startup handler is taken in
    [PageFacts]). *)
Lemma log_append_only (ev : event) (w : widget (num := num)) :
  exists added,
    messages (chatMessages (step ev w)) = messages (chatMessages w) ++ added
    /\ adds ev added.
Proof. exact (step_appends ev w). Qed.

End WithEngine.
End LogFacts.

(** ** The requests of a page view *)
Module RequestFacts.
Import JS Values Widget ChatFacts LogFacts.

#[local] Arguments Markdown.parseMarkdown : simpl never.

Section WithEngine.
Context {num : Type} {NumOps : Number num}.

(** After [getSessionId] the identifier in memory is not empty, and an
    identifier that was there is kept. *)
Lemma getSessionId_sets (e : env) (w : widget (num := num)) :
  exists r w', getSessionId e w = (Ok r, w')
    /\ sessionId w' = r
    /\ no_id r = false
    /\ (no_id (sessionId w) = false -> r = sessionId w)
    /\ isWaitingForResponse w' = isWaitingForResponse w
    /\ auditContext w' = auditContext w
    /\ input_value w' = input_value w
    /\ chatMessages w' = chatMessages w
    /\ console w' = console w
    /\ requests w' = requests w
    /\ inflight w' = inflight w.
Proof.
  unfold getSessionId, bind, read. destruct (no_id (sessionId w)) eqn:E0; simpl.
  - destruct (no_id (localStorage w !! storage_key)) eqn:E1; simpl;
      eexists _, _; (split; [reflexivity|]); simpl; now repeat split.
  - eexists _, _. split; [reflexivity|]. now repeat split.
Qed.

(** The request of a submission that starts carries the identifier the
    widget holds from then on. *)
Lemma send_request (e : env) (w : widget (num := num)) :
  isWaitingForResponse w = false -> trim (input_value w) <> [] ->
  exists w' body,
    sendNuruMessage e w = (Ok tt, w')
    /\ requests w' = requests w ++ [Post chat_url body]
    /\ session_id body = sessionId w'
    /\ no_id (sessionId w') = false
    /\ (no_id (sessionId w) = false -> sessionId w' = sessionId w).
Proof.
  intros Hw Hm. unfold sendNuruMessage.
  unfold bind at 1. unfold read at 1. rewrite Hw.
  destruct (trim (input_value w)) as [|m0 ms] eqn:Em; [easy|].
  destruct w as [sid0 wt ctx ls lg inp msgs con reqs infl]. simpl in *.
  unfold addMessage, set_input, set_waiting, showTyping, lift, render_user, bind, read,
    set_chatMessages, modify, ret. simpl.
  match goal with
  | |- context [getSessionId e ?w0] =>
      destruct (getSessionId_sets e w0)
        as (r & w1 & E & F0 & Fn & Fk & F1 & F2 & F3 & F4 & F5 & F6 & F7)
  end.
  rewrite E. destruct w1 as [sid1 wt1 ctx1 ls1 lg1 inp1 msgs1 con1 reqs1 infl1].
  simpl in *. subst.
  unfold issue, suspend, set_inflight, modify, bind, read. simpl.
  eexists _, _. split; [reflexivity|]. simpl. now repeat split.
Qed.

(** Events other than a submission that starts keep the identifier and the
    requests. *)
Lemma settle_keeps (ev : event) (w : widget (num := num)) :
  (forall e, ev <> Submit e) ->
  sessionId (step ev w) = sessionId w /\ requests (step ev w) = requests w.
Proof.
  intros Hev. destruct ev as [text | e | i r | i].
  - now split.
  - now destruct (Hev e).
  - destruct (step_fetch_cases w i r) as [-> | [-> | (json & ->)]]; now split.
  - destruct (step_json_cases w i) as [-> | (json & msgs & con & _ & ->)]; now split.
Qed.

(** Every request issued so far is a POST to the chat endpoint with the
    identifier the widget holds, which is not empty. *)
Definition one_identity (w : widget (num := num)) : Prop :=
  forall r, In r (requests w) ->
    exists body, r = Post chat_url body
                 /\ session_id body = sessionId w /\ no_id (sessionId w) = false.

Lemma one_identity_step (ev : event) (w : widget (num := num)) :
  one_identity w -> one_identity (step ev w).
Proof.
  intros Hw. destruct ev as [text | e | i r | i].
  - exact Hw.
  - unfold step, handle.
    destruct (isWaitingForResponse w) eqn:Hf.
    { now rewrite (send_blocked e w Hf). }
    destruct (trim (input_value w)) as [|m0 ms] eqn:Em.
    { now rewrite (send_blank e w Em). }
    destruct (send_request e w Hf) as (w' & body & E & R & Hb & Hn & Hk); [now rewrite Em|].
    rewrite E. cbn [snd]. intros r Hr. rewrite R in Hr.
    apply in_app_or in Hr as [Hr | [<- | []]].
    + destruct (Hw r Hr) as (b & -> & Hs & Hn0).
      exists b. repeat split; auto. rewrite Hs. symmetry. now apply Hk.
    + now exists body.
  - destruct (settle_keeps (FetchSettles i r) w) as [Es Er]; [discriminate|].
    intros q Hq. rewrite Er in Hq. rewrite Es. now apply Hw.
  - destruct (settle_keeps (JsonSettles i) w) as [Es Er]; [discriminate|].
    intros q Hq. rewrite Er in Hq. rewrite Es. now apply Hw.
Qed.

Lemma one_identity_run (evs : list event) (w : widget (num := num)) :
  one_identity w -> one_identity (run evs w).
Proof.
  revert w. induction evs as [|ev evs IH]; intros w H; [exact H|].
  apply IH, one_identity_step, H.
Qed.

(** All the chat requests of a page view go to the chat endpoint and carry
    one and the same non-empty session identifier, the one the widget holds. *)
Theorem same_session_id (storage : gmap (list N) (list N)) (evs : list event)
    (r1 r2 : request (num := num)) :
  let w := run evs (initial (num := num) storage) in
  In r1 (requests w) -> In r2 (requests w) ->
  exists b1 b2,
    r1 = Post chat_url b1 /\ r2 = Post chat_url b2
    /\ session_id b1 = session_id b2
    /\ session_id b1 = sessionId w
    /\ no_id (session_id b1) = false.
Proof.
  intros w H1 H2.
  assert (Hw : one_identity w) by (apply one_identity_run; intros r []).
  destruct (Hw r1 H1) as (b1 & -> & S1 & N1).
  destruct (Hw r2 H2) as (b2 & -> & S2 & _).
  exists b1, b2. repeat split; congruence.
Qed.

(** A submission that starts (no request pending, an input that is not
    blank) appends the escaped, trimmed text as a user message and then the
    indicator, clears the input, raises the flag, and issues one POST to the
    chat endpoint whose body holds the trimmed text, the identifier the widget
    holds, and the resolved context when there is one. *)
Theorem submission_starts (e : env) (w : widget (num := num)) :
  isWaitingForResponse w = false -> trim (input_value w) <> [] ->
  exists w',
    sendNuruMessage e w = (Ok tt, w')
    /\ isWaitingForResponse w' = true
    /\ input_value w' = []
    /\ chatMessages w' = chatMessages w
                         ++ [MessageNode true (escape_user (trim (input_value w))); TypingNode]
    /\ requests w' = requests w
                     ++ [Post chat_url
                           (ChatBody (trim (input_value w)) (sessionId w')
                              (if truthy (auditContext w) then Some (auditContext w) else None))]
    /\ inflight w' = inflight w ++ [AwaitFetch]
    /\ console w' = console w
    /\ auditContext w' = auditContext w.
Proof. exact (send_starts e w). Qed.

End WithEngine.

Import Reference.

(** Two exchanges in one page view. *)
Definition two_exchanges : list (event (num := qnum)) :=
  answered (VObj [(str "response", VStr (str "hello"))])
  ++ [JsonSettles 0; UserTypes (str "again"); Submit demo_env].

Lemma same_session_id_witness :
  exists b1 b2,
    nth 0 (requests (run two_exchanges (initial ∅))) (Get []) = Post chat_url b1
    /\ nth 1 (requests (run two_exchanges (initial ∅))) (Get []) = Post chat_url b2
    /\ session_id b1 = session_id b2
    /\ session_id b1 = sessionId (run two_exchanges (initial ∅))
    /\ no_id (session_id b1) = false.
Proof.
  apply (same_session_id ∅ two_exchanges).
  - vm_compute. left. reflexivity.
  - vm_compute. right. left. reflexivity.
Defined.

Lemma submission_starts_witness :
  exists w',
    sendNuruMessage demo_env (step (UserTypes (str "  hi  ")) (initial ∅)) = (Ok tt, w')
    /\ isWaitingForResponse w' = true
    /\ input_value w' = []
    /\ chatMessages w'
       = chatMessages (step (UserTypes (str "  hi  ")) (initial ∅))
         ++ [MessageNode true
               (escape_user (trim (input_value (step (UserTypes (str "  hi  ")) (initial ∅)))));
             TypingNode]
    /\ requests w'
       = requests (step (UserTypes (str "  hi  ")) (initial ∅))
         ++ [Post chat_url
               (ChatBody (trim (input_value (step (UserTypes (str "  hi  ")) (initial ∅))))
                  (sessionId w')
                  (if truthy (auditContext (step (UserTypes (str "  hi  ")) (initial ∅)))
                   then Some (auditContext (step (UserTypes (str "  hi  ")) (initial ∅)))
                   else None))]
    /\ inflight w' = inflight (step (UserTypes (str "  hi  ")) (initial ∅)) ++ [AwaitFetch]
    /\ console w' = console (step (UserTypes (str "  hi  ")) (initial ∅))
    /\ auditContext w' = auditContext (step (UserTypes (str "  hi  ")) (initial ∅)).
Proof.
  apply (submission_starts demo_env (step (UserTypes (str "  hi  ")) (initial ∅))).
  - reflexivity.
  - vm_compute. discriminate.
Defined.

Lemma blank_submission_witness :
  sendNuruMessage demo_env (step (UserTypes (str "   ")) (initial ∅))
  = (Ok tt, step (UserTypes (str "   ")) (initial ∅)).
Proof.
  apply InputFacts.blank_submission. vm_compute. reflexivity.
Defined.

End RequestFacts.

(** ** The start of a page view *)
Module StartupFacts.
Import JS Values Widget ResolverFacts SearchFacts RequestFacts.

#[local] Arguments Markdown.parseMarkdown : simpl never.

Section WithEngine.
Context {num : Type} {NumOps : Number num}.
Variable params_get : list N -> list N -> option (list N).

(** The context that the resolution gives. *)
Definition resolved (hash : list N) (net : list N -> fetch_result (num := num)) : value num :=
  match params_get (hashParams hash) (str "session") with
  | None => VNull
  | Some [] => VNull
  | Some id =>
      match first_found net id endpoints with
      | Some body => body
      | None => VNull
      end
  end.

Lemma loadAuditContext_resolved (hash : list N) (net : list N -> fetch_result (num := num))
    (w : widget (num := num)) :
  exists w', loadAuditContext params_get hash net w = (Ok (resolved hash net), w')
             /\ same_page w w'.
Proof.
  unfold resolved.
  destruct (params_get (hashParams hash) (str "session")) as [[|i0 id]|] eqn:E.
  - exists w. split; [|apply same_page_refl]. unfold loadAuditContext. now rewrite E.
  - destruct (search_run params_get hash net w (i0 :: id) E ltac:(discriminate))
      as (w' & E' & _ & F).
    exists w'. now split.
  - exists w. split; [|apply same_page_refl]. unfold loadAuditContext. now rewrite E.
Qed.

Lemma render_ai_string (g : list N) :
  render_ai (num := num) (VStr g) = Some (Markdown.parseMarkdown g).
Proof. now destruct g. Qed.

(** The DOMContentLoaded handler: the identifier is established, the
    resolved context is kept for the later requests, and the log is emptied;
    then the greeting of that context is the only message of the log, or,
    when [generateGreeting] throws, the handler ends there with an empty
    log.  The flag and the suspended calls are not touched. *)
Theorem startup (e : env) (hash : list N) (net : list N -> fetch_result (num := num))
    (random : num) (w : widget (num := num)) :
  exists res w',
    DOMContentLoaded params_get e hash net random w = (res, w')
    /\ auditContext w' = resolved hash net
    /\ no_id (sessionId w') = false
    /\ isWaitingForResponse w' = isWaitingForResponse w
    /\ inflight w' = inflight w
    /\ match generateGreeting random (resolved hash net) with
       | Some greeting =>
           res = Ok tt
           /\ chatMessages w' = [MessageNode false (Markdown.parseMarkdown greeting)]
       | None => res = Throw /\ chatMessages w' = []
       end.
Proof.
  unfold DOMContentLoaded.
  unfold bind at 1. unfold console_write at 1. unfold modify at 1.
  match goal with
  | |- context [bind (getSessionId e) _ ?w0] =>
      destruct (getSessionId_sets e w0)
        as (r & w1 & E1 & F0 & Fn & _ & F1 & F2 & F3 & F4 & F5 & F6 & F7)
  end.
  rewrite (bind_ok _ _ _ _ _ E1).
  destruct (loadAuditContext_resolved hash net w1) as (w2 & E2 & G).
  rewrite (bind_ok _ _ _ _ _ E2).
  destruct G as (G0 & G1 & G2 & G3 & G4 & G5 & G6 & G7).
  destruct w2 as [sid2 wt2 ctx2 ls2 lg2 inp2 msgs2 con2 reqs2 infl2].
  simpl in *. subst.
  unfold set_auditContext, set_chatMessages, addMessage, console_write, lift, bind, read,
    modify, ret, throw. simpl.
  destruct (generateGreeting random (resolved hash net)) as [g|]; simpl.
  - rewrite render_ai_string. simpl. eexists _, _. split; [reflexivity|]. simpl.
    rewrite F1, F7. now repeat split.
  - eexists _, _. split; [reflexivity|]. simpl. rewrite F1, F7. now repeat split.
Qed.

(** In the ROI branch the greeting needs numbers: with [annual_savings]
    present, a [null] [annual_savings], or a [roi_percentage] that is missing
    or not a number, makes [generateGreeting] throw. *)
Theorem roi_needs_number (random : num) (context : value num) :
  truthy context = true ->
  has context (str "annual_savings") = true ->
  (get context (str "annual_savings") = Some VNull
   \/ forall n, get context (str "roi_percentage") <> Some (VNum n)) ->
  generateGreeting random context = None.
Proof.
  intros Ht Ha Hcase. unfold generateGreeting. rewrite Ht, Ha. simpl.
  unfold roi_greeting.
  destruct (get context (str "annual_savings")) as [a|] eqn:Ea; [|reflexivity].
  simpl. destruct Hcase as [Hn | Hr].
  - injection Hn as ->. reflexivity.
  - destruct (to_currency a) as [sv|]; [|reflexivity]. simpl.
    destruct (get context (str "roi_percentage")) as [v|] eqn:Ev; [|reflexivity].
    simpl. destruct v; try reflexivity. now destruct (Hr n).
Qed.

End WithEngine.

Import Reference.

Lemma roi_needs_number_witness :
  generateGreeting (Fin 0) (VObj [(str "annual_savings", int 50000);
                                  (str "process_name", VStr (str "Invoicing"))])
  = None.
Proof.
  apply roi_needs_number.
  - reflexivity.
  - vm_compute. reflexivity.
  - right. intros n. vm_compute. discriminate.
Defined.

End StartupFacts.

(** ** The branches of the greeting *)
Module BranchFacts.
Import JS Values Widget GreetingFacts.

Section WithEngine.
Context {num : Type} {NumOps : Number num}.

(** The context reaches the readiness branch. *)
Definition readiness_branch (context : value num) : bool :=
  truthy context
  && negb (has context (str "annual_savings"))
  && has context (str "overall_score").

Definition great_shape : list N :=
  str "You're in great shape! Let's talk about which automation to build first.".
Definition solid_foundations : list N :=
  str "You have solid foundations. Want to address the gaps before we start building?".
Definition strengthen : list N :=
  str "Let's work on strengthening your foundations. I can show you the fastest path forward.".

(** In the readiness branch, with a numeric score, the greeting quotes the
    score and the level and closes by the band of the score: 75 and above,
    60 and above, below 60.  The random draw plays no part. *)
Theorem readiness_tiers (random : num) (context : value num) (score : num)
    (level : list N) :
  readiness_branch context = true ->
  get context (str "overall_score") = Some (VNum score) ->
  opt_bind (get context (str "readiness_level")) to_string = Some level ->
  generateGreeting random context
  = Some (str "I see you scored " ++ num_toString score ++ str "/100 on AI readiness ("
          ++ level ++ str ")." ++ nn
          ++ (if num_geb score (num_of_Z 75) then great_shape
              else if num_geb score (num_of_Z 60) then solid_foundations
              else strengthen)).
Proof.
  unfold readiness_branch, generateGreeting. intros Hb Hs Hl.
  apply andb_true_iff in Hb as [Hb H3]. apply andb_true_iff in Hb as [H1 H2].
  apply negb_true_iff in H2. rewrite H1, H2, H3. simpl.
  unfold readiness_greeting. rewrite Hs. simpl.
  destruct (get context (str "readiness_level")) as [lv|]; [|discriminate].
  simpl in *. rewrite Hl. simpl. unfold geb_lit. simpl.
  destruct (num_geb score (num_of_Z 75)); [reflexivity|]. simpl.
  destruct (num_geb score (num_of_Z 60)); reflexivity.
Qed.

(** In the audit branch, when the first waste zone is an object with a
    name, the greeting names that zone. *)
Theorem audit_names_first_zone (random : num) (context : value num)
    (fields : list (list N * value num)) (others : list (value num))
    (name : value num) (company score hours zone : list N) :
  audit_branch context = true ->
  get context (str "top_waste_zones") = Some (VArr (VObj fields :: others)) ->
  own fields (str "name") = Some name ->
  to_string name = Some zone ->
  opt_bind (get context (str "company_name")) to_string = Some company ->
  opt_bind (get context (str "waste_score")) to_string = Some score ->
  opt_bind (get context (str "total_hours_wasted")) to_string = Some hours ->
  generateGreeting random context
  = Some (audit_text company score hours zone
            (num_toString (num_floor_scale random 50 50))).
Proof.
  intros Hb Hz Hn Hzs Hc Hs Hh.
  rewrite generateGreeting_audit, audit_greeting_text by exact Hb.
  assert (Ht : top_zone (VArr (VObj fields :: others)) = Some name).
  { unfold top_zone. simpl. now rewrite Hn. }
  destruct (get context (str "company_name")) as [cn|]; [|discriminate]. simpl in Hc.
  destruct (get context (str "waste_score")) as [ws|]; [|discriminate]. simpl in Hs.
  destruct (get context (str "total_hours_wasted")) as [th|]; [|discriminate]. simpl in Hh.
  rewrite Hz. cbn [opt_bind]. rewrite Ht. cbn [opt_bind]. rewrite Hc. cbn [opt_bind].
  rewrite Hs. cbn [opt_bind]. rewrite Hh. cbn [opt_bind]. rewrite Hzs. reflexivity.
Qed.

End WithEngine.

Import Reference.

Lemma readiness_tiers_witness :
  generateGreeting (Fin 0)
    (VObj [(str "overall_score", int 65); (str "readiness_level", VStr (str "Developing"))])
  = Some (str "I see you scored " ++ num_toString (Fin (inject_Z 65))
          ++ str "/100 on AI readiness (" ++ str "Developing" ++ str ")." ++ nn
          ++ (if num_geb (Fin (inject_Z 65)) (num_of_Z 75) then great_shape
              else if num_geb (Fin (inject_Z 65)) (num_of_Z 60) then solid_foundations
              else strengthen)).
Proof.
  refine (readiness_tiers (Fin 0)
            (VObj [(str "overall_score", int 65);
                   (str "readiness_level", VStr (str "Developing"))])
            (Fin (inject_Z 65)) (str "Developing") _ _ _);
    vm_compute; reflexivity.
Defined.

Lemma audit_names_first_zone_witness :
  generateGreeting (Fin (1 # 2))
    (audit_of (VArr [VObj [(str "name", VStr (str "Invoicing"))]]))
  = Some (audit_text (str "Acme") (str "40") (str "12") (str "Invoicing")
            (num_toString (num_floor_scale (Fin (1 # 2)) 50 50))).
Proof.
  refine (audit_names_first_zone (Fin (1 # 2))
            (audit_of (VArr [VObj [(str "name", VStr (str "Invoicing"))]]))
            [(str "name", VStr (str "Invoicing"))] [] (VStr (str "Invoicing"))
            (str "Acme") (str "40") (str "12") (str "Invoicing") _ _ _ _ _ _ _);
    vm_compute; reflexivity.
Defined.

End BranchFacts.

(** ** The basic widget against the multi-tool widget *)
Module BasicFacts.
Import JS Values.

#[local] Arguments Markdown.parseMarkdown : simpl never.

Section WithEngine.
Context {num : Type} {NumOps : Number num}.

(** What a child of the container is, without its content: a message of the
    user ([Some true]), of the assistant ([Some false]), or the indicator. *)
Definition kind (n : Widget.node) : option bool :=
  match n with
  | Widget.MessageNode u _ => Some u
  | Widget.TypingNode => None
  end.

Definition kind_b (b : Basic.bubble) : option bool :=
  match b with
  | Basic.Message u _ => Some u
  | Basic.Typing => None
  end.

Fixpoint drop_indicator (l : list (option bool)) : list (option bool) :=
  match l with
  | [] => []
  | None :: l' => l'
  | k :: l' => k :: drop_indicator l'
  end.

Lemma kind_remove (l : list Widget.node) :
  List.map kind (Widget.remove_typing l) = drop_indicator (List.map kind l).
Proof. induction l as [|[u h|] l IH]; simpl; now rewrite ?IH. Qed.

Lemma kind_b_remove (l : list Basic.bubble) :
  List.map kind_b (Basic.remove_typing l) = drop_indicator (List.map kind_b l).
Proof. induction l as [|[u h|] l IH]; simpl; now rewrite ?IH. Qed.

Fixpoint indicators (l : list (option bool)) : nat :=
  match l with
  | [] => 0
  | None :: l' => S (indicators l')
  | Some _ :: l' => indicators l'
  end.

Lemma indicators_kind (l : list Widget.node) :
  indicators (List.map kind l) = ChatFacts.count_typing l.
Proof. induction l as [|[u h|] l IH]; simpl; now rewrite ?IH. Qed.

Lemma drop_indicator_none (l : list (option bool)) :
  indicators l = 0 -> drop_indicator l = l.
Proof.
  induction l as [|[u|] l IH]; simpl; intros H; [reflexivity| |discriminate].
  now rewrite IH.
Qed.

Lemma indicators_drop (l : list (option bool)) :
  indicators (drop_indicator l) = pred (indicators l).
Proof. induction l as [|[u|] l IH]; simpl; auto. Qed.

Lemma drop_indicator_twice (l : list (option bool)) :
  indicators l <= 1 -> drop_indicator (drop_indicator l) = drop_indicator l.
Proof.
  intros H. apply drop_indicator_none. rewrite indicators_drop. lia.
Qed.

(** The two pages agree: the same identifier, flag, storage, input, requests
    and suspended calls, the same layout of the message container, and a
    console of the basic page that is a subsequence of the other (the contents
    of the messages are not compared). *)
Definition agree (p : Basic.page (num := num)) (w : Widget.widget (num := num)) : Prop :=
  Basic.sessionId p = Widget.sessionId w
  /\ Basic.isWaitingForResponse p = Widget.isWaitingForResponse w
  /\ Basic.localStorage p = Widget.localStorage w
  /\ Basic.storage_log p = Widget.storage_log w
  /\ Basic.input_value p = Widget.input_value w
  /\ Basic.requests p = Widget.requests w
  /\ Basic.inflight p = Widget.inflight w
  /\ List.map kind_b (Basic.chatMessages p) = List.map kind (Widget.chatMessages w)
  /\ sublist (Basic.console p) (Widget.console w).

Lemma agree_initial (storage : gmap (list N) (list N)) :
  agree (Basic.initial storage) (Widget.initial storage).
Proof. repeat split. constructor. Qed.

(** The two copies of [getSessionId] do the same to the identifier and the
    storage, and touch nothing else. *)
Lemma getSessionId_agree (e : Widget.env) sid wt ls lg inp msgs con reqs infl
    ctx msgs' con' :
  exists r sid' ls' lg',
    Basic.getSessionId e (Basic.Page sid wt ls lg inp msgs con reqs infl)
    = (Widget.Ok r, Basic.Page sid' wt ls' lg' inp msgs con reqs infl)
    /\ Widget.getSessionId e (Widget.Widget sid wt ctx ls lg inp msgs' con' reqs infl)
       = (Widget.Ok r, Widget.Widget sid' wt ctx ls' lg' inp msgs' con' reqs infl)
    /\ r = sid'.
Proof.
  unfold Basic.getSessionId, Widget.getSessionId, Basic.bind, Widget.bind,
    Basic.read, Widget.read. cbn -[str].
  destruct (Widget.no_id sid); cbn -[str].
  - change (str "nuru_session_id") with Widget.storage_key.
    destruct (Widget.no_id (ls !! Widget.storage_key)); cbn -[str];
      eexists _, _, _, _; (split; [reflexivity|]); split; reflexivity.
  - eexists _, _, _, _; (split; [reflexivity|]); split; reflexivity.
Qed.

Ltac agree_fields :=
  let H := fresh "H" in
  intros H; unfold agree in H; cbn -[str] in H;
  destruct H as (H1 & H2 & H3 & H4 & H5 & H6 & H7 & H8 & H9); subst.

Lemma chat_url_same : Basic.chat_url = Widget.chat_url.
Proof. reflexivity. Qed.

Lemma agree_submit (e : Widget.env) (p : Basic.page (num := num)) w :
  agree p w -> truthy (Widget.auditContext w) = false ->
  agree (Basic.step (Widget.Submit e) p) (Widget.step (Widget.Submit e) w).
Proof.
  destruct p as [sid wt ls lg inp msgs con reqs infl].
  destruct w as [sid0 wt0 ctx ls0 lg0 inp0 msgs0 con0 reqs0 infl0].
  agree_fields. intros Hc. cbn in Hc.
  unfold Basic.step, Widget.step, Basic.handle, Widget.handle,
    Basic.sendNuruMessage, Widget.sendNuruMessage.
  unfold Basic.bind at 1, Widget.bind at 1. unfold Basic.read at 1, Widget.read at 1.
  cbn -[str Widget.trim].
  destruct wt0; [now repeat split|].
  destruct (Widget.trim inp0) as [|m0 ms] eqn:Em; [now repeat split|].
  unfold Basic.addMessage, Widget.addMessage, Basic.set_input, Widget.set_input,
    Basic.set_waiting, Widget.set_waiting, Basic.showTyping, Widget.showTyping,
    Basic.lift, Widget.lift, Basic.bind, Widget.bind, Basic.read, Widget.read,
    Basic.set_chatMessages, Widget.set_chatMessages, Basic.modify, Widget.modify,
    Basic.ret, Widget.ret.
  cbn -[str Widget.trim Basic.getSessionId Widget.getSessionId Widget.escape_user].
  match goal with
  | |- context [Basic.getSessionId e (Basic.Page ?a ?b ?c ?d ?f ?g ?h ?i ?j)] =>
      match goal with
      | |- context [Widget.getSessionId e (Widget.Widget _ _ ?x _ _ _ ?y ?z _ _)] =>
          destruct (getSessionId_agree e a b c d f g h i j x y z)
            as (r & sid' & ls' & lg' & Eb & Ew & Er)
      end
  end.
  rewrite Eb, Ew. subst r.
  unfold Basic.issue, Widget.issue, Basic.suspend, Widget.suspend, Basic.set_inflight,
    Widget.set_inflight, Basic.modify, Widget.modify, Basic.bind, Widget.bind,
    Basic.read, Widget.read.
  cbn -[str Widget.escape_user Basic.chat_url Widget.chat_url].
  rewrite Hc, chat_url_same. unfold agree.
  cbn -[str Widget.escape_user Basic.chat_url Widget.chat_url].
  rewrite !List.map_app, H8. now repeat split.
Qed.

(** The page a call of the basic [sendNuruMessage] leaves when it ends. *)
Definition finish (p : Basic.page (num := num)) (msgs : list Basic.bubble)
    (con : list Widget.log_entry) (l : list Widget.pending) : Basic.page :=
  Basic.Page (Basic.sessionId p) false (Basic.localStorage p) (Basic.storage_log p)
             (Basic.input_value p) msgs con (Basic.requests p) l.

Definition said (text : list N) : Basic.bubble := Basic.Message false text.

Lemma basic_catch_finally (body : Basic.M unit) (p p1 : Basic.page (num := num)) :
  body p = (Widget.Throw, p1) ->
  Basic.try_catch_finally body Basic.send_catch Basic.send_finally p
  = (Widget.Ok tt,
     finish p1 (Basic.remove_typing (Basic.chatMessages p1) ++ [said Basic.apology_connection])
            (Basic.console p1 ++ [ChatFacts.connection_entry]) (Basic.inflight p1)).
Proof.
  intros H. unfold Basic.try_catch_finally. rewrite H. reflexivity.
Qed.

Lemma basic_body_finally (body : Basic.M unit) (p p1 : Basic.page (num := num)) :
  body p = (Widget.Ok tt, p1) ->
  Basic.try_catch_finally body Basic.send_catch Basic.send_finally p
  = (Widget.Ok tt, finish p1 (Basic.chatMessages p1) (Basic.console p1) (Basic.inflight p1)).
Proof.
  intros H. unfold Basic.try_catch_finally. rewrite H. reflexivity.
Qed.

(** The log and the console after the reply segment of the basic widget, by
    the shape of the body. *)
Definition reply_log (json : option (value num)) (msgs : list Basic.bubble)
    (con : list (Widget.log_entry (num := num)))
    : list Basic.bubble * list Widget.log_entry :=
  let failed l := (Basic.remove_typing l ++ [said Basic.apology_connection],
                   con ++ [ChatFacts.connection_entry]) in
  match json with
  | None => failed msgs
  | Some data =>
      match get data (str "response") with
      | None => failed (Basic.remove_typing msgs)
      | Some response =>
          if truthy response then
            match Basic.text_of response with
            | Some text => (Basic.remove_typing msgs ++ [said text], con)
            | None => failed (Basic.remove_typing msgs)
            end
          else
            match get data (str "error") with
            | None => failed (Basic.remove_typing msgs)
            | Some error =>
                if truthy error then
                  (Basic.remove_typing msgs ++ [said Basic.apology_backend],
                   con ++ [ChatFacts.backend_entry error])
                else (Basic.remove_typing msgs, con)
            end
      end
  end.

Definition with_log (p : Basic.page (num := num)) (msgs : list Basic.bubble)
    (con : list Widget.log_entry) : Basic.page :=
  Basic.Page (Basic.sessionId p) (Basic.isWaitingForResponse p) (Basic.localStorage p)
             (Basic.storage_log p) (Basic.input_value p) msgs con (Basic.requests p)
             (Basic.inflight p).

Ltac run_reply :=
  unfold Basic.send_reply, Basic.lift, Basic.bind, Basic.ret, Basic.throw, Basic.hideTyping,
    Basic.read, Basic.set_chatMessages, Basic.modify, Basic.addMessage, Basic.console_write,
    with_log; cbn -[str].

Lemma basic_reply_settles (json : option (value num)) (p : Basic.page (num := num)) :
  Basic.try_catch_finally (Basic.send_reply json) Basic.send_catch Basic.send_finally p
  = (Widget.Ok tt,
     finish p (fst (reply_log json (Basic.chatMessages p) (Basic.console p)))
              (snd (reply_log json (Basic.chatMessages p) (Basic.console p)))
              (Basic.inflight p)).
Proof.
  destruct p as [sid wt ls lg inp msgs0 con0 reqs infl].
  set (p := Basic.Page sid wt ls lg inp msgs0 con0 reqs infl).
  unfold reply_log. cbn [Basic.chatMessages Basic.console p].
  destruct json as [data|].
  2:{ assert (Hb : Basic.send_reply None p = (Widget.Throw, p)) by reflexivity.
      now rewrite (basic_catch_finally _ _ _ Hb). }
  destruct (get data (str "response")) as [response|] eqn:Er.
  2:{ assert (Hb : Basic.send_reply (Some data) p
                   = (Widget.Throw, with_log p (Basic.remove_typing msgs0) con0))
        by (run_reply; now rewrite Er).
      now rewrite (basic_catch_finally _ _ _ Hb). }
  destruct (truthy response) eqn:Et.
  - destruct (Basic.text_of response) as [text|] eqn:Eh.
    + assert (Hb : Basic.send_reply (Some data) p
                   = (Widget.Ok tt, with_log p (Basic.remove_typing msgs0 ++ [said text]) con0))
        by (run_reply; rewrite Er; cbn -[str]; rewrite Et; cbn -[str]; now rewrite Eh).
      now rewrite (basic_body_finally _ _ _ Hb).
    + assert (Hb : Basic.send_reply (Some data) p
                   = (Widget.Throw, with_log p (Basic.remove_typing msgs0) con0))
        by (run_reply; rewrite Er; cbn -[str]; rewrite Et; cbn -[str]; now rewrite Eh).
      now rewrite (basic_catch_finally _ _ _ Hb).
  - destruct (get data (str "error")) as [error|] eqn:Ee.
    2:{ assert (Hb : Basic.send_reply (Some data) p
                     = (Widget.Throw, with_log p (Basic.remove_typing msgs0) con0))
          by (run_reply; rewrite Er; cbn -[str]; rewrite Et; cbn -[str]; now rewrite Ee).
        now rewrite (basic_catch_finally _ _ _ Hb). }
    destruct (truthy error) eqn:Ete.
    + assert (Hb : Basic.send_reply (Some data) p
                   = (Widget.Ok tt,
                      with_log p (Basic.remove_typing msgs0 ++ [said Basic.apology_backend])
                               (con0 ++ [ChatFacts.backend_entry error])))
        by (run_reply; rewrite Er; cbn -[str]; rewrite Et; cbn -[str]; rewrite Ee;
            cbn -[str]; now rewrite Ete).
      now rewrite (basic_body_finally _ _ _ Hb).
    + assert (Hb : Basic.send_reply (Some data) p
                   = (Widget.Ok tt, with_log p (Basic.remove_typing msgs0) con0))
        by (run_reply; rewrite Er; cbn -[str]; rewrite Et; cbn -[str]; rewrite Ee;
            cbn -[str]; now rewrite Ete).
      now rewrite (basic_body_finally _ _ _ Hb).
Qed.

Definition with_inflight (p : Basic.page (num := num)) (l : list Widget.pending)
    : Basic.page :=
  Basic.Page (Basic.sessionId p) (Basic.isWaitingForResponse p) (Basic.localStorage p)
             (Basic.storage_log p) (Basic.input_value p) (Basic.chatMessages p)
             (Basic.console p) (Basic.requests p) l.

(** *** What each event does to the basic page *)
Lemma basic_step_fetch_failed (p : Basic.page (num := num)) (i : nat) :
  Basic.inflight p !! i = Some Widget.AwaitFetch ->
  Basic.step (Widget.FetchSettles i Widget.NetworkError) p
  = finish p (Basic.remove_typing (Basic.chatMessages p) ++ [said Basic.apology_connection])
           (Basic.console p ++ [ChatFacts.connection_entry]) (delete i (Basic.inflight p)).
Proof.
  intros H. unfold Basic.step, Basic.handle. unfold Basic.bind at 1. unfold Basic.read at 1.
  rewrite H. unfold Basic.bind, Basic.set_inflight, Basic.modify.
  rewrite (basic_catch_finally Basic.throw _ _ eq_refl). reflexivity.
Qed.

Lemma basic_step_fetch_answered (p : Basic.page (num := num)) (i : nat) (ok : bool)
    (json : option (value num)) :
  Basic.inflight p !! i = Some Widget.AwaitFetch ->
  Basic.step (Widget.FetchSettles i (Widget.Response ok json)) p
  = with_inflight p (<[i := Widget.AwaitJson json]> (Basic.inflight p)).
Proof.
  intros H. unfold Basic.step, Basic.handle. unfold Basic.bind at 1. unfold Basic.read at 1.
  now rewrite H.
Qed.

Lemma basic_step_json_settled (p : Basic.page (num := num)) (i : nat) (json : option (value num)) :
  Basic.inflight p !! i = Some (Widget.AwaitJson json) ->
  Basic.step (Widget.JsonSettles i) p
  = finish p (fst (reply_log json (Basic.chatMessages p) (Basic.console p)))
             (snd (reply_log json (Basic.chatMessages p) (Basic.console p)))
             (delete i (Basic.inflight p)).
Proof.
  intros H. unfold Basic.step, Basic.handle. unfold Basic.bind at 1. unfold Basic.read at 1.
  rewrite H. unfold Basic.bind, Basic.set_inflight, Basic.modify.
  pose proof (basic_reply_settles json (with_inflight p (delete i (Basic.inflight p)))) as E.
  unfold with_inflight in E. cbn [fst snd] in *. now rewrite E.
Qed.

Lemma basic_step_fetch_ignored (p : Basic.page (num := num)) (i : nat) (r : Widget.fetch_result) :
  Basic.inflight p !! i <> Some Widget.AwaitFetch ->
  Basic.step (Widget.FetchSettles i r) p = p.
Proof.
  intros H. unfold Basic.step, Basic.handle. unfold Basic.bind at 1. unfold Basic.read at 1.
  destruct (Basic.inflight p !! i) as [[|json]|]; try reflexivity. now destruct H.
Qed.

Lemma basic_step_json_ignored (p : Basic.page (num := num)) (i : nat) :
  (forall json, Basic.inflight p !! i <> Some (Widget.AwaitJson json)) ->
  Basic.step (Widget.JsonSettles i) p = p.
Proof.
  intros H. unfold Basic.step, Basic.handle. unfold Basic.bind at 1. unfold Basic.read at 1.
  destruct (Basic.inflight p !! i) as [[|json]|]; try reflexivity. now destruct (H json).
Qed.

(** The layout after the reply segment is the same in the two widgets when
    at most one indicator is shown. *)
Lemma reply_layout json (msgs : list Basic.bubble) con msgsw conw msgsw' conw' :
  ChatFacts.reply_case (num := num) json msgsw conw msgsw' conw' ->
  List.map kind_b msgs = List.map kind msgsw ->
  ChatFacts.count_typing msgsw <= 1 ->
  List.map kind_b (fst (reply_log json msgs con)) = List.map kind msgsw'.
Proof.
  intros H E Hc. rewrite <- indicators_kind in Hc.
  destruct H as [-> | data -> Er | data response html -> Er Et Eh
                 | data response -> Er Et Eh | data response error -> Er Et Ee Ete
                 | data response error -> Er Et Ee Ete];
    unfold reply_log; rewrite ?Er, ?Et, ?Ee, ?Ete; cbn [fst].
  - now rewrite !List.map_app, kind_remove, kind_b_remove, E.
  - now rewrite !List.map_app, !kind_remove, !kind_b_remove, E.
  - unfold Widget.render_ai in Eh. rewrite Et in Eh.
    destruct response; try discriminate. cbn [Basic.text_of to_string fst].
    now rewrite !List.map_app, kind_remove, kind_b_remove, E.
  - destruct (Basic.text_of response) as [text|]; cbn [fst];
      rewrite !List.map_app, !kind_remove, !kind_b_remove, E; [|reflexivity].
    now rewrite drop_indicator_twice.
  - now rewrite !List.map_app, kind_remove, kind_b_remove, E.
  - now rewrite kind_remove, kind_b_remove, E.
Qed.

(** No event of a page view changes the context. *)
Lemma step_context (ev : Widget.event) (w : Widget.widget (num := num)) :
  Widget.auditContext (Widget.step ev w) = Widget.auditContext w.
Proof.
  destruct ev as [text | e | i r | i].
  - reflexivity.
  - unfold Widget.step, Widget.handle.
    destruct (Widget.isWaitingForResponse w) eqn:Hw.
    { now rewrite (ChatFacts.send_blocked e w Hw). }
    destruct (Widget.trim (Widget.input_value w)) as [|m0 ms] eqn:Em.
    { now rewrite (ChatFacts.send_blank e w Em). }
    destruct (ChatFacts.send_starts e w Hw) as (w' & E & _ & _ & _ & _ & _ & _ & F);
      [now rewrite Em|].
    now rewrite E.
  - destruct (Widget.inflight w !! i) as [[|json]|] eqn:El.
    + destruct r as [|ok json].
      * now rewrite ChatFacts.step_fetch_failed.
      * now rewrite ChatFacts.step_fetch_answered.
    + rewrite ChatFacts.step_fetch_ignored; [reflexivity | now rewrite El].
    + rewrite ChatFacts.step_fetch_ignored; [reflexivity | now rewrite El].
  - destruct (Widget.inflight w !! i) as [[|json]|] eqn:El.
    + rewrite ChatFacts.step_json_ignored; [reflexivity | intros json; now rewrite El].
    + destruct (ChatFacts.step_json_settled w i json El) as (msgs & con & _ & E).
      now rewrite E.
    + rewrite ChatFacts.step_json_ignored; [reflexivity | intros json; now rewrite El].
Qed.

(** The console after the reply segment: what the basic widget logs, the
    multi-tool widget logs too. *)
Lemma reply_console json (msgs : list Basic.bubble) con msgsw conw msgsw' conw' :
  ChatFacts.reply_case (num := num) json msgsw conw msgsw' conw' ->
  sublist con conw ->
  sublist (snd (reply_log json msgs con)) conw'.
Proof.
  intros H E.
  destruct H as [-> | data -> Er | data response html -> Er Et Eh
                 | data response -> Er Et Eh | data response error -> Er Et Ee Ete
                 | data response error -> Er Et Ee Ete];
    unfold reply_log; rewrite ?Er, ?Et, ?Ee, ?Ete; cbn [snd].
  - now apply sublist_app.
  - now apply sublist_app.
  - unfold Widget.render_ai in Eh. rewrite Et in Eh.
    destruct response; try discriminate. exact E.
  - destruct (Basic.text_of response) as [text|]; cbn [snd].
    + now apply sublist_inserts_r.
    + now apply sublist_app.
  - now apply sublist_app.
  - exact E.
Qed.

Lemma agree_step (ev : Widget.event) (p : Basic.page (num := num)) w :
  agree p w -> ChatFacts.count_typing (Widget.chatMessages w) <= 1 ->
  truthy (Widget.auditContext w) = false ->
  agree (Basic.step ev p) (Widget.step ev w).
Proof.
  intros H Hn Hc. destruct ev as [text | e | i r | i].
  - destruct H as (H1 & H2 & H3 & H4 & H5 & H6 & H7 & H8 & H9). now repeat split.
  - now apply agree_submit.
  - destruct H as (H1 & H2 & H3 & H4 & H5 & H6 & H7 & H8 & H9).
    destruct (Widget.inflight w !! i) as [[|json]|] eqn:El.
    + destruct r as [|ok json].
      * rewrite ChatFacts.step_fetch_failed by exact El.
        rewrite basic_step_fetch_failed by now rewrite H7.
        unfold agree, finish, ChatFacts.finish; cbn -[str].
        rewrite !List.map_app, kind_remove, kind_b_remove, H7, H8.
        repeat split; auto. now apply sublist_app.
      * rewrite ChatFacts.step_fetch_answered by exact El.
        rewrite basic_step_fetch_answered by now rewrite H7.
        unfold agree, with_inflight, ChatFacts.with_inflight; cbn -[str].
        rewrite H7. now repeat split.
    + rewrite ChatFacts.step_fetch_ignored by now rewrite El.
      rewrite basic_step_fetch_ignored by now rewrite H7, El.
      now repeat split.
    + rewrite ChatFacts.step_fetch_ignored by now rewrite El.
      rewrite basic_step_fetch_ignored by now rewrite H7, El.
      now repeat split.
  - destruct H as (H1 & H2 & H3 & H4 & H5 & H6 & H7 & H8 & H9).
    destruct (Widget.inflight w !! i) as [[|json]|] eqn:El.
    + rewrite ChatFacts.step_json_ignored by (intros json; now rewrite El).
      rewrite basic_step_json_ignored by (intros json; now rewrite H7, El).
      now repeat split.
    + destruct (ChatFacts.step_json_settled w i json El) as (msgs & con & Hr & E).
      rewrite E. rewrite (basic_step_json_settled p i json) by now rewrite H7.
      unfold agree, finish, ChatFacts.finish; cbn -[str].
      rewrite (reply_layout _ _ _ _ _ _ _ Hr H8 Hn), H7.
      repeat split; auto. now apply (reply_console _ _ _ _ _ _ _ Hr).
    + rewrite ChatFacts.step_json_ignored by (intros json; now rewrite El).
      rewrite basic_step_json_ignored by (intros json; now rewrite H7, El).
      now repeat split.
Qed.

Lemma settled_count (w : Widget.widget (num := num)) :
  ChatFacts.settled w -> ChatFacts.count_typing (Widget.chatMessages w) <= 1.
Proof. intros [(_ & _ & H) | (_ & _ & H)]; rewrite H; lia. Qed.

(** The chat of the multi-tool widget without a context against the basic
    widget: over any chat events, from pages that agree, the two keep the
    same identifier, storage and storage accesses, flag, input, requests and
    suspended calls, and show messages of the same sides in the same places;
    what the basic widget logs the other logs too, in the same order.  The
    contents of the messages are not compared, and the consoles need not be
    equal: to a truthy reply that is not a string the basic widget answers
    with its text and logs nothing, the other with the connection apology and
    a console line. *)
Theorem basic_simulated (evs : list Widget.event) (p : Basic.page (num := num)) w :
  agree p w -> ChatFacts.settled w -> truthy (Widget.auditContext w) = false ->
  agree (Basic.run evs p) (Widget.run evs w).
Proof.
  revert p w. induction evs as [|ev evs IH]; intros p w H Hs Hc; [exact H|].
  cbn [Basic.run Widget.run fold_left].
  apply IH.
  - apply agree_step; [exact H | now apply settled_count | exact Hc].
  - now apply ChatFacts.settled_step.
  - now rewrite step_context.
Qed.

(** A reply of the basic widget is shown as text: when the body has a truthy
    [response] that converts to a string, the indicator is removed and one
    assistant message with that string as [textContent] is appended (the
    string itself when the response is one); nothing is logged and the flag
    is lowered. *)
Theorem basic_reply_shown (p : Basic.page (num := num)) (i : nat)
    (data response : value num) (text : list N) :
  Basic.inflight p !! i = Some (Widget.AwaitJson (Some data)) ->
  get data (str "response") = Some response ->
  truthy response = true ->
  Basic.text_of response = Some text ->
  Basic.chatMessages (Basic.step (Widget.JsonSettles i) p)
  = Basic.remove_typing (Basic.chatMessages p) ++ [Basic.Message false text]
  /\ Basic.console (Basic.step (Widget.JsonSettles i) p) = Basic.console p
  /\ Basic.isWaitingForResponse (Basic.step (Widget.JsonSettles i) p) = false
  /\ (forall s, response = VStr s -> text = s).
Proof.
  intros Hi Er Et Eh. rewrite (basic_step_json_settled p i _ Hi).
  unfold reply_log. rewrite Er, Et, Eh. cbn [fst snd finish Basic.chatMessages
    Basic.console Basic.isWaitingForResponse].
  repeat split. intros s ->. cbn in Eh. now injection Eh.
Qed.

(** A body that does not parse, or a fetch that fails, ends in the fixed
    connection apology as plain text. *)
Lemma basic_failure (p : Basic.page (num := num)) (i : nat) :
  Basic.inflight p !! i = Some (Widget.AwaitJson None) ->
  Basic.chatMessages (Basic.step (Widget.JsonSettles i) p)
  = Basic.remove_typing (Basic.chatMessages p) ++ [Basic.Message false Basic.apology_connection].
Proof.
  intros Hi. now rewrite (basic_step_json_settled p i _ Hi).
Qed.

End WithEngine.

Import Reference.

Lemma basic_simulated_witness :
  agree (Basic.run RequestFacts.two_exchanges (Basic.initial ∅))
        (Widget.run RequestFacts.two_exchanges (Widget.initial ∅)).
Proof.
  apply (basic_simulated RequestFacts.two_exchanges _ _ (agree_initial ∅)
           (ChatFacts.settled_initial ∅)).
  reflexivity.
Defined.

Lemma basic_reply_shown_witness :
  let p := Basic.run (ChatFacts.answered (VObj [(str "response", int 42)])) (Basic.initial ∅) in
  Basic.chatMessages (Basic.step (Widget.JsonSettles 0) p)
  = Basic.remove_typing (Basic.chatMessages p) ++ [Basic.Message false (str "42")]
  /\ Basic.console (Basic.step (Widget.JsonSettles 0) p) = Basic.console p
  /\ Basic.isWaitingForResponse (Basic.step (Widget.JsonSettles 0) p) = false
  /\ (forall s, int 42 = VStr s -> str "42" = s).
Proof.
  refine (basic_reply_shown
            (Basic.run (ChatFacts.answered (VObj [(str "response", int 42)])) (Basic.initial ∅))
            0 (VObj [(str "response", int 42)]) (int 42) (str "42") _ _ _ _);
    vm_compute; reflexivity.
Defined.

End BasicFacts.

(** ** The Enter key *)
Module KeyFacts.
Import JS Values.

Lemma str_eqb_eq (a b : list N) : str_eqb a b = true <-> a = b.
Proof.
  revert b. induction a as [|x a IH]; intros [|y b]; simpl; try easy.
  unfold ch_eqb. rewrite andb_true_iff, N.eqb_eq, IH.
  split; [intros [-> ->]; reflexivity | intros E; injection E; auto].
Qed.

Section WithEngine.
Context {num : Type} {NumOps : Number num}.

Lemma snoc_differs {A} (l : list A) (x : A) : l ++ [x] <> l.
Proof.
  intros E. apply (f_equal (@length A)) in E. rewrite length_app in E. simpl in E. lia.
Qed.

(** A submission issues a request exactly when no request is pending and the
    input is not blank; it always returns. *)
Lemma submit_requests (e : Widget.env) (w : Widget.widget (num := num)) :
  (exists w', Widget.sendNuruMessage e w = (Widget.Ok tt, w'))
  /\ (Widget.requests (Widget.step (Widget.Submit e) w) <> Widget.requests w
      <-> Widget.isWaitingForResponse w = false
          /\ Widget.trim (Widget.input_value w) <> []).
Proof.
  unfold Widget.step, Widget.handle.
  destruct (Widget.isWaitingForResponse w) eqn:Hw.
  { rewrite (ChatFacts.send_blocked e w Hw). split; [eauto|]. cbn [snd].
    split; [easy | now intros [? _]]. }
  destruct (Widget.trim (Widget.input_value w)) as [|m0 ms] eqn:Em.
  { rewrite (ChatFacts.send_blank e w Em). split; [eauto|]. cbn [snd].
    split; [easy | now intros [_ ?]]. }
  destruct (ChatFacts.send_starts e w Hw) as (w' & E & _ & _ & _ & F & _);
    [now rewrite Em|].
  rewrite E. split; [eauto|]. cbn [snd]. rewrite F.
  split; [easy | intros _; apply snoc_differs].
Qed.

(** A key press calls [preventDefault] exactly for Enter without Shift, and
    issues a request exactly when, besides, no request is pending and the
    input is not blank; any other key leaves the widget as it is. *)
Theorem enter_sends (key : list N) (shiftKey : bool) (e : Widget.env)
    (w : Widget.widget (num := num)) :
  (fst (Keyboard.handleNuruKeyPress key shiftKey e w) = Widget.Ok true
   <-> key = str "Enter" /\ shiftKey = false)
  /\ (fst (Keyboard.handleNuruKeyPress key shiftKey e w) = Widget.Ok false
      \/ fst (Keyboard.handleNuruKeyPress key shiftKey e w) = Widget.Ok true)
  /\ (Widget.requests (snd (Keyboard.handleNuruKeyPress key shiftKey e w))
      <> Widget.requests w
      <-> key = str "Enter" /\ shiftKey = false
          /\ Widget.isWaitingForResponse w = false
          /\ Widget.trim (Widget.input_value w) <> [])
  /\ (~ (key = str "Enter" /\ shiftKey = false) ->
      snd (Keyboard.handleNuruKeyPress key shiftKey e w) = w).
Proof.
  unfold Keyboard.handleNuruKeyPress.
  destruct (str_eqb key (str "Enter")) eqn:Ek.
  - apply str_eqb_eq in Ek. subst key. destruct shiftKey; cbn [negb andb].
    + unfold Widget.ret; cbn [fst snd]. split; [|split; [|split]].
      * split; [discriminate | now intros [_ ?]].
      * now left.
      * split; [easy | now intros (_ & ? & _)].
      * reflexivity.
    + destruct (submit_requests e w) as ((w' & E) & Hr).
      unfold Widget.step, Widget.handle in Hr. unfold Widget.bind. rewrite E in *.
      unfold Widget.ret; cbn [fst snd] in *. split; [|split; [|split]].
      * now split.
      * now right.
      * rewrite Hr. split; [now intros [? ?] | now intros (_ & _ & ? & ?)].
      * intros H. now destruct H.
  - assert (Hk : key <> str "Enter").
    { intros ->. rewrite (proj2 (str_eqb_eq _ _) eq_refl) in Ek. discriminate. }
    cbn [andb]. unfold Widget.ret; cbn [fst snd]. split; [|split; [|split]].
    + split; [discriminate | now intros [? _]].
    + now left.
    + split; [easy | now intros (? & _)].
    + reflexivity.
Qed.

(** A page of the basic widget, seen as a state of the multi-tool widget
    without a context. *)
Definition shown (b : Basic.bubble) : Widget.node :=
  match b with
  | Basic.Message u text => Widget.MessageNode u text
  | Basic.Typing => Widget.TypingNode
  end.

Definition as_widget (p : Basic.page (num := num)) : Widget.widget (num := num) :=
  Widget.Widget (Basic.sessionId p) (Basic.isWaitingForResponse p) VNull
                (Basic.localStorage p) (Basic.storage_log p) (Basic.input_value p)
                (List.map shown (Basic.chatMessages p)) (Basic.console p)
                (Basic.requests p) (Basic.inflight p).

Lemma agree_as_widget (p : Basic.page (num := num)) : BasicFacts.agree p (as_widget p).
Proof.
  unfold BasicFacts.agree, as_widget; cbn. repeat split; [|reflexivity].
  induction (Basic.chatMessages p) as [|[u t|] l IH]; simpl; now rewrite ?IH.
Qed.

Lemma basic_snd_bind {A B} (m : Basic.M (num := num) A) (b : B) (p : Basic.page) :
  snd (Basic.bind m (fun _ => Basic.ret b) p) = snd (m p).
Proof. unfold Basic.bind. now destruct (m p) as [[a|] p']. Qed.

(** The same for the basic widget: a key press issues a request exactly for
    Enter without Shift when no request is pending and the input is not
    blank, and any other key leaves the page as it is. *)
Theorem basic_enter_sends (key : list N) (shiftKey : bool) (e : Widget.env)
    (p : Basic.page (num := num)) :
  (Basic.requests (snd (Basic.handleNuruKeyPress key shiftKey e p)) <> Basic.requests p
   <-> key = str "Enter" /\ shiftKey = false
       /\ Basic.isWaitingForResponse p = false
       /\ Widget.trim (Basic.input_value p) <> [])
  /\ (~ (key = str "Enter" /\ shiftKey = false) ->
      Basic.handleNuruKeyPress key shiftKey e p = (Widget.Ok false, p)).
Proof.
  unfold Basic.handleNuruKeyPress.
  destruct (str_eqb key (str "Enter")) eqn:Ek.
  - apply str_eqb_eq in Ek. subst key. destruct shiftKey; cbn [negb andb].
    + unfold Basic.ret; cbn [snd]. split; [|reflexivity].
      split; [easy | now intros (_ & ? & _)].
    + rewrite basic_snd_bind. split; [|intros H; now destruct H].
      change (snd (Basic.sendNuruMessage e p)) with (Basic.step (Widget.Submit e) p).
      destruct (BasicFacts.agree_submit e p (as_widget p) (agree_as_widget p) eq_refl)
        as (_ & _ & _ & _ & _ & -> & _).
      destruct (submit_requests e (as_widget p)) as (_ & Hr).
      cbn [as_widget Widget.requests Widget.isWaitingForResponse Widget.input_value] in Hr.
      rewrite Hr. split; [now intros [? ?] | now intros (_ & _ & ? & ?)].
  - assert (Hk : key <> str "Enter").
    { intros ->. rewrite (proj2 (str_eqb_eq _ _) eq_refl) in Ek. discriminate. }
    cbn [andb]. unfold Basic.ret; cbn [snd]. split; [|reflexivity].
    split; [easy | now intros (? & _)].
Qed.

End WithEngine.
End KeyFacts.

(** ** The start of the basic widget *)
Module BasicStartFacts.
Import JS Values.

Section WithEngine.
Context {num : Type} {NumOps : Number num}.

(** The DOMContentLoaded handler of the basic widget writes one console
    line and leaves a non-empty session identifier: the one in memory when
    there is one (the storage is then not read), otherwise the stored one,
    otherwise a new one that it stores; after a lookup the identifier in
    memory is the stored one.  It shows no message and issues no request. *)
Theorem basic_startup (e : Widget.env) (p : Basic.page (num := num)) :
  exists p',
    Basic.DOMContentLoaded e p = (Widget.Ok tt, p')
    /\ Widget.no_id (Basic.sessionId p') = false
    /\ (Widget.no_id (Basic.sessionId p) = false ->
        Basic.sessionId p' = Basic.sessionId p
        /\ Basic.localStorage p' = Basic.localStorage p
        /\ Basic.storage_log p' = Basic.storage_log p)
    /\ (Widget.no_id (Basic.sessionId p) = true ->
        Basic.localStorage p' !! str "nuru_session_id" = Basic.sessionId p'
        /\ (Widget.no_id (Basic.localStorage p !! str "nuru_session_id") = false ->
            Basic.localStorage p' = Basic.localStorage p))
    /\ Basic.console p'
       = Basic.console p
         ++ [Widget.LogEntry Widget.Log (str "Nuru Chat Widget initialized") None]
    /\ Basic.chatMessages p' = Basic.chatMessages p
    /\ Basic.requests p' = Basic.requests p
    /\ Basic.isWaitingForResponse p' = Basic.isWaitingForResponse p
    /\ Basic.inflight p' = Basic.inflight p
    /\ Basic.input_value p' = Basic.input_value p.
Proof.
  destruct p as [sid wt ls lg inp msgs con reqs infl].
  unfold Basic.DOMContentLoaded, Basic.getSessionId, Basic.bind, Basic.read,
    Basic.console_write, Basic.modify. cbn -[str Basic.fresh_id].
  destruct (Widget.no_id sid) eqn:Es; cbn -[str Basic.fresh_id].
  - destruct (Widget.no_id (ls !! str "nuru_session_id")) eqn:El; cbn -[str Basic.fresh_id];
      eexists; (split; [reflexivity|]); cbn -[str Basic.fresh_id].
    + split; [reflexivity|]. split; [discriminate|].
      split; [|now repeat split].
      intros _. split; [apply lookup_insert_eq | discriminate].
    + split; [exact El|]. split; [discriminate|]. now repeat split.
  - eexists; (split; [reflexivity|]); cbn -[str].
    split; [exact Es|]. split; [now repeat split|]. split; [discriminate|].
    now repeat split.
Qed.

End WithEngine.
End BasicStartFacts.

(** ** Headings and inline markup *)
Module InlineFacts.
Import JS Markdown Text ReplaceFacts RuleFacts RenderFacts.

(** [m] can only match at a code unit that [hd] accepts. *)
Definition headed_by (hd : N -> bool) (m : matcher) : Prop :=
  forall prev c s h, m prev (c :: s) = Some h -> hd c = true.

Lemma inert_by (hd : N -> bool) (m : matcher) (s : list N) :
  headed_by hd m -> Forall (fun c => hd c = false) s ->
  forall fuel prev, replace_fuel m fuel prev s = s.
Proof.
  intros Hm Hs. induction Hs as [|c s Hc Hs IH]; intros fuel prev.
  - now destruct fuel.
  - destruct fuel as [|fuel]; [reflexivity|]. cbn [replace_fuel].
    destruct (m prev (c :: s)) as [h|] eqn:E.
    + apply Hm in E. congruence.
    + now rewrite IH.
Qed.

(** [m] can only match at the start of a line. *)
Definition bol_only (m : matcher) : Prop :=
  forall prev s h, m prev s = Some h -> at_bol prev = true.

Lemma replace_midline (m : matcher) (s : list N) :
  bol_only m -> Forall (fun c => is_lt c = false) s ->
  forall fuel p, is_lt p = false -> replace_fuel m fuel (Some p) s = s.
Proof.
  intros Hm Hs. induction Hs as [|c s Hc Hs IH]; intros fuel p Hp.
  - now destruct fuel.
  - destruct fuel as [|fuel]; [reflexivity|]. cbn [replace_fuel].
    destruct (m (Some p) (c :: s)) as [h|] eqn:E.
    + apply Hm in E. cbn in E. congruence.
    + now rewrite IH.
Qed.

(** A rule of line starts leaves a one-line text alone when it does not match
    at its start. *)
Lemma line_inert (m : matcher) (s : list N) :
  bol_only m -> Forall (fun c => is_lt c = false) s -> m None s = None ->
  replace m s = s.
Proof.
  intros Hm Hs H0. unfold replace. destruct s as [|c s]; [reflexivity|].
  cbn [List.length replace_fuel]. rewrite H0.
  inversion Hs; subst. now rewrite replace_midline.
Qed.

Lemma line_rule_bol marker open close : bol_only (line_rule marker open close).
Proof.
  intros prev s h H. unfold line_rule in H. now destruct (at_bol prev).
Qed.

Lemma m_hr_bol : bol_only m_hr.
Proof.
  intros prev s h H. unfold m_hr in H. now destruct (at_bol prev).
Qed.

(** The code units a line rule can start at: [#], [-], the bullet, a digit. *)
Definition line_head (c : N) : bool :=
  is_digit c || existsb (N.eqb c) [35; 45; 8226]%N.

Lemma line_rule_line_head marker open close :
  (forall c s mk after, marker (c :: s) = Some (mk, after) -> line_head c = true) ->
  headed_by line_head (line_rule marker open close).
Proof.
  intros Hmk prev c s h H. apply line_rule_inv in H as (mk & after & text & Em & _).
  eapply Hmk, Em.
Qed.

Definition line_rules : list matcher := [m_h4; m_h3; m_bullet; m_numbered; m_hr].

Lemma line_rules_bol : Forall bol_only line_rules.
Proof.
  repeat apply List.Forall_cons; try apply List.Forall_nil;
    try apply line_rule_bol. apply m_hr_bol.
Qed.

Lemma line_rules_headed : Forall (headed_by line_head) line_rules.
Proof.
  repeat apply List.Forall_cons; try apply List.Forall_nil.
  - apply line_rule_line_head. intros c s mk after H. unfold literal_marker in H.
    destruct (strip (str "### ") (c :: s)) eqn:E; [|discriminate].
    apply strip_spec in E. now injection E as ->.
  - apply line_rule_line_head. intros c s mk after H. unfold literal_marker in H.
    destruct (strip (str "## ") (c :: s)) eqn:E; [|discriminate].
    apply strip_spec in E. now injection E as ->.
  - apply line_rule_line_head. intros c s mk after H. unfold bullet_marker in H.
    destruct s as [|sp s]; [discriminate|].
    destruct ((ch_eqb c dash || ch_eqb c bullet) && ch_eqb sp 32) eqn:E; [|discriminate].
    apply andb_true_iff in E as [E _].
    apply orb_true_iff in E as [E | E]; apply N.eqb_eq in E as ->; reflexivity.
  - apply line_rule_line_head. intros c s mk after H. unfold numbered_marker in H.
    cbn [take_digits] in H. destruct (is_digit c) eqn:Ec.
    + unfold line_head. now rewrite Ec.
    + discriminate.
  - intros prev c s h H. apply m_hr_inv in H as (Es & _ & (l & El) & _).
    rewrite El in Es. now injection Es as ->.
Qed.

Definition is_star (c : N) : bool := N.eqb c star.

Lemma m_bold_headed : headed_by is_star m_bold.
Proof.
  intros prev c s h H. apply m_bold_inv in H as (cap & Es & EM & _).
  rewrite EM in Es. now injection Es as ->.
Qed.

Lemma m_italic_headed : headed_by is_star m_italic.
Proof.
  intros prev c s h H. apply m_italic_inv in H as (cap & Es & EM & _).
  rewrite EM in Es. now injection Es as ->.
Qed.

(** A rule whose matches start with [w] leaves a text without [w] alone. *)
Lemma inert_sub (m : matcher) (w s : list N) :
  (forall prev t h, m prev t = Some h -> starts w t) -> ~ sub w s ->
  forall fuel prev, replace_fuel m fuel prev s = s.
Proof.
  intros Hm. induction s as [|c s IH]; intros Hs fuel prev.
  - now destruct fuel.
  - destruct fuel as [|fuel]; [reflexivity|]. cbn [replace_fuel].
    destruct (m prev (c :: s)) as [h|] eqn:E.
    + exfalso. apply Hs, starts_sub. eapply Hm, E.
    + rewrite IH; [reflexivity|]. intros H. apply Hs. now apply sub_cons.
Qed.

Lemma m_bold_starts prev t h : m_bold prev t = Some h -> starts [star; star] t.
Proof.
  intros H. apply m_bold_inv in H as (cap & Es & EM & _).
  rewrite EM in Es. eexists. rewrite Es. cbn [app]. reflexivity.
Qed.

Lemma m_ul_starts prev t h : m_ul prev t = Some h -> starts [60%N; 108%N] t.
Proof.
  unfold m_ul, li_item. intros H.
  destruct (strip li_open t) as [after|] eqn:E; [|discriminate].
  apply strip_spec in E. rewrite E. eexists. reflexivity.
Qed.

(** A one-line fragment on which no rule can match: no star, no [<l], and a
    first code unit that starts no line rule. *)
Definition calm (r : list N) : Prop :=
  Forall (fun c => is_lt c = false) r
  /\ Forall (fun c => is_star c = false) r
  /\ (exists c r', r = c :: r' /\ line_head c = false)
  /\ clean 60 108 r.

Lemma calm_line (m : matcher) (r : list N) :
  bol_only m -> headed_by line_head m -> calm r -> replace m r = r.
Proof.
  intros Hb Hh (Hl & _ & (c & r' & -> & Hc) & _). apply line_inert; auto.
  destruct (m None (c :: r')) as [h|] eqn:E; [|reflexivity].
  apply Hh in E. congruence.
Qed.

Lemma passes_fixed (r : list N) : calm r -> Forall (fun f => f r = r) passes.
Proof.
  intros Hr.
  pose proof line_rules_bol as B. pose proof line_rules_headed as L.
  unfold line_rules in B, L.
  repeat match type of B with
         | Forall _ (_ :: _) => inversion B as [|? ? ? B']; subst; clear B; rename B' into B
         end.
  repeat match type of L with
         | Forall _ (_ :: _) => inversion L as [|? ? ? L']; subst; clear L; rename L' into L
         end.
  pose proof Hr as (Hl & Hs & _ & Hu).
  assert (Hn : ~ In newline r).
  { intros Hin. rewrite List.Forall_forall in Hl. now specialize (Hl _ Hin). }
  unfold passes. repeat apply List.Forall_cons; try apply List.Forall_nil;
    try (apply calm_line; assumption).
  - apply inert_by with (hd := is_star); [apply m_bold_headed | exact Hs].
  - apply inert_by with (hd := is_star); [apply m_italic_headed | exact Hs].
  - apply inert_sub with (w := [60%N; 108%N]); [apply m_ul_starts | exact Hu].
  - now apply ProseFacts.parbreak_id.
  - now apply replace_char_id.
Qed.

(** *** Flat text: no line terminator, no star, and none of [&], [<], [>] *)
Definition flat (c : N) : bool :=
  negb (is_lt c) && negb (is_star c) && negb (existsb (N.eqb c) [38; 60; 62]%N).

Definition flats (t : list N) : Prop := Forall (fun c => flat c = true) t.

Lemma flat_spec (c : N) :
  flat c = true ->
  is_lt c = false /\ is_star c = false /\ c <> 38%N /\ c <> 60%N /\ c <> 62%N.
Proof.
  unfold flat. intros H.
  apply andb_true_iff in H as [H H3]. apply andb_true_iff in H as [H1 H2].
  apply negb_true_iff in H1, H2, H3. cbn [existsb] in H3.
  repeat match goal with
         | H : (_ || _)%bool = false |- _ => apply orb_false_iff in H as [? ?]
         end.
  repeat split; try assumption; intros ->; discriminate.
Qed.

Lemma flats_app (a b : list N) : flats a -> flats b -> flats (a ++ b).
Proof. intros Ha Hb. apply Forall_app. now split. Qed.

Lemma flats_absent (t : list N) (x : N) : flat x = false -> flats t -> ~ In x t.
Proof.
  intros Hx Ht Hin. unfold flats in Ht. rewrite List.Forall_forall in Ht.
  specialize (Ht _ Hin). congruence.
Qed.

(** The first code unit, if any, starts no line rule. *)
Definition opens (a : list N) : Prop :=
  match a with
  | [] => True
  | c :: _ => line_head c = false
  end.

(** A fragment that can stand inside a line of output: no line terminator, no
    star, no [<l], and no [<] at its end. *)
Definition inner (p : list N) : Prop :=
  Forall (fun c => is_lt c = false) p
  /\ Forall (fun c => is_star c = false) p
  /\ clean 60 108 p
  /\ (forall q, p <> q ++ [60%N]).

Lemma inner_app (a b : list N) : inner a -> inner b -> inner (a ++ b).
Proof.
  intros (A1 & A2 & A3 & A4) (B1 & B2 & B3 & B4). repeat split.
  - apply Forall_app. now split.
  - apply Forall_app. now split.
  - apply clean_app; auto.
  - intros q E. destruct b as [|x b _] using rev_ind.
    + rewrite List.app_nil_r in E. now apply (A4 q).
    + rewrite List.app_assoc in E. apply app_inj_tail in E as [_ ->]. now apply (B4 b).
Qed.

Lemma flats_inner (t : list N) : flats t -> inner t.
Proof.
  intros Ht.
  assert (H60 : ~ In 60%N t) by now apply flats_absent.
  repeat split.
  - eapply List.Forall_impl; [|exact Ht]. intros c Hc. now apply flat_spec in Hc.
  - eapply List.Forall_impl; [|exact Ht]. intros c Hc. now apply flat_spec in Hc.
  - now apply absent_clean_l.
  - intros q ->. apply H60, in_or_app. right. now left.
Qed.

Lemma tag_inner (t : list N) :
  forallb (fun c => negb (is_lt c) && negb (is_star c)) t = true ->
  has_pair 60 108 t = false -> N.eqb (List.last t 0%N) 60 = false -> inner t.
Proof.
  intros H1 H2 H3. rewrite forallb_forall in H1. repeat split.
  - apply List.Forall_forall. intros c Hc. specialize (H1 _ Hc).
    apply andb_true_iff in H1 as [H1 _]. now apply negb_true_iff in H1.
  - apply List.Forall_forall. intros c Hc. specialize (H1 _ Hc).
    apply andb_true_iff in H1 as [_ H1]. now apply negb_true_iff in H1.
  - now apply has_pair_clean.
  - intros q ->. rewrite List.last_last in H3. discriminate.
Qed.

Lemma inner_calm (r : list N) :
  inner r -> (exists c r', r = c :: r' /\ line_head c = false) -> calm r.
Proof. intros (H1 & H2 & H3 & _) H. now repeat split. Qed.

Lemma fold_fixed (fs : list (list N -> list N)) (r : list N) :
  Forall (fun f => f r = r) fs -> fold_left (fun html f => f html) fs r = r.
Proof.
  induction 1 as [|f fs Hf _ IH]; [reflexivity|]. cbn [fold_left]. now rewrite Hf.
Qed.

Lemma take_line_all (t : list N) :
  Forall (fun c => is_lt c = false) t -> take_line t = (t, []).
Proof.
  induction 1 as [|c t Hc _ IH]; [reflexivity|]. cbn [take_line]. now rewrite Hc, IH.
Qed.

Lemma escape_words (t : list N) :
  ~ In 38%N t -> ~ In 60%N t -> ~ In 62%N t -> escape t = t.
Proof.
  intros H1 H2 H3. unfold escape.
  rewrite (replace_char_id 38 _ t) by assumption.
  rewrite (replace_char_id 60 _ t) by assumption.
  now apply replace_char_id.
Qed.

Lemma flats_escape (t : list N) : flats t -> escape t = t.
Proof.
  intros Ht. apply escape_words; now apply flats_absent.
Qed.

Lemma flats_line (t : list N) : flats t -> Forall (fun c => is_lt c = false) t.
Proof.
  intros Ht. eapply List.Forall_impl; [|exact Ht]. intros c Hc. now apply flat_spec in Hc.
Qed.

Lemma line_rule_fires marker open close (s mk t : list N) :
  marker s = Some (mk, t) -> Forall (fun c => is_lt c = false) t -> t <> [] ->
  line_rule marker open close None s = Some (Hit (mk ++ t) (open ++ t ++ close) []).
Proof.
  intros Hm Ht Hn. unfold line_rule. cbn [at_bol]. rewrite Hm, (take_line_all t Ht).
  destruct t; [easy | reflexivity].
Qed.

(** A match of the whole text is replaced as a whole. *)
Lemma replace_whole (m : matcher) (s x y : list N) :
  s <> [] -> x <> [] -> m None s = Some (Hit x y []) -> replace m s = y.
Proof.
  intros Hs Hx H. unfold replace. destruct s as [|c s]; [easy|].
  cbn [List.length replace_fuel]. rewrite H. cbn [matched repl rest].
  destruct x; [easy|]. destruct (List.length s); cbn [replace_fuel]; apply List.app_nil_r.
Qed.

Lemma heading_calm (open close t : list N) :
  inner open -> inner close -> (exists r, open = 60%N :: r) -> flats t ->
  calm (open ++ t ++ close).
Proof.
  intros Ho Hc (r & ->) Ht. apply inner_calm.
  - apply inner_app; [exact Ho|]. apply inner_app; [now apply flats_inner | exact Hc].
  - eexists _, _. split; [reflexivity|]. reflexivity.
Qed.

Lemma rest_fixed (r : list N) (n : nat) :
  calm r -> fold_left (fun html f => f html) (skipn n passes) r = r.
Proof.
  intros Hr. apply fold_fixed. pose proof (passes_fixed r Hr) as F.
  rewrite <- (firstn_skipn n passes) in F. now apply Forall_app in F.
Qed.

Lemma body_split (n : nat) (text : list N) :
  body text
  = fold_left (fun html f => f html) (skipn n passes)
      (fold_left (fun html f => f html) (firstn n passes) (escape text)).
Proof. unfold body. now rewrite <- fold_left_app, firstn_skipn. Qed.

Lemma h3_tags : inner h3_open /\ inner h3_close /\ inner h4_open /\ inner h4_close.
Proof. repeat split; now apply tag_inner. Qed.

Lemma inline_tags :
  inner strong_open /\ inner strong_close /\ inner em_open /\ inner em_close.
Proof. repeat split; now apply tag_inner. Qed.

(** A heading line: [## ] or [### ] before a one-line text without stars and
    [&], [<], [>] gives the heading element alone, with the text as it is and
    no paragraph around it. *)
Theorem heading_rendered (t : list N) :
  t <> [] -> flats t ->
  parseMarkdown (str "## " ++ t) = h3_open ++ t ++ h3_close
  /\ parseMarkdown (str "### " ++ t) = h4_open ++ t ++ h4_close.
Proof.
  intros Hn Ht. pose proof h3_tags as (T1 & T2 & T3 & T4).
  pose proof line_rules_bol as B. unfold line_rules in B.
  inversion B as [|? ? B4 B']; subst. inversion B' as [|? ? B3 _]; subst.
  pose proof (flats_line t Ht) as Hl.
  split.
  - assert (Hf : flats (str "## " ++ t)) by (apply flats_app; [repeat constructor | exact Ht]).
    unfold parseMarkdown. rewrite (body_split 2), (flats_escape _ Hf).
    change (firstn 2 passes) with [replace m_h4; replace m_h3]. cbn [fold_left].
    rewrite (line_inert m_h4); [|exact B4 | now apply flats_line | reflexivity].
    rewrite (replace_whole m_h3 _ (str "## " ++ t) (h3_open ++ t ++ h3_close));
      [|discriminate | discriminate |].
    2:{ apply line_rule_fires; [reflexivity | exact Hl | exact Hn]. }
    rewrite rest_fixed; [reflexivity|].
    apply heading_calm; auto. now eexists.
  - assert (Hf : flats (str "### " ++ t)) by (apply flats_app; [repeat constructor | exact Ht]).
    unfold parseMarkdown. rewrite (body_split 1), (flats_escape _ Hf).
    change (firstn 1 passes) with [replace m_h4]. cbn [fold_left].
    rewrite (replace_whole m_h4 _ (str "### " ++ t) (h4_open ++ t ++ h4_close));
      [|discriminate | discriminate |].
    2:{ apply line_rule_fires; [reflexivity | exact Hl | exact Hn]. }
    rewrite rest_fixed; [reflexivity|].
    apply heading_calm; auto. now eexists.
Qed.

Lemma heading_rendered_witness :
  parseMarkdown (str "## " ++ str "Step 1 - plan") = h3_open ++ str "Step 1 - plan" ++ h3_close
  /\ parseMarkdown (str "### " ++ str "Step 1 - plan") = h4_open ++ str "Step 1 - plan" ++ h4_close.
Proof.
  apply (heading_rendered (str "Step 1 - plan")).
  - discriminate.
  - repeat constructor.
Defined.

(** *** One match inside a line *)

(** The code unit before the position, if any, is not one [hd] accepts. *)
Definition fine (hd : N -> bool) (prev : option N) : Prop :=
  match prev with
  | Some p => hd p = false
  | None => True
  end.

Lemma fires_once (hd : N -> bool) (m : matcher) (a x y c : list N) :
  headed_by hd m ->
  Forall (fun z => hd z = false) a -> Forall (fun z => hd z = false) c ->
  x <> [] ->
  (forall prev, fine hd prev -> m prev (x ++ c) = Some (Hit x y c)) ->
  replace m (a ++ x ++ c) = a ++ y ++ c.
Proof.
  intros Hm Ha Hc Hx Hf. unfold replace.
  assert (Hl : List.length a < List.length (a ++ x ++ c)).
  { rewrite !length_app. destruct x; [easy|]. simpl. lia. }
  revert Hl. generalize (List.length (a ++ x ++ c)) as fuel.
  assert (Hp : fine hd None) by exact I. revert Hp. generalize (@None N) as prev.
  induction Ha as [|z a Hz Ha IH]; intros prev Hp fuel Hl.
  - destruct fuel as [|fuel]; [simpl in Hl; lia|]. cbn [app].
    destruct (x ++ c) as [|n l] eqn:E; [now destruct x|].
    cbn [replace_fuel]. rewrite (Hf prev Hp). cbn [matched repl rest].
    destruct x as [|x0 x]; [easy|].
    now rewrite (inert_by hd m c Hm Hc).
  - destruct fuel as [|fuel]; [simpl in Hl; lia|]. cbn [app replace_fuel].
    destruct (m prev (z :: a ++ x ++ c)) as [h|] eqn:E.
    + apply Hm in E. congruence.
    + f_equal. apply IH; [exact Hz | simpl in Hl; lia].
Qed.

Lemma bold_body_flat (b c : list N) :
  Forall (fun z => is_star z = false) b -> Forall (fun z => is_lt z = false) b ->
  bold_body (b ++ star :: star :: c) = Some (b, c).
Proof.
  intros Hs. induction Hs as [|z b Hz Hs IH]; intros Hl.
  - reflexivity.
  - inversion Hl as [|? ? Hz' Hl']; subst.
    cbn [app bold_body strip]. unfold ch_eqb. unfold is_star in Hz.
    rewrite N.eqb_sym, Hz, Hz', (IH Hl'). reflexivity.
Qed.

Lemma m_bold_fires prev (b0 : N) (b c : list N) :
  Forall (fun z => is_star z = false) (b0 :: b) ->
  Forall (fun z => is_lt z = false) (b0 :: b) ->
  m_bold prev (([star; star] ++ (b0 :: b) ++ [star; star]) ++ c)
  = Some (Hit ([star; star] ++ (b0 :: b) ++ [star; star])
              (strong_open ++ (b0 :: b) ++ strong_close) c).
Proof.
  intros Hs Hl. inversion Hs as [|? ? Hs0 Hs']; subst.
  inversion Hl as [|? ? Hl0 Hl']; subst.
  rewrite <- !List.app_assoc. unfold m_bold. rewrite strip_app. cbn [app].
  rewrite Hl0. now rewrite bold_body_flat.
Qed.

Lemma ital_body_flat (last : N) (b c : list N) :
  is_star last = false ->
  Forall (fun z => is_star z = false) b -> Forall (fun z => is_lt z = false) b ->
  next_is_star c = false ->
  ital_body last (b ++ star :: c) = Some (b, c).
Proof.
  intros Hlast Hs. revert last Hlast. induction Hs as [|z b Hz Hs IH]; intros last Hlast Hl Hc.
  - cbn [app ital_body]. unfold ch_eqb. unfold is_star in Hlast.
    rewrite Hlast, Hc. reflexivity.
  - inversion Hl as [|? ? Hz' Hl']; subst.
    cbn [app ital_body]. unfold ch_eqb. unfold is_star in Hz.
    rewrite Hz, Hz'. cbn [andb]. now rewrite (IH z Hz Hl' Hc).
Qed.

Lemma m_italic_fires prev (b0 : N) (b c : list N) :
  fine is_star prev ->
  Forall (fun z => is_star z = false) (b0 :: b) ->
  Forall (fun z => is_lt z = false) (b0 :: b) ->
  next_is_star c = false ->
  m_italic prev (([star] ++ (b0 :: b) ++ [star]) ++ c)
  = Some (Hit ([star] ++ (b0 :: b) ++ [star]) (em_open ++ (b0 :: b) ++ em_close) c).
Proof.
  intros Hp Hs Hl Hc. inversion Hs as [|? ? Hs0 Hs']; subst.
  inversion Hl as [|? ? Hl0 Hl']; subst.
  rewrite <- !List.app_assoc. cbn [app]. unfold m_italic.
  assert (E : negb (match prev with Some x => ch_eqb x star | None => false end) = true).
  { destruct prev as [p|]; [|reflexivity]. cbn in Hp. unfold is_star in Hp.
    unfold ch_eqb. now rewrite Hp. }
  rewrite E. unfold ch_eqb at 1 2. unfold is_star in Hs0. rewrite Hs0, Hl0.
  change (star =? star)%N with true. cbn [andb negb].
  now rewrite ital_body_flat.
Qed.

(** *** A marked span inside a line *)

Definition soft (c : N) : bool :=
  negb (is_lt c) && negb (existsb (N.eqb c) [38; 60; 62]%N).

Lemma flat_soft (c : N) : flat c = true -> soft c = true.
Proof.
  unfold flat, soft. intros H.
  apply andb_true_iff in H as [H H3]. apply andb_true_iff in H as [H1 _].
  now rewrite H1, H3.
Qed.

Lemma flats_soft (t : list N) : flats t -> Forall (fun c => soft c = true) t.
Proof. apply List.Forall_impl, flat_soft. Qed.

Lemma soft_absent (t : list N) (x : N) :
  soft x = false -> Forall (fun c => soft c = true) t -> ~ In x t.
Proof.
  intros Hx Ht Hin. rewrite List.Forall_forall in Ht. specialize (Ht _ Hin). congruence.
Qed.

Lemma soft_escape (t : list N) : Forall (fun c => soft c = true) t -> escape t = t.
Proof. intros Ht. apply escape_words; now apply soft_absent. Qed.

Lemma soft_line (t : list N) :
  Forall (fun c => soft c = true) t -> Forall (fun c => is_lt c = false) t.
Proof.
  apply List.Forall_impl. intros c H. unfold soft in H.
  apply andb_true_iff in H as [H _]. now apply negb_true_iff in H.
Qed.

Definition opened (t : list N) : Prop := exists c t', t = c :: t' /\ line_head c = false.

Lemma opens_opened (a r : list N) (c0 : N) :
  opens a -> line_head c0 = false -> opened (a ++ c0 :: r).
Proof.
  intros Ha Hc. destruct a as [|a0 a]; eexists _, _; (split; [reflexivity|]); assumption.
Qed.

Lemma unopened (m : matcher) (t : list N) :
  headed_by line_head m -> opened t -> m None t = None.
Proof.
  intros Hm (c & t' & -> & Hc). destruct (m None (c :: t')) as [h|] eqn:E; [|reflexivity].
  apply Hm in E. congruence.
Qed.

(** The two heading rules leave an opened one-line text alone. *)
Lemma headings_pass (t : list N) :
  Forall (fun c => soft c = true) t -> opened t ->
  replace m_h4 t = t /\ replace m_h3 t = t.
Proof.
  intros Hs Ho.
  pose proof line_rules_bol as B. unfold line_rules in B.
  inversion B as [|? ? B4 B']; subst. inversion B' as [|? ? B3 _]; subst.
  pose proof line_rules_headed as L. unfold line_rules in L.
  inversion L as [|? ? L4 L']; subst. inversion L' as [|? ? L3 _]; subst.
  split; apply line_inert; auto using soft_line, unopened.
Qed.

Lemma span_calm (a o b cl c : list N) :
  opens a -> flats a -> flats b -> flats c -> inner o -> inner cl ->
  (exists r, o = 60%N :: r) ->
  calm (a ++ o ++ b ++ cl ++ c).
Proof.
  intros Ho Ha Hb Hc Io Ic (r & ->). apply inner_calm.
  - repeat apply inner_app; auto using flats_inner.
  - cbn [app]. now apply opens_opened.
Qed.

Lemma span_wrap (a r : list N) :
  flats a -> is_block r = false -> (exists r', r = 60%N :: r') ->
  is_block (a ++ r) = false.
Proof.
  intros Ha Hr (r' & ->). destruct a as [|a0 a]; [exact Hr|].
  inversion Ha as [|? ? H0 _]; subst. apply flat_spec in H0 as (_ & _ & _ & H60 & _).
  unfold is_block, startsWith. cbn [app].
  change (str "<h") with (60%N :: str "h").
  change (str "<ul") with (60%N :: str "ul").
  change (str "<ol") with (60%N :: str "ol").
  now rewrite !ProseFacts.strip_angle.
Qed.

(** Bold: a span between double stars, inside a one-line text without other
    stars and without [&], [<], [>] that does not open with a list or
    heading marker, becomes a [strong] element in a paragraph; the text
    around and inside the span is kept as it is. *)
Theorem bold_rendered (a b c : list N) :
  opens a -> flats a -> flats b -> b <> [] -> flats c ->
  parseMarkdown (a ++ str "**" ++ b ++ str "**" ++ c)
  = p_open ++ (a ++ strong_open ++ b ++ strong_close ++ c) ++ p_close.
Proof.
  intros Ho Ha Hb Hn Hc. pose proof inline_tags as (T1 & T2 & _ & _).
  change (str "**") with [star; star].
  set (t := a ++ [star; star] ++ b ++ [star; star] ++ c).
  assert (Hs : Forall (fun z => soft z = true) t).
  { unfold t. repeat (apply Forall_app; split); auto using flats_soft; repeat constructor. }
  assert (Hop : opened t) by (unfold t; cbn [app]; now apply opens_opened).
  assert (Ew : parseMarkdown t = wrap (body t)).
  { destruct Hop as (c0 & t' & E & _). now rewrite E. }
  rewrite Ew, (body_split 3), (soft_escape _ Hs).
  change (firstn 3 passes) with [replace m_h4; replace m_h3; replace m_bold].
  cbn [fold_left].
  destruct (headings_pass t Hs Hop) as (-> & ->).
  assert (Eb : replace m_bold t = a ++ strong_open ++ b ++ strong_close ++ c).
  { unfold t. rewrite (List.app_assoc b), (List.app_assoc [star; star]).
    destruct b as [|b0 b]; [easy|].
    rewrite (fires_once is_star m_bold a _ (strong_open ++ (b0 :: b) ++ strong_close) c).
    - now rewrite <- !List.app_assoc.
    - apply m_bold_headed.
    - eapply List.Forall_impl; [|exact Ha]. intros z Hz. now apply flat_spec in Hz.
    - eapply List.Forall_impl; [|exact Hc]. intros z Hz. now apply flat_spec in Hz.
    - discriminate.
    - intros prev _. apply m_bold_fires.
      + eapply List.Forall_impl; [|exact Hb]. intros z Hz. now apply flat_spec in Hz.
      + eapply List.Forall_impl; [|exact Hb]. intros z Hz. now apply flat_spec in Hz. }
  rewrite Eb, rest_fixed.
  2:{ apply span_calm; auto. now eexists. }
  unfold wrap. rewrite span_wrap; [reflexivity | exact Ha | reflexivity | now eexists].
Qed.

Lemma flats_starfree (t : list N) : flats t -> Forall (fun z => is_star z = false) t.
Proof.
  apply List.Forall_impl. intros z Hz. now apply flat_spec in Hz.
Qed.

Lemma starfree_absent (t : list N) : Forall (fun z => is_star z = false) t -> ~ In star t.
Proof.
  intros Ht Hin. rewrite List.Forall_forall in Ht. now specialize (Ht _ Hin).
Qed.

Lemma starfree_end (a : list N) :
  Forall (fun z => is_star z = false) a -> forall p, a <> p ++ [star].
Proof.
  intros Ha p ->. apply (starfree_absent _ Ha), in_or_app. right. now left.
Qed.

Lemma starfree_start (c : list N) :
  Forall (fun z => is_star z = false) c -> forall q, c <> star :: q.
Proof.
  intros Hc q ->. apply (starfree_absent _ Hc). now left.
Qed.

(** Single stars around a span without stars never put two stars side by
    side. *)
Lemma single_stars_apart (a b c : list N) :
  flats a -> flats b -> b <> [] -> flats c ->
  clean star star (a ++ [star] ++ b ++ [star] ++ c).
Proof.
  intros Ha Hb Hn Hc.
  pose proof (flats_starfree a Ha) as Sa. pose proof (flats_starfree b Hb) as Sb.
  pose proof (flats_starfree c Hc) as Sc.
  assert (C1 : clean star star [star]) by now apply has_pair_clean.
  assert (C2 : clean star star ([star] ++ c)).
  { apply clean_app; auto.
    - apply absent_clean_l, starfree_absent, Sc.
    - right. now apply starfree_start. }
  assert (C3 : clean star star (b ++ [star] ++ c)).
  { apply clean_app; auto.
    - apply absent_clean_l, starfree_absent, Sb.
    - left. now apply starfree_end. }
  assert (C4 : clean star star ([star] ++ b ++ [star] ++ c)).
  { apply clean_app; auto. right. destruct b as [|b0 b]; [easy|].
    inversion Sb as [|? ? H0 _]; subst. intros q E. injection E as -> _. discriminate. }
  apply clean_app; auto.
  - apply absent_clean_l, starfree_absent, Sa.
  - left. now apply starfree_end.
Qed.

(** Italic: a span between single stars, under the same conditions, becomes
    an [em] element in a paragraph. *)
Theorem italic_rendered (a b c : list N) :
  opens a -> flats a -> flats b -> b <> [] -> flats c ->
  parseMarkdown (a ++ str "*" ++ b ++ str "*" ++ c)
  = p_open ++ (a ++ em_open ++ b ++ em_close ++ c) ++ p_close.
Proof.
  intros Ho Ha Hb Hn Hc. pose proof inline_tags as (_ & _ & T1 & T2).
  change (str "*") with [star].
  set (t := a ++ [star] ++ b ++ [star] ++ c).
  assert (Hs : Forall (fun z => soft z = true) t).
  { unfold t. repeat (apply Forall_app; split); auto using flats_soft; repeat constructor. }
  assert (Hop : opened t) by (unfold t; cbn [app]; now apply opens_opened).
  assert (Ew : parseMarkdown t = wrap (body t)).
  { destruct Hop as (c0 & t' & E & _). now rewrite E. }
  rewrite Ew, (body_split 4), (soft_escape _ Hs).
  change (firstn 4 passes)
    with [replace m_h4; replace m_h3; replace m_bold; replace m_italic].
  cbn [fold_left].
  destruct (headings_pass t Hs Hop) as (-> & ->).
  assert (Eb : replace m_bold t = t).
  { apply inert_sub with (w := [star; star]); [apply m_bold_starts|].
    now apply single_stars_apart. }
  rewrite Eb.
  assert (Ei : replace m_italic t = a ++ em_open ++ b ++ em_close ++ c).
  { unfold t. rewrite (List.app_assoc b), (List.app_assoc [star]).
    destruct b as [|b0 b]; [easy|].
    rewrite (fires_once is_star m_italic a _ (em_open ++ (b0 :: b) ++ em_close) c).
    - now rewrite <- !List.app_assoc.
    - apply m_italic_headed.
    - now apply flats_starfree.
    - now apply flats_starfree.
    - discriminate.
    - intros prev Hp. apply m_italic_fires; auto using flats_starfree, flats_line.
      destruct c as [|c0 c]; [reflexivity|].
      inversion Hc as [|? ? H0 _]; subst. now apply flat_spec in H0. }
  rewrite Ei, rest_fixed.
  2:{ apply span_calm; auto. now eexists. }
  unfold wrap. rewrite span_wrap; [reflexivity | exact Ha | reflexivity | now eexists].
Qed.

Lemma bold_rendered_witness :
  parseMarkdown (str "Save " ++ str "**" ++ str "40 hours" ++ str "**" ++ str " a month")
  = p_open ++ (str "Save " ++ strong_open ++ str "40 hours" ++ strong_close ++ str " a month")
    ++ p_close.
Proof.
  apply (bold_rendered (str "Save ") (str "40 hours") (str " a month"));
    try discriminate; try reflexivity; repeat constructor.
Defined.

Lemma italic_rendered_witness :
  parseMarkdown (str "a " ++ str "*" ++ str "key" ++ str "*" ++ str " point")
  = p_open ++ (str "a " ++ em_open ++ str "key" ++ em_close ++ str " point") ++ p_close.
Proof.
  apply (italic_rendered (str "a ") (str "key") (str " point"));
    try discriminate; try reflexivity; repeat constructor.
Defined.

End InlineFacts.

(** ** Bullet lists *)
Module ListFacts.
Import JS Markdown Text ReplaceFacts RuleFacts RenderFacts FuelFacts InlineFacts.

(** *** Scanning with enough steps *)
Definition scan (m : matcher) (prev : option N) (s : list N) : list N :=
  replace_fuel m (List.length s) prev s.

Lemma scan_skip (m : matcher) prev (c : N) (s : list N) :
  m prev (c :: s) = None -> scan m prev (c :: s) = c :: scan m (Some c) s.
Proof. intros H. unfold scan. cbn [List.length replace_fuel]. now rewrite H. Qed.

Lemma scan_hit (m : matcher) prev (s x y r : list N) :
  (forall prev s h, m prev s = Some h -> s = matched h ++ rest h) ->
  m prev s = Some (Hit x y r) -> x <> [] ->
  scan m prev s = y ++ scan m (last_char prev x) r.
Proof.
  intros Hm H Hx. pose proof (Hm _ _ _ H) as Es. cbn [matched rest] in Es.
  unfold scan. destruct s as [|c s]; [now destruct x|].
  cbn [List.length replace_fuel]. rewrite H. cbn [matched repl rest].
  destruct x as [|x0 x]; [easy|]. f_equal.
  assert (L : List.length r <= List.length s).
  { apply (f_equal (@List.length N)) in Es. rewrite length_app in Es. simpl in Es. lia. }
  now apply (replace_fuel_enough m Hm (List.length s)).
Qed.

(** *** Texts whose lines start with nothing [hd] accepts *)
Fixpoint calm_lines (hd : N -> bool) (prev : option N) (s : list N) : Prop :=
  match s with
  | [] => True
  | c :: s' => (at_bol prev = true -> hd c = false) /\ calm_lines hd (Some c) s'
  end.

Lemma calm_lines_inert (hd : N -> bool) (m : matcher) (s : list N) :
  bol_only m -> headed_by hd m ->
  forall prev fuel, calm_lines hd prev s -> replace_fuel m fuel prev s = s.
Proof.
  intros Hb Hh. induction s as [|c s IH]; intros prev fuel Hs.
  - now destruct fuel.
  - destruct fuel as [|fuel]; [reflexivity|]. cbn [replace_fuel].
    destruct Hs as [Hc Hs].
    destruct (m prev (c :: s)) as [h|] eqn:E.
    + pose proof (Hb _ _ _ E) as B. apply Hh in E. rewrite (Hc B) in E. discriminate.
    + now rewrite IH.
Qed.

Lemma last_char_cons prev (c : N) (a : list N) :
  last_char prev (c :: a) = last_char (Some c) a.
Proof.
  unfold last_char. cbn [rev]. destruct (rev a) as [|z r]; reflexivity.
Qed.

Lemma calm_lines_app (hd : N -> bool) (a b : list N) :
  forall prev, calm_lines hd prev a -> calm_lines hd (last_char prev a) b ->
  calm_lines hd prev (a ++ b).
Proof.
  induction a as [|c a IH]; intros prev Ha Hb; [exact Hb|].
  destruct Ha as [Hc Ha]. cbn [app calm_lines]. split; [exact Hc|].
  apply IH; [exact Ha|]. now rewrite last_char_cons in Hb.
Qed.

Lemma calm_mid (hd : N -> bool) (l : list N) :
  Forall (fun c => is_lt c = false) l ->
  forall p, is_lt p = false -> calm_lines hd (Some p) l.
Proof.
  induction 1 as [|c l Hc _ IH]; intros p Hp; [exact I|].
  split; [cbn; congruence | now apply IH].
Qed.

(** A line: not empty, without line terminators, and starting with a code
    unit that [hd] rejects. *)
Definition line_of (hd : N -> bool) (l : list N) : Prop :=
  Forall (fun c => is_lt c = false) l /\ exists c l', l = c :: l' /\ hd c = false.

Lemma calm_one_line (hd : N -> bool) (l : list N) prev :
  line_of hd l -> calm_lines hd prev l.
Proof.
  intros (Hl & c & l' & -> & Hc). inversion Hl as [|? ? H0 Hl']; subst.
  split; [now intros _ | now apply calm_mid].
Qed.

Lemma last_char_line (l : list N) prev :
  l <> [] -> Forall (fun c => is_lt c = false) l ->
  exists z, last_char prev l = Some z /\ is_lt z = false.
Proof.
  intros Hn Hl. unfold last_char. destruct (rev l) as [|z r] eqn:E.
  - apply (f_equal (@rev N)) in E. rewrite rev_involutive in E. now subst.
  - exists z. split; [reflexivity|]. rewrite List.Forall_forall in Hl. apply Hl.
    apply in_rev. rewrite E. now left.
Qed.

Lemma join_cons (sep l : list N) (ls : list (list N)) :
  ls <> [] -> Values.join sep (l :: ls) = l ++ sep ++ Values.join sep ls.
Proof. intros H. destruct ls; [easy | reflexivity]. Qed.

Lemma calm_join (hd : N -> bool) (ls : list (list N)) :
  Forall (line_of hd) ls -> forall prev, calm_lines hd prev (Values.join [newline] ls).
Proof.
  induction 1 as [|l ls Hl Hls IH]; intros prev; [exact I|].
  destruct ls as [|l2 ls]; [now apply calm_one_line|].
  rewrite join_cons by discriminate.
  apply calm_lines_app; [now apply calm_one_line|].
  destruct Hl as (Hlt & c & l' & -> & Hc).
  destruct (last_char_line (c :: l') prev) as (z & -> & Hz); [discriminate | exact Hlt|].
  cbn [app calm_lines]. split; [cbn; congruence | apply IH].
Qed.

(** *** The bullet rule, line by line *)

(** A list item as it is written, and as the bullet rule renders it. *)
Definition written (l : list N) : list N := str "- " ++ l.
Definition item (l : list N) : list N := li_open ++ l ++ li_close.

(** The text of an item: not empty, one line, no star and none of [&], [<],
    [>]. *)
Definition item_text (l : list N) : Prop := l <> [] /\ flats l.

Definition line_end (r : list N) : Prop :=
  r = [] \/ exists x r', r = x :: r' /\ is_lt x = true.

Lemma take_line_app (t r : list N) :
  Forall (fun c => is_lt c = false) t -> line_end r -> take_line (t ++ r) = (t, r).
Proof.
  intros Ht Hr. induction Ht as [|c t Hc _ IH].
  - destruct Hr as [-> | (x & r' & -> & Hx)]; [reflexivity|]. cbn [app take_line].
    now rewrite Hx.
  - cbn [app take_line]. now rewrite Hc, IH.
Qed.

Lemma line_rule_hit marker open close prev (s mk t r : list N) :
  at_bol prev = true -> marker s = Some (mk, t ++ r) ->
  Forall (fun c => is_lt c = false) t -> t <> [] -> line_end r ->
  line_rule marker open close prev s = Some (Hit (mk ++ t) (open ++ t ++ close) r).
Proof.
  intros Hb Hm Ht Hn Hr. unfold line_rule. rewrite Hb, Hm, (take_line_app t r Ht Hr).
  destruct t; [easy | reflexivity].
Qed.

Lemma m_bullet_split prev s h : m_bullet prev s = Some h -> s = matched h ++ rest h.
Proof. apply rules_split. cbn. tauto. Qed.

Lemma written_line (l : list N) :
  item_text l -> written l <> [] /\ Forall (fun c => is_lt c = false) (written l).
Proof.
  intros (Hn & Hl). split; [discriminate|].
  unfold written. apply Forall_app. split; [repeat constructor | now apply flats_line].
Qed.

Lemma bullets_pass (items : list (list N)) :
  Forall item_text items ->
  forall prev, at_bol prev = true ->
    scan m_bullet prev (Values.join [newline] (List.map written items))
    = Values.join [newline] (List.map item items).
Proof.
  induction 1 as [|l ls Hl Hls IH]; intros prev Hb; [reflexivity|].
  pose proof Hl as (Hn & Hf). pose proof (flats_line l Hf) as Hlt.
  destruct ls as [|l2 ls].
  - cbn [List.map Values.join].
    rewrite (scan_hit m_bullet prev (written l) (written l) (item l) []);
      [apply List.app_nil_r | apply m_bullet_split | | discriminate].
    apply line_rule_hit; auto; [|now left].
    now rewrite List.app_nil_r.
  - cbn [List.map]. rewrite !join_cons by discriminate.
    set (J := Values.join [newline] (List.map written (l2 :: ls))) in *.
    rewrite (scan_hit m_bullet prev _ (written l) (item l) ([newline] ++ J));
      [| apply m_bullet_split | | discriminate].
    2:{ unfold written. rewrite <- List.app_assoc. apply line_rule_hit; auto.
        right. now eexists _, _. }
    destruct (written_line l Hl) as (Wn & Wl).
    destruct (last_char_line (written l) prev Wn Wl) as (z & -> & Hz).
    cbn [app]. rewrite scan_skip.
    + rewrite (IH (Some newline) eq_refl). reflexivity.
    + destruct (m_bullet (Some z) (newline :: J)) as [h|] eqn:E; [|reflexivity].
      apply line_rule_bol in E. cbn in E. congruence.
Qed.

(** *** The grouping rule over the items *)

Lemma li_tail_end (r : list N) : line_end r -> li_tail r = None.
Proof.
  intros [-> | (x & r' & -> & Hx)]; [reflexivity|]. cbn [li_tail]. now rewrite Hx.
Qed.

Lemma li_tail_line (l r : list N) :
  Forall (fun c => is_lt c = false) l -> li_tail r = None ->
  li_tail (l ++ li_close ++ r) = Some (l ++ li_close, r).
Proof.
  intros Hl Hr. induction Hl as [|c l Hc _ IH].
  - unfold li_close. cbn. now rewrite Hr.
  - cbn [app li_tail]. now rewrite Hc, IH.
Qed.

Lemma li_item_last (l : list N) :
  Forall (fun c => is_lt c = false) l -> li_item (item l) = Some (item l, []).
Proof.
  intros Hl. unfold li_item, item. rewrite strip_app.
  rewrite <- (List.app_nil_r (l ++ li_close)), <- List.app_assoc.
  rewrite (li_tail_line l [] Hl eq_refl). now rewrite List.app_nil_r.
Qed.

Lemma li_item_next (l r : list N) :
  Forall (fun c => is_lt c = false) l ->
  li_item (item l ++ newline :: r) = Some (item l ++ [newline], r).
Proof.
  intros Hl. unfold li_item, item. rewrite <- !List.app_assoc, strip_app.
  rewrite (li_tail_line l (newline :: r) Hl eq_refl).
  change (ch_eqb newline newline) with true. cbn iota.
  now rewrite <- !List.app_assoc.
Qed.

Lemma li_items_lines (items : list (list N)) :
  Forall item_text items ->
  forall fuel, List.length (Values.join [newline] (List.map item items)) <= fuel ->
    li_items fuel (Values.join [newline] (List.map item items))
    = (Values.join [newline] (List.map item items), []).
Proof.
  induction 1 as [|l ls Hl Hls IH]; intros fuel Hf; [now destruct fuel|].
  pose proof Hl as (Hn & Hfl). pose proof (flats_line l Hfl) as Hlt.
  destruct ls as [|l2 ls].
  - cbn [List.map Values.join] in *.
    destruct fuel as [|fuel]; [unfold item in Hf; rewrite length_app in Hf; simpl in Hf; lia|].
    cbn [li_items]. rewrite (li_item_last l Hlt).
    replace (li_items fuel []) with (@nil N, @nil N) by now destruct fuel.
    now rewrite List.app_nil_r.
  - cbn [List.map] in *. rewrite join_cons in * by discriminate.
    set (J := Values.join [newline] (item l2 :: List.map item ls)) in *.
    destruct fuel as [|fuel]; [unfold item in Hf; rewrite length_app in Hf; simpl in Hf; lia|].
    cbn [li_items app]. rewrite (li_item_next l J Hlt), IH.
    + now rewrite <- List.app_assoc.
    + rewrite !length_app in Hf. cbn [List.length] in Hf. lia.
Qed.

Lemma m_ul_lines (items : list (list N)) prev :
  items <> [] -> Forall item_text items ->
  let t := Values.join [newline] (List.map item items) in
  m_ul prev t = Some (Hit t (ul_open ++ t ++ ul_close) []).
Proof.
  intros Hn Hi t. subst t. destruct items as [|l ls]; [easy|].
  inversion Hi as [|? ? Hl Hls]; subst.
  pose proof Hl as (_ & Hfl). pose proof (flats_line l Hfl) as Hlt.
  unfold m_ul. destruct ls as [|l2 ls].
  - cbn [List.map Values.join]. rewrite (li_item_last l Hlt). cbn [List.length li_items].
    now rewrite List.app_nil_r.
  - cbn [List.map]. rewrite join_cons by discriminate.
    pose proof (li_items_lines (l2 :: ls) Hls _ (le_n _)) as E. cbn [List.map] in E.
    set (J := Values.join [newline] (item l2 :: List.map item ls)) in *.
    cbn [app]. rewrite (li_item_next l J Hlt), E.
    now rewrite <- !List.app_assoc.
Qed.

(** *** The other rules *)
Definition is_hash (c : N) : bool := N.eqb c 35.
Definition is_nl (c : N) : bool := N.eqb c newline.

Lemma headings_hash : headed_by is_hash m_h4 /\ headed_by is_hash m_h3.
Proof.
  split; intros prev c s h H; apply line_rule_inv in H as (mk & after & text & Em & _);
    unfold literal_marker in Em.
  - destruct (strip (str "### ") (c :: s)) eqn:E; [|discriminate].
    apply strip_spec in E. now injection E as ->.
  - destruct (strip (str "## ") (c :: s)) eqn:E; [|discriminate].
    apply strip_spec in E. now injection E as ->.
Qed.

Lemma parbreak_calm (s : list N) :
  forall prev fuel, calm_lines is_nl prev s -> replace_fuel m_parbreak fuel prev s = s.
Proof.
  induction s as [|c s IH]; intros prev fuel Hs; [now destruct fuel|].
  destruct fuel as [|fuel]; [reflexivity|]. cbn [replace_fuel].
  destruct Hs as [_ Hs].
  destruct (m_parbreak prev (c :: s)) as [h|] eqn:E.
  - exfalso. apply m_parbreak_inv in E as (Es & EM & _). rewrite EM in Es.
    injection Es as -> ->. destruct Hs as [Hs _]. now specialize (Hs eq_refl).
  - now rewrite IH.
Qed.

Lemma Forall_join (P : N -> Prop) (sep : list N) (ls : list (list N)) :
  Forall P sep -> Forall (Forall P) ls -> Forall P (Values.join sep ls).
Proof.
  intros Hs. induction 1 as [|l ls Hl Hls IH]; [constructor|].
  destruct ls as [|l2 ls]; [exact Hl|].
  rewrite join_cons by discriminate. repeat (apply Forall_app; split); auto.
Qed.

Lemma br_join (ls : list (list N)) :
  Forall (fun l => ~ In newline l) ls ->
  replace_char newline br_tag (Values.join [newline] ls) = Values.join br_tag ls.
Proof.
  induction 1 as [|l ls Hl Hls IH]; [reflexivity|].
  destruct ls as [|l2 ls]; [now apply replace_char_id|].
  rewrite !join_cons by discriminate.
  rewrite !replace_char_app, IH, (replace_char_id _ _ l Hl). reflexivity.
Qed.

Lemma line_absent (l : list N) : Forall (fun c => is_lt c = false) l -> ~ In newline l.
Proof.
  intros Hl Hin. rewrite List.Forall_forall in Hl. now specialize (Hl _ Hin).
Qed.

Lemma item_line (hd : N -> bool) (l : list N) :
  hd 60%N = false -> item_text l -> line_of hd (item l).
Proof.
  intros Hd (_ & Hl). split.
  - unfold item. repeat (apply Forall_app; split); auto using flats_line; repeat constructor.
  - eexists _, _. split; [reflexivity | exact Hd].
Qed.

Lemma tag_line (hd : N -> bool) (t : list N) :
  hd 60%N = false -> forallb (fun c => negb (is_lt c)) t = true ->
  (exists r, t = 60%N :: r) -> line_of hd t.
Proof.
  intros Hd Ht (r & ->). split.
  - apply List.Forall_forall. intros c Hc. rewrite forallb_forall in Ht.
    apply negb_true_iff. now apply Ht.
  - now eexists _, _.
Qed.

(** The grouped list is calm for every rule of line starts that cannot match
    at [<]. *)
Lemma list_calm (hd : N -> bool) (items : list (list N)) :
  hd 60%N = false -> Forall item_text items ->
  calm_lines hd None (ul_open ++ Values.join [newline] (List.map item items) ++ ul_close).
Proof.
  intros Hd Hi.
  apply calm_lines_app; [apply calm_one_line, tag_line; auto; now eexists|].
  apply calm_lines_app; [|apply calm_one_line, tag_line; auto; now eexists].
  apply calm_join. apply Forall_map. eapply List.Forall_impl; [|exact Hi].
  intros l Hl. now apply item_line.
Qed.

Lemma written_facts (items : list (list N)) :
  Forall item_text items ->
  let t := Values.join [newline] (List.map written items) in
  escape t = t
  /\ Forall (fun c => is_star c = false) t
  /\ forall prev, calm_lines is_hash prev t.
Proof.
  intros Hi t. subst t. repeat split.
  - assert (H : Forall (fun c => existsb (N.eqb c) [38; 60; 62]%N = false)
                  (Values.join [newline] (List.map written items))).
    { apply Forall_join; [repeat constructor|]. apply Forall_map.
      eapply List.Forall_impl; [|exact Hi]. intros l (_ & Hl).
      unfold written. apply Forall_app. split; [repeat constructor|].
      eapply List.Forall_impl; [|exact Hl]. intros c Hc.
      apply flat_soft in Hc. unfold soft in Hc. apply andb_true_iff in Hc as [_ Hc].
      now apply negb_true_iff in Hc. }
    rewrite List.Forall_forall in H.
    apply escape_words; intros Hin; now specialize (H _ Hin).
  - apply Forall_join; [repeat constructor|]. apply Forall_map.
    eapply List.Forall_impl; [|exact Hi]. intros l (_ & Hl).
    unfold written. apply Forall_app. split; [repeat constructor|].
    now apply flats_starfree.
  - intros prev. apply calm_join. apply Forall_map.
    eapply List.Forall_impl; [|exact Hi]. intros l Hl.
    destruct (written_line l Hl) as (_ & Hlt). split; [exact Hlt|].
    now eexists _, _.
Qed.

(** A bullet list: lines [- item] joined by line feeds, whose items are
    one-line texts without stars and [&], [<], [>], are rendered as one [ul]
    element holding an [li] element for each item, in order, with the item
    text as it is; the line feeds between the items come out as [<br>]
    between the [li] elements, and no paragraph is put around the list. *)
Theorem bullet_list_rendered (items : list (list N)) :
  items <> [] -> Forall item_text items ->
  parseMarkdown (Values.join [newline] (List.map written items))
  = ul_open ++ Values.join br_tag (List.map item items) ++ ul_close.
Proof.
  intros Hn Hi.
  set (t := Values.join [newline] (List.map written items)).
  set (t1 := Values.join [newline] (List.map item items)).
  assert (Ew : parseMarkdown t = wrap (body t)).
  { unfold t. destruct items as [|l [|l2 ls]]; [easy | reflexivity | reflexivity]. }
  destruct (written_facts items Hi) as (Ee & Hs & Hh). fold t in Ee, Hs, Hh.
  destruct headings_hash as (H4 & H3).
  pose proof line_rules_bol as B. pose proof line_rules_headed as L.
  unfold line_rules in B, L.
  repeat match type of B with
         | Forall _ (_ :: _) => inversion B as [|? ? ? B']; subst; clear B; rename B' into B
         end.
  repeat match type of L with
         | Forall _ (_ :: _) => inversion L as [|? ? ? L']; subst; clear L; rename L' into L
         end.
  rewrite Ew. unfold body, passes. cbn [fold_left]. rewrite Ee.
  assert (E4 : replace m_h4 t = t) by (apply (calm_lines_inert is_hash); auto).
  assert (E3 : replace m_h3 t = t) by (apply (calm_lines_inert is_hash); auto).
  assert (Eb : replace m_bold t = t) by (apply (inert_by is_star); auto using m_bold_headed).
  assert (Ei : replace m_italic t = t)
    by (apply (inert_by is_star); auto using m_italic_headed).
  assert (El : replace m_bullet t = t1) by (apply (bullets_pass items Hi None eq_refl)).
  assert (T1 : t1 <> []).
  { unfold t1. destruct items as [|l [|l2 ls]]; [easy | discriminate | discriminate]. }
  assert (Eu : replace m_ul t1 = ul_open ++ t1 ++ ul_close).
  { apply replace_whole with (x := t1); auto. now apply m_ul_lines. }
  set (t2 := ul_open ++ t1 ++ ul_close) in *.
  assert (En : replace m_numbered t2 = t2)
    by (apply (calm_lines_inert line_head); auto; now apply list_calm).
  assert (Er : replace m_hr t2 = t2)
    by (apply (calm_lines_inert line_head); auto; now apply list_calm).
  assert (Ep : replace m_parbreak t2 = t2) by (apply parbreak_calm; now apply list_calm).
  rewrite E4, E3, Eb, Ei, El, Eu, En, Er, Ep.
  unfold t2, t1. rewrite !replace_char_app, br_join.
  - rewrite (replace_char_id newline br_tag ul_open) by (vm_compute; intuition discriminate).
    rewrite (replace_char_id newline br_tag ul_close) by (vm_compute; intuition discriminate).
    reflexivity.
  - apply Forall_map. eapply List.Forall_impl; [|exact Hi]. intros l Hl.
    apply line_absent. now destruct (item_line is_nl l eq_refl Hl).
Qed.

Lemma bullet_list_rendered_witness :
  parseMarkdown (Values.join [newline]
                   (List.map written [str "Invoices"; str "Payroll - 2 days"; str "Reports"]))
  = ul_open
    ++ Values.join br_tag (List.map item [str "Invoices"; str "Payroll - 2 days"; str "Reports"])
    ++ ul_close.
Proof.
  apply (bullet_list_rendered [str "Invoices"; str "Payroll - 2 days"; str "Reports"]).
  - discriminate.
  - repeat constructor; discriminate.
Defined.

End ListFacts.

(** ** The startup handler among the chat events *)
Module PageFacts.
Import JS Values Widget ChatFacts LogFacts.

#[local] Arguments Markdown.parseMarkdown : simpl never.

Section WithEngine.
Context {num : Type} {NumOps : Number num}.
Variable params_get : list N -> list N -> option (list N).

(** A step that leaves the flag, the suspended calls and the container
    alone. *)
Definition aside (w w' : widget (num := num)) : Prop :=
  isWaitingForResponse w' = isWaitingForResponse w
  /\ inflight w' = inflight w
  /\ chatMessages w' = chatMessages w.

(** A step that replaces the content of the container by the greeting, or by
    nothing, and leaves the flag and the suspended calls alone. *)
Definition wiping (w w' : widget (num := num)) : Prop :=
  isWaitingForResponse w' = isWaitingForResponse w
  /\ inflight w' = inflight w
  /\ (chatMessages w' = [] \/ exists html, chatMessages w' = [MessageNode false html]).

Lemma aside_refl (w : widget (num := num)) : aside w w.
Proof. now repeat split. Qed.

Lemma aside_trans (w1 w2 w3 : widget (num := num)) :
  aside w1 w2 -> aside w2 w3 -> aside w1 w3.
Proof. intros (A1 & A2 & A3) (B1 & B2 & B3). repeat split; congruence. Qed.

Lemma aside_wiping (w1 w2 w3 : widget (num := num)) :
  aside w1 w2 -> wiping w2 w3 -> wiping w1 w3.
Proof. intros (A1 & A2 & A3) (B1 & B2 & B3). repeat split; try congruence; exact B3. Qed.

Lemma console_aside (entry : log_entry) (w : widget (num := num)) :
  aside w (snd (console_write entry w)).
Proof. now repeat split. Qed.

Lemma issue_aside (r : request) (w : widget (num := num)) :
  aside w (snd (issue r w)).
Proof. now repeat split. Qed.

Lemma resume_wiping (random : num) (context : value num) (w : widget (num := num)) :
  wiping w (snd (Page.resume random context w)).
Proof.
  unfold Page.resume, bind, set_auditContext, set_chatMessages, modify, lift, addMessage,
    read, console_write.
  cbn -[str generateGreeting render_ai].
  destruct (generateGreeting random context) as [greeting|]; cbn -[str render_ai].
  - destruct (render_ai (VStr greeting)) as [html|] eqn:E; cbn -[str].
    + repeat split. right. now exists html.
    + repeat split. now left.
  - repeat split. now left.
Qed.

(** What a step of the startup handler does to the chat: it stands aside, or
    it is the step in which the handler goes on and ends. *)
Definition startup_outcome (w : widget (num := num)) (p' : widget (num := num) * Page.boot (num := num)) : Prop :=
  aside w (fst p') \/ (wiping w (fst p') /\ snd p' = Page.Started).

Lemma enter_outcome (id : list N) (k : nat) (random : num) (w0 w : widget (num := num)) :
  aside w0 w -> startup_outcome w0 (Page.enter id k random w).
Proof.
  intros Ha. unfold Page.enter. destruct (Page.probes !! k) as [[[base loaded] miss]|].
  - left. cbn [fst]. eapply aside_trans; [exact Ha | apply issue_aside].
  - right. cbn [fst snd]. split; [|reflexivity].
    eapply aside_wiping; [exact Ha | apply resume_wiping].
Qed.

Lemma load_outcome (e : env) (hash : list N) (random : num) (w : widget (num := num)) :
  startup_outcome w (Page.load params_get e hash random w).
Proof.
  unfold Page.load.
  set (w1 := snd (bind _ _ w)).
  assert (Ha : aside w w1).
  { subst w1. unfold bind, console_write, modify, ret.
    match goal with
    | |- context [getSessionId e ?w0] =>
        destruct (getSessionId_frame e w0) as (r & w' & E & _ & F1 & _ & _ & F4 & _ & _ & F7)
    end.
    rewrite E. cbn [snd]. repeat split; [now rewrite F1 | now rewrite F7 | now rewrite F4]. }
  destruct (params_get (hashParams hash) (str "session")) as [[|c id]|].
  - right. cbn [fst snd]. split; [|reflexivity].
    eapply aside_wiping; [exact Ha | apply resume_wiping].
  - now apply enter_outcome.
  - right. cbn [fst snd]. split; [|reflexivity].
    eapply aside_wiping; [exact Ha | apply resume_wiping].
Qed.

Lemma probe_settles_outcome (r : fetch_result (num := num)) (random : num) (id : list N) (k : nat)
    (w : widget (num := num)) :
  startup_outcome w (Page.probe_settles r random id k w).
Proof.
  unfold Page.probe_settles. destruct (Page.probes !! k) as [[[base loaded] miss]|].
  - destruct r as [|[|] json].
    + apply enter_outcome, console_aside.
    + left. apply aside_refl.
    + apply enter_outcome, aside_refl.
  - left. apply aside_refl.
Qed.

Lemma body_settles_outcome (random : num) (id : list N) (k : nat)
    (json : option (value num)) (w : widget (num := num)) :
  startup_outcome w (Page.body_settles random id k json w).
Proof.
  unfold Page.body_settles. destruct (Page.probes !! k) as [[[base loaded] miss]|].
  - destruct json as [context|].
    + right. cbn [fst snd]. split; [|reflexivity].
      unfold bind at 1. unfold console_write at 1, modify at 1. cbn beta iota.
      eapply aside_wiping; [|apply resume_wiping]. now repeat split.
    + apply enter_outcome, console_aside.
  - left. apply aside_refl.
Qed.

(** An event of the handler either finds it elsewhere and changes nothing, or
    moves it (it had not ended) with one of the two outcomes. *)
Lemma startup_step (ev : Page.event (num := num)) (w : widget (num := num)) (b : Page.boot (num := num)) :
  (forall c, ev <> Page.Chat c) ->
  Page.step params_get ev (w, b) = (w, b)
  \/ (b <> Page.Started /\ startup_outcome w (Page.step params_get ev (w, b))).
Proof.
  intros Hev. destruct ev as [c | e hash random | r random | random];
    [now destruct (Hev c) | | |]; destruct b as [| id k | id k json |];
    try (left; reflexivity); right; (split; [discriminate|]); cbn [Page.step fst snd].
  - apply load_outcome.
  - apply probe_settles_outcome.
  - apply body_settles_outcome.
Qed.

(** *** The indicator and the pending request *)

(** A request is pending and the container holds no indicator. *)
Definition unmarked (w : widget (num := num)) : Prop :=
  isWaitingForResponse w = true /\ (exists p, inflight w = [p])
  /\ count_typing (chatMessages w) = 0.

(** The indicator follows the pending request, or the handler has ended and
    left a pending request without its indicator. *)
Definition tracked (p : widget (num := num) * Page.boot (num := num)) : Prop :=
  settled (fst p) \/ (unmarked (fst p) /\ snd p = Page.Started).

Lemma unmarked_step (ev : Widget.event) (w : widget (num := num)) :
  unmarked w -> unmarked (Widget.step ev w) \/ quiet (Widget.step ev w).
Proof.
  intros (H1 & (p & H2) & H3). destruct ev as [text | e | i r | i].
  - left. unfold Widget.step, handle, set_input, modify; simpl. repeat split; eauto.
  - left. unfold Widget.step, handle. rewrite (send_blocked e w H1). repeat split; eauto.
  - destruct i as [|i];
      [|rewrite step_fetch_ignored; [left; repeat split; eauto | now rewrite H2]].
    destruct p as [|json];
      [|rewrite step_fetch_ignored; [left; repeat split; eauto | now rewrite H2]].
    destruct r as [|ok json].
    + rewrite step_fetch_failed by now rewrite H2. right. unfold quiet, finish; simpl.
      rewrite H2. repeat split.
      rewrite count_typing_app, count_typing_remove, H3. reflexivity.
    + rewrite step_fetch_answered by now rewrite H2. left.
      unfold unmarked, with_inflight; simpl. rewrite H2. repeat split; eauto.
  - destruct i as [|i];
      [|rewrite step_json_ignored; [left; repeat split; eauto | intros json; now rewrite H2]].
    destruct p as [|json];
      [rewrite step_json_ignored; [left; repeat split; eauto | intros json; now rewrite H2]|].
    destruct (step_json_settled w 0 json) as (msgs & con & Hc & E); [now rewrite H2|].
    rewrite E. right. unfold quiet, finish; simpl. rewrite H2. repeat split.
    apply (reply_case_count _ _ _ _ _ Hc). lia.
Qed.

Lemma settled_aside (w w' : widget (num := num)) : aside w w' -> settled w -> settled w'.
Proof.
  intros (A1 & A2 & A3) [(H1 & H2 & H3) | (H1 & (p & H2) & H3)]; [left | right];
    unfold quiet, busy; rewrite A1, A2, A3; eauto.
Qed.

Lemma settled_wiping (w w' : widget (num := num)) :
  wiping w w' -> settled w -> quiet w' \/ unmarked w'.
Proof.
  intros (A1 & A2 & A3) Hs.
  assert (C : count_typing (chatMessages w') = 0)
    by (destruct A3 as [-> | (html & ->)]; reflexivity).
  destruct Hs as [(H1 & H2 & H3) | (H1 & (p & H2) & H3)]; [left | right];
    unfold quiet, unmarked; rewrite A1, A2; eauto.
Qed.

Lemma tracked_step (ev : Page.event) (p : widget (num := num) * Page.boot (num := num)) :
  tracked p -> tracked (Page.step params_get ev p).
Proof.
  destruct p as [w b]. intros Ht.
  destruct ev as [c | e hash random | r random | random].
  - cbn [Page.step fst snd] in *. destruct Ht as [Hs | [Hu Hb]].
    + left. now apply settled_step.
    + destruct (unmarked_step c w Hu) as [Hu' | Hq]; [right; now split | left; now left].
  - destruct (startup_step (Page.Load e hash random) w b) as [-> | (Hb & Ho)];
      [discriminate | exact Ht |].
    destruct Ht as [Hs | [_ Hb']]; [|contradiction].
    destruct Ho as [Ha | [Hw Hst]]; [left; now apply (settled_aside w)|].
    destruct (settled_wiping _ _ Hw Hs) as [Hq | Hu]; [left; now left | right; now split].
  - destruct (startup_step (Page.ProbeSettles r random) w b) as [-> | (Hb & Ho)];
      [discriminate | exact Ht |].
    destruct Ht as [Hs | [_ Hb']]; [|contradiction].
    destruct Ho as [Ha | [Hw Hst]]; [left; now apply (settled_aside w)|].
    destruct (settled_wiping _ _ Hw Hs) as [Hq | Hu]; [left; now left | right; now split].
  - destruct (startup_step (Page.BodySettles random) w b) as [-> | (Hb & Ho)];
      [discriminate | exact Ht |].
    destruct Ht as [Hs | [_ Hb']]; [|contradiction].
    destruct Ho as [Ha | [Hw Hst]]; [left; now apply (settled_aside w)|].
    destruct (settled_wiping _ _ Hw Hs) as [Hq | Hu]; [left; now left | right; now split].
Qed.

Lemma tracked_run (evs : list Page.event)
    (p : widget (num := num) * Page.boot (num := num)) :
  tracked p -> tracked (Page.run params_get evs p).
Proof.
  revert p. induction evs as [|ev evs IH]; intros p H; [exact H|].
  apply IH, tracked_step, H.
Qed.

(** In every state a page view can reach, startup handler included: at most
    one call of [sendNuruMessage] is suspended and at most one indicator is
    shown, and only while a call is suspended.  The two numbers are equal,
    except when the handler went on (and ended) while a request was pending:
    it emptied the container, and that request has no indicator until it
    settles. *)
Theorem indicator_while_pending (storage : gmap (list N) (list N))
    (evs : list Page.event) :
  let p := Page.run params_get evs (Page.initial storage) in
  let shown := count_typing (chatMessages (fst p)) in
  let pending := List.length (inflight (fst p)) in
  shown <= pending /\ pending <= 1
  /\ (isWaitingForResponse (fst p) = true <-> pending = 1)
  /\ (shown = pending \/ (shown = 0 /\ pending = 1 /\ snd p = Page.Started)).
Proof.
  intros p shown pending. subst shown pending.
  assert (Ht : tracked p).
  { apply tracked_run. left. apply settled_initial. }
  destruct Ht as [[(H1 & H2 & H3) | (H1 & (q & H2) & H3)] | [(H1 & (q & H2) & H3) Hb]];
    rewrite H1, H2, H3; cbn [List.length]; repeat split; auto; try lia; try discriminate.
Qed.

(** *** The message log *)

(** Once the handler has ended its events change nothing. *)
Lemma started_stays (ev : Page.event) (w : widget (num := num)) :
  (forall c, ev <> Page.Chat c) ->
  Page.step params_get ev (w, Page.Started) = (w, Page.Started).
Proof. intros H. destruct ev as [c| | |]; [now destruct (H c) | | |]; reflexivity. Qed.

(** The message log over the events of a page view.  The chat events and the
    steps of the startup handler before it goes on keep every message, in
    order: a chat event adds at most one (a user message for a submission, an
    assistant message for a request that settles), the handler none.  The one
    step that removes messages is the one in which the handler goes on after
    [loadAuditContext]: it leaves the container empty or with the greeting
    alone, and ends the handler, so it happens at most once in a page view. *)
Theorem log_over_page (ev : Page.event (num := num)) (w : widget (num := num))
    (b : Page.boot (num := num)) :
  let p' := Page.step params_get ev (w, b) in
  ((exists added,
      messages (chatMessages (fst p')) = messages (chatMessages w) ++ added
      /\ match ev with
         | Page.Chat c => adds c added
         | _ => added = []
         end)
   \/ ((forall c, ev <> Page.Chat c) /\ b <> Page.Started /\ snd p' = Page.Started
       /\ (chatMessages (fst p') = []
           \/ exists html, chatMessages (fst p') = [MessageNode false html])))
  /\ (b = Page.Started -> snd p' = Page.Started).
Proof.
  intros p'. subst p'. split.
  - destruct ev as [c | e hash random | r random | random].
    + left. cbn [Page.step fst snd]. apply step_appends.
    + destruct (startup_step (Page.Load e hash random) w b) as [-> | (Hb & [Ha | [Hw Hst]])];
        try discriminate.
      * left. exists []. now rewrite List.app_nil_r.
      * left. exists []. destruct Ha as (_ & _ & ->). now rewrite List.app_nil_r.
      * right. destruct Hw as (_ & _ & Hm). repeat split; auto; discriminate.
    + destruct (startup_step (Page.ProbeSettles r random) w b)
        as [-> | (Hb & [Ha | [Hw Hst]])]; try discriminate.
      * left. exists []. now rewrite List.app_nil_r.
      * left. exists []. destruct Ha as (_ & _ & ->). now rewrite List.app_nil_r.
      * right. destruct Hw as (_ & _ & Hm). repeat split; auto; discriminate.
    + destruct (startup_step (Page.BodySettles random) w b)
        as [-> | (Hb & [Ha | [Hw Hst]])]; try discriminate.
      * left. exists []. now rewrite List.app_nil_r.
      * left. exists []. destruct Ha as (_ & _ & ->). now rewrite List.app_nil_r.
      * right. destruct Hw as (_ & _ & Hm). repeat split; auto; discriminate.
  - intros ->. destruct ev as [c| | |]; reflexivity.
Qed.

(** *** The handler without interruption

    The events of the handler for a network [net], when nothing else runs
    between them. *)
Fixpoint probe_events (net : list N -> fetch_result (num := num)) (id : list N)
    (random : num) (rest : list (list N * list N * log_entry (num := num)))
    : list (Page.event (num := num)) :=
  match rest with
  | [] => []
  | (base, _, _) :: rest' =>
      match net (session_url base id) with
      | NetworkError => Page.ProbeSettles NetworkError random :: probe_events net id random rest'
      | Response true (Some context) =>
          [Page.ProbeSettles (Response true (Some context)) random; Page.BodySettles random]
      | Response true None =>
          Page.ProbeSettles (Response true None) random :: Page.BodySettles random
          :: probe_events net id random rest'
      | Response false json =>
          Page.ProbeSettles (Response false json) random :: probe_events net id random rest'
      end
  end.

Definition startup_events (e : env) (hash : list N)
    (net : list N -> fetch_result (num := num)) (random : num)
    : list (Page.event (num := num)) :=
  Page.Load e hash random
  :: match params_get (hashParams hash) (str "session") with
     | Some (c :: id) => probe_events net (c :: id) random Page.probes
     | _ => []
     end.

Lemma bind_console {A} (entry : log_entry) (k : unit -> M (num := num) A)
    (w : widget (num := num)) :
  bind (console_write entry) k w = k tt (snd (console_write entry w)).
Proof. reflexivity. Qed.

Lemma bind_result {A B} (m : M (num := num) A) (k : A -> M B) (w w' : widget (num := num))
    (a : A) :
  m w = (Ok a, w') -> bind m k w = k a w'.
Proof. intros H. unfold bind. now rewrite H. Qed.

Lemma probes_uninterrupted (hash : list N) (c : N) (id : list N)
    (net : list N -> fetch_result (num := num)) (random : num) (w : widget (num := num)) :
  params_get (hashParams hash) (str "session") = Some (c :: id) ->
  fold_left (fun p ev => Page.step params_get ev p)
    (probe_events net (c :: id) random Page.probes) (Page.enter (c :: id) 0 random w)
  = (snd (bind (loadAuditContext params_get hash net) (Page.resume random) w), Page.Started).
Proof.
  intros Hp. unfold loadAuditContext. rewrite Hp.
  unfold probe_events, Page.probes, Page.enter, probe, fetch_get, try_catch, bind, issue,
    modify, lift, ret, throw, console_write.
  cbn -[str Page.resume session_url TOOL5_API TOOL4_API TOOL3_API].
  destruct (net (session_url TOOL5_API (c :: id))) as [|[|] [c5|]];
    cbn -[str Page.resume session_url TOOL5_API TOOL4_API TOOL3_API];
    try reflexivity;
    (destruct (net (session_url TOOL4_API (c :: id))) as [|[|] [c4|]];
     cbn -[str Page.resume session_url TOOL5_API TOOL4_API TOOL3_API];
     try reflexivity;
     (destruct (net (session_url TOOL3_API (c :: id))) as [|[|] [c3|]];
      cbn -[str Page.resume session_url TOOL5_API TOOL4_API TOOL3_API];
      reflexivity)).
Qed.

(** Run without interruption, the handler cut at its awaits does what
    [DOMContentLoaded] does in one run, and has ended. *)
Lemma startup_uninterrupted (e : env) (hash : list N)
    (net : list N -> fetch_result (num := num)) (random : num) (w : widget (num := num)) :
  Page.run params_get (startup_events e hash net random) (w, Page.Unloaded)
  = (snd (DOMContentLoaded params_get e hash net random w), Page.Started).
Proof.
  set (w0 := snd (console_write (LogEntry Log (str "Nuru Chat Widget initialized") None) w)).
  destruct (getSessionId_frame e w0) as (r & w1 & E & _).
  assert (E1 : snd (bind (console_write (LogEntry Log (str "Nuru Chat Widget initialized") None))
                      (fun _ => bind (getSessionId e) (fun _ => ret tt)) w) = w1).
  { rewrite bind_console. fold w0. now rewrite (bind_result _ _ _ _ _ E). }
  assert (E2 : DOMContentLoaded params_get e hash net random w
               = bind (loadAuditContext params_get hash net) (Page.resume random) w1).
  { unfold DOMContentLoaded. rewrite bind_console. fold w0.
    now rewrite (bind_result _ _ _ _ _ E). }
  rewrite E2. unfold startup_events, Page.run. cbn [fold_left Page.step fst snd].
  unfold Page.load. rewrite E1.
  destruct (params_get (hashParams hash) (str "session")) as [[|c id]|] eqn:Hp.
  - unfold loadAuditContext. now rewrite Hp.
  - now apply probes_uninterrupted.
  - unfold loadAuditContext. now rewrite Hp.
Qed.

End WithEngine.

(** *** A submission made while the probes are on the network *)
Import Reference.

(** The page is loaded with a session parameter; the user sends a message
    while the first probe is pending; then the three probes fail. *)
Definition early_submission : list (Page.event (num := qnum)) :=
  [ Page.Load demo_env ResolverFacts.demo_hash (Fin 0);
    Page.Chat (UserTypes (str "hi"));
    Page.Chat (Submit demo_env);
    Page.ProbeSettles NetworkError (Fin 0);
    Page.ProbeSettles NetworkError (Fin 0);
    Page.ProbeSettles NetworkError (Fin 0) ].

(** The handler has emptied the container: the greeting is the only node,
    the message of the user and the indicator are gone, and the request is
    still pending with the flag up. *)
Lemma early_submission_emptied :
  let p := Page.run params_get early_submission (Page.initial ∅) in
  chatMessages (fst p)
  = [MessageNode false (Markdown.parseMarkdown generic_greeting)]
  /\ count_typing (chatMessages (fst p)) = 0
  /\ inflight (fst p) = [AwaitFetch]
  /\ isWaitingForResponse (fst p) = true
  /\ snd p = Page.Started.
Proof. vm_compute. repeat split. Qed.

End PageFacts.

(** ** Every tag of the output is one of the renderer's own *)
Module TagFacts.
Import JS Markdown Text ReplaceFacts RuleFacts RenderFacts FuelFacts.

(** The tags the renderer writes. *)
Definition tags : list (list N) :=
  [h4_open; h4_close; h3_open; h3_close; strong_open; strong_close; em_open; em_close;
   li_open; li_close; ul_open; ul_close; hr_tag; br_tag; p_open; p_close].

(** A text made of code units other than [<] and of whole tags. *)
Inductive woven : list N -> Prop :=
| woven_nil : woven []
| woven_char (c : N) (s : list N) : c <> 60%N -> woven s -> woven (c :: s)
| woven_tag (t s : list N) : In t tags -> woven s -> woven (t ++ s).

(** The code units of the tags after their [<]. *)
Definition inner_chars : list N :=
  Eval vm_compute in (nodup N.eq_dec (flat_map (@tl N) tags)).

Definition inner_char (c : N) : bool := existsb (N.eqb c) inner_chars.

Lemma inner_char_spec (c : N) :
  inner_char c = true -> c <> 60%N /\ c <> star /\ is_lt c = false.
Proof.
  unfold inner_char. intros H. apply existsb_exists in H as (x & Hx & E).
  apply N.eqb_eq in E as ->.
  assert (F : forallb (fun c => negb (N.eqb c 60) && negb (N.eqb c star) && negb (is_lt c))
                inner_chars = true) by (vm_compute; reflexivity).
  rewrite forallb_forall in F. specialize (F _ Hx).
  apply andb_true_iff in F as [F F3]. apply andb_true_iff in F as [F1 F2].
  apply negb_true_iff in F1, F2, F3. apply N.eqb_neq in F1, F2. now repeat split.
Qed.

Lemma tag_shape (t : list N) :
  In t tags -> exists v, t = 60%N :: v /\ Forall (fun c => inner_char c = true) v.
Proof.
  intros H. exists (tl t).
  assert (F : forallb (fun t => match t with
                                | c :: v => N.eqb c 60 && forallb inner_char v
                                | [] => false
                                end) tags = true) by (vm_compute; reflexivity).
  rewrite forallb_forall in F. specialize (F _ H). destruct t as [|c v]; [discriminate|].
  apply andb_true_iff in F as [F1 F2]. apply N.eqb_eq in F1 as ->.
  split; [reflexivity|]. cbn [tl]. apply List.Forall_forall. intros x Hx.
  rewrite forallb_forall in F2. now apply F2.
Qed.

Lemma woven_plain (s : list N) : ~ In 60%N s -> woven s.
Proof.
  induction s as [|c s IH]; intros H; [constructor|].
  apply woven_char; [intros ->; apply H; now left | apply IH; intros Hin; apply H; now right].
Qed.

Lemma woven_inner (v : list N) : Forall (fun c => inner_char c = true) v -> woven v.
Proof.
  intros H. apply woven_plain. intros Hin. rewrite List.Forall_forall in H.
  specialize (H _ Hin). now apply inner_char_spec in H as [? _].
Qed.

Lemma woven_app (a b : list N) : woven a -> woven b -> woven (a ++ b).
Proof.
  intros Ha Hb. induction Ha as [|c s Hc _ IH|t s Ht _ IH].
  - exact Hb.
  - cbn [app]. now apply woven_char.
  - rewrite <- List.app_assoc. now apply woven_tag.
Qed.

Lemma woven_one (t : list N) : In t tags -> woven t.
Proof.
  intros H. rewrite <- (List.app_nil_r t). apply woven_tag; [exact H | constructor].
Qed.

(** What follows a cut of a woven text is woven. *)
Lemma woven_suffix (s : list N) :
  woven s -> forall a b, s = a ++ b -> woven b.
Proof.
  induction 1 as [|c s Hc Hs IH|t s Ht Hs IH]; intros a b E.
  - symmetry in E. apply app_eq_nil in E as [_ ->]. constructor.
  - destruct a as [|x a]; cbn [app] in E.
    + subst b. now apply woven_char.
    + injection E as _ E. now apply (IH a).
  - symmetry in E. apply List.app_eq_app in E as (l & [[-> ->] | [-> ->]]).
    + now apply (IH l).
    + destruct (tag_shape _ Ht) as (v & Et & Hv).
      destruct a as [|x a]; cbn [app] in Et.
      * subst l. now apply woven_tag.
      * injection Et as _ <-. apply Forall_app in Hv as [_ Hl].
        apply woven_app; [now apply woven_inner | exact Hs].
Qed.

(** What precedes a cut of a woven text is woven when the cut is before a
    code unit that no tag holds after its first. *)
Lemma woven_prefix (s : list N) :
  woven s -> forall a c b, s = a ++ c :: b -> inner_char c = false -> woven a.
Proof.
  induction 1 as [|x s Hx Hs IH|t s Ht Hs IH]; intros a c b E Hc.
  - now destruct a.
  - destruct a as [|y a]; cbn [app] in E; [constructor|].
    injection E as <- E. apply woven_char; [exact Hx | now apply (IH a c b)].
  - symmetry in E. apply List.app_eq_app in E as (l & [[-> ->] | [-> E]]).
    + apply woven_app; [now apply woven_one | now apply (IH l c b)].
    + destruct l as [|y l]; cbn [app] in E.
      * rewrite List.app_nil_r in Ht. now apply woven_one.
      * injection E as <- _. destruct (tag_shape _ Ht) as (v & Et & Hv).
        destruct a as [|z a]; cbn [app] in Et; [constructor|].
        injection Et as _ <-. apply Forall_app in Hv as [_ Hv].
        inversion Hv; subst. congruence.
Qed.

(** In a woven text every [<] starts a tag. *)
Lemma woven_tags (s a b : list N) :
  woven s -> s = a ++ 60%N :: b -> exists t b', In t tags /\ 60%N :: b = t ++ b'.
Proof.
  intros Hs E. pose proof (woven_suffix s Hs a (60%N :: b) E) as H.
  inversion H as [|c s' Hc _|t s' Ht _ Et]; [congruence|]. now exists t, s'.
Qed.

(** *** The rules keep the tags whole *)

(** [p] is directly followed by [c] inside a tag; [v] is what a tag holds
    after [p]. *)
Definition mid (p c : N) : Prop := exists t u v, In t tags /\ t = u ++ p :: c :: v.
Definition tail_of (p : N) (v : list N) : Prop := exists t u, In t tags /\ t = u ++ p :: v.

Lemma mid_spec (p c : N) : mid p c -> is_lt p = false /\ inner_char c = true.
Proof.
  intros (t & u & v & Ht & E). destruct (tag_shape _ Ht) as (w & Et & Hw). subst t.
  destruct u as [|x u]; cbn [app] in Et.
  - injection Et as -> <-. split; [reflexivity|]. now inversion Hw.
  - injection Et as _ <-. apply Forall_app in Hw as [_ Hw].
    inversion Hw as [|? ? Hp Hw']; subst. inversion Hw' as [|? ? Hc _]; subst.
    split; [now apply inner_char_spec in Hp | exact Hc].
Qed.

Lemma tail_of_cons (p c : N) (v : list N) : tail_of p (c :: v) -> mid p c /\ tail_of c v.
Proof.
  intros (t & u & Ht & E). split.
  - now exists t, u, v.
  - exists t, (u ++ [p]). split; [exact Ht|]. now rewrite <- List.app_assoc.
Qed.

Record weaves (m : matcher) : Prop := {
  weaves_split : forall prev s h, m prev s = Some h -> s = matched h ++ rest h;
  weaves_repl : forall prev s h, woven s -> m prev s = Some h -> woven (repl h);
  weaves_mid : forall p c s, mid p c -> m (Some p) (c :: s) = None
}.

Lemma replace_fuel_woven (m : matcher) :
  weaves m ->
  forall fuel,
    (forall prev s, woven s -> woven (replace_fuel m fuel prev s))
    /\ (forall p v s, tail_of p v -> woven s ->
        exists out, replace_fuel m fuel (Some p) (v ++ s) = v ++ out /\ woven out).
Proof.
  intros [Hsplit Hrepl Hmid]. induction fuel as [|fuel [IH1 IH2]].
  - split; [intros prev s Hs; exact Hs|]. intros p v s _ Hs. now exists s.
  - assert (H1 : forall prev s, woven s -> woven (replace_fuel m (S fuel) prev s)).
    { intros prev s Hs. destruct s as [|c s]; [constructor|]. cbn [replace_fuel].
      destruct (m prev (c :: s)) as [h|] eqn:E.
      - pose proof (Hrepl _ _ _ Hs E) as Hr. pose proof (Hsplit _ _ _ E) as Es.
        destruct (matched h) as [|x0 x] eqn:Ex.
        + apply woven_app; [exact Hr|]. cbn [app] in Es.
          pose proof (woven_suffix _ Hs [c] s eq_refl) as Hs'.
          inversion Hs as [|c' s' Hc _|t s' Ht Hs'' Et]; subst.
          * apply woven_char; [exact Hc | now apply IH1].
          * destruct (tag_shape _ Ht) as (v & -> & Hv). cbn [app] in Et.
            injection Et as <- <-.
            destruct (IH2 60%N v s') as (out & -> & Ho); [now exists (60%N :: v), [] | exact Hs''|].
            change (60%N :: v ++ out) with ((60%N :: v) ++ out). now apply woven_tag.
        + apply woven_app; [exact Hr|]. apply IH1.
          now apply (woven_suffix _ Hs (x0 :: x) (rest h)).
      - inversion Hs as [|c' s' Hc Hs'|t s' Ht Hs' Et]; subst.
        + apply woven_char; [exact Hc | now apply IH1].
        + destruct (tag_shape _ Ht) as (v & -> & Hv). cbn [app] in Et.
          injection Et as <- <-.
          destruct (IH2 60%N v s') as (out & -> & Ho); [now exists (60%N :: v), [] | exact Hs'|].
          change (60%N :: v ++ out) with ((60%N :: v) ++ out). now apply woven_tag. }
    split; [exact H1|].
    intros p v s Ht Hs. destruct v as [|c v].
    + exists (replace_fuel m (S fuel) (Some p) s). split; [reflexivity | now apply H1].
    + apply tail_of_cons in Ht as [Hm Ht]. cbn [app replace_fuel].
      rewrite (Hmid p c (v ++ s) Hm).
      destruct (IH2 c v s Ht Hs) as (out & -> & Ho). now exists out.
Qed.

Lemma replace_woven (m : matcher) (s : list N) :
  weaves m -> woven s -> woven (replace m s).
Proof.
  intros Hm Hs. unfold replace. now apply (replace_fuel_woven m Hm).
Qed.

(** *** Each rule *)

Ltac in_tags := unfold tags; repeat (first [left; reflexivity | right]).

Lemma inner_lt (x : N) : is_lt x = true -> inner_char x = false.
Proof.
  intros H. destruct (inner_char x) eqn:E; [|reflexivity].
  apply inner_char_spec in E as (_ & _ & E). congruence.
Qed.

Lemma take_line_end (s l r : list N) :
  take_line s = (l, r) ->
  s = l ++ r /\ (r = [] \/ exists x r', r = x :: r' /\ is_lt x = true).
Proof.
  revert l r. induction s as [|c s IH]; intros l r H; cbn [take_line] in H.
  - injection H as <- <-. split; [reflexivity | now left].
  - destruct (is_lt c) eqn:Ec.
    + injection H as <- <-. split; [reflexivity|]. right. now exists c, s.
    + destruct (take_line s) as [l' r'] eqn:E. injection H as <- <-.
      destruct (IH l' r' eq_refl) as [-> Hr]. now split.
Qed.

Lemma woven_line (text r : list N) :
  woven (text ++ r) -> (r = [] \/ exists x r', r = x :: r' /\ is_lt x = true) ->
  woven text.
Proof.
  intros H [-> | (x & r' & -> & Hx)].
  - now rewrite List.app_nil_r in H.
  - apply (woven_prefix _ H text x r' eq_refl). now apply inner_lt.
Qed.

Lemma line_rule_weaves marker open close :
  In open tags -> In close tags ->
  (forall prev s h, line_rule marker open close prev s = Some h -> s = matched h ++ rest h) ->
  weaves (line_rule marker open close).
Proof.
  intros Ho Hc Hsplit. split; [exact Hsplit | |].
  - intros prev s h Hs H. pose proof (Hsplit _ _ _ H) as Es.
    apply line_rule_inv in H as (mk & after & text & _ & Et & _ & EM & ->).
    apply take_line_end in Et as [_ Hr].
    rewrite EM, <- List.app_assoc in Es.
    pose proof (woven_suffix _ Hs mk (text ++ rest h) Es) as Ht.
    apply woven_app; [now apply woven_one|].
    apply woven_app; [now apply (woven_line text (rest h)) | now apply woven_one].
  - intros p c s Hm. apply mid_spec in Hm as [Hp _].
    unfold line_rule. cbn [at_bol]. now rewrite Hp.
Qed.

Lemma m_hr_weaves : weaves m_hr.
Proof.
  split.
  - apply rules_split. cbn. tauto.
  - intros prev s h _ H. apply m_hr_inv in H as (_ & _ & _ & _ & ->).
    apply woven_one. in_tags.
  - intros p c s Hm. apply mid_spec in Hm as [Hp _].
    unfold m_hr. cbn [at_bol]. now rewrite Hp.
Qed.

Lemma star_outer : inner_char star = false.
Proof. reflexivity. Qed.

Lemma m_bold_weaves : weaves m_bold.
Proof.
  split.
  - apply rules_split. cbn. tauto.
  - intros prev s h Hs H. apply m_bold_inv in H as (cap & Es & EM & ->).
    rewrite EM, <- !List.app_assoc in Es. cbn [app] in Es.
    pose proof (woven_suffix _ Hs [star; star] _ Es) as Hc.
    apply woven_app; [apply woven_one; in_tags|].
    apply woven_app; [|apply woven_one; in_tags].
    exact (woven_prefix _ Hc cap star _ eq_refl star_outer).
  - intros p c s Hm. apply mid_spec in Hm as [_ Hc].
    apply inner_char_spec in Hc as (_ & Hc & _).
    unfold m_bold. cbn [strip]. unfold ch_eqb.
    destruct (N.eqb_spec star c); [congruence | reflexivity].
Qed.

Lemma m_italic_weaves : weaves m_italic.
Proof.
  split.
  - apply rules_split. cbn. tauto.
  - intros prev s h Hs H. apply m_italic_inv in H as (cap & Es & EM & ->).
    rewrite EM, <- !List.app_assoc in Es. cbn [app] in Es.
    pose proof (woven_suffix _ Hs [star] _ Es) as Hc.
    apply woven_app; [apply woven_one; in_tags|].
    apply woven_app; [|apply woven_one; in_tags].
    exact (woven_prefix _ Hc cap star _ eq_refl star_outer).
  - intros p c s Hm. apply mid_spec in Hm as [_ Hc].
    apply inner_char_spec in Hc as (_ & Hc & _).
    unfold m_italic. destruct s as [|c2 s]; [reflexivity|]. unfold ch_eqb at 1.
    destruct (N.eqb_spec c star); [congruence | reflexivity].
Qed.

Lemma m_parbreak_weaves : weaves m_parbreak.
Proof.
  split.
  - apply rules_split. cbn. tauto.
  - intros prev s h _ H. apply m_parbreak_inv in H as (_ & _ & ->).
    change p_break with (p_close ++ p_open).
    apply woven_tag; [in_tags | apply woven_one; in_tags].
  - intros p c s Hm. apply mid_spec in Hm as [_ Hc].
    apply inner_char_spec in Hc as (_ & _ & Hc).
    unfold m_parbreak. cbn [strip]. unfold ch_eqb.
    destruct (N.eqb_spec newline c) as [<- | _]; [discriminate | reflexivity].
Qed.

(** The match of the grouping rule ends with [</li>] or with the line feed
    after it. *)
Definition li_ends (m : list N) : Prop :=
  exists p, m = p ++ li_close \/ m = p ++ [newline].

Lemma li_ends_app (a b : list N) : li_ends b -> li_ends (a ++ b).
Proof.
  intros (p & [-> | ->]); exists (a ++ p); [left | right]; now rewrite List.app_assoc.
Qed.

Lemma li_tail_ends (s m r : list N) :
  li_tail s = Some (m, r) -> exists p, m = p ++ li_close.
Proof.
  revert m r. induction s as [|c s IH]; intros m r H; [discriminate|].
  cbn [li_tail] in H. destruct (is_lt c); [discriminate|].
  destruct (li_tail s) as [[m' r']|] eqn:E.
  - injection H as <- <-. destruct (IH m' r' eq_refl) as (p & ->). now exists (c :: p).
  - destruct (strip li_close (c :: s)) as [r0|]; [|discriminate].
    injection H as <- <-. now exists [].
Qed.

Lemma li_item_ends (s m r : list N) : li_item s = Some (m, r) -> li_ends m.
Proof.
  unfold li_item. destruct (strip li_open s) as [after|]; [|discriminate].
  destruct (li_tail after) as [[m1 r1]|] eqn:Et; [|discriminate].
  apply li_tail_ends in Et as (p & ->).
  destruct r1 as [|c r'].
  - intros H. injection H as <- <-. exists (li_open ++ p). left. reflexivity.
  - destruct (ch_eqb c newline).
    + intros H. injection H as <- <-. exists (li_open ++ p ++ li_close). right.
      reflexivity.
    + intros H. injection H as <- <-. exists (li_open ++ p). left. reflexivity.
Qed.

Lemma li_items_ends (fuel : nat) (s ms r : list N) :
  li_items fuel s = (ms, r) -> ms = [] \/ li_ends ms.
Proof.
  revert s ms r. induction fuel as [|fuel IH]; intros s ms r H; cbn [li_items] in H.
  - injection H as <- <-. now left.
  - destruct (li_item s) as [[m1 r1]|] eqn:Ei.
    + destruct (li_items fuel r1) as [ms' r'] eqn:El. injection H as <- <-. right.
      destruct (IH _ _ _ El) as [-> | He].
      * rewrite List.app_nil_r. now apply li_item_ends in Ei.
      * now apply li_ends_app.
    + injection H as <- <-. now left.
Qed.

Lemma woven_cut (s m r : list N) : woven s -> s = m ++ r -> li_ends m -> woven m.
Proof.
  intros Hs E (p & [-> | ->]); rewrite <- List.app_assoc in E.
  - apply woven_app; [|apply woven_one; in_tags].
    exact (woven_prefix _ Hs p 60%N _ E eq_refl).
  - apply woven_app; [|apply woven_plain; cbn; intuition discriminate].
    exact (woven_prefix _ Hs p newline _ E eq_refl).
Qed.

Lemma m_ul_weaves : weaves m_ul.
Proof.
  split.
  - apply rules_split. cbn. tauto.
  - intros prev s h Hs H.
    assert (Es : s = matched h ++ rest h) by (apply (rules_split m_ul) in H; [exact H | cbn; tauto]).
    assert (He : li_ends (matched h) /\ repl h = ul_open ++ matched h ++ ul_close).
    { unfold m_ul in H. destruct (li_item s) as [[m1 r1]|] eqn:Ei; [|discriminate].
      destruct (li_items (List.length r1) r1) as [ms r'] eqn:El.
      injection H as <-. cbn [matched repl]. split; [|reflexivity].
      destruct (li_items_ends _ _ _ _ El) as [-> | Hm].
      - rewrite List.app_nil_r. now apply li_item_ends in Ei.
      - now apply li_ends_app. }
    destruct He as [He ->].
    apply woven_app; [apply woven_one; in_tags|].
    apply woven_app; [|apply woven_one; in_tags].
    now apply (woven_cut s (matched h) (rest h)).
  - intros p c s Hm. apply mid_spec in Hm as [_ Hc].
    apply inner_char_spec in Hc as (Hc & _ & _).
    unfold m_ul, li_item. change li_open with (60%N :: str "li>"). cbn [strip].
    unfold ch_eqb. destruct (N.eqb_spec 60 c); [congruence | reflexivity].
Qed.

Lemma passes_weave :
  Forall weaves [m_h4; m_h3; m_bold; m_italic; m_bullet; m_ul; m_numbered; m_hr; m_parbreak].
Proof.
  repeat apply List.Forall_cons; try apply List.Forall_nil.
  - apply line_rule_weaves; [in_tags | in_tags | apply (rules_split m_h4); cbn; tauto].
  - apply line_rule_weaves; [in_tags | in_tags | apply (rules_split m_h3); cbn; tauto].
  - apply m_bold_weaves.
  - apply m_italic_weaves.
  - apply line_rule_weaves; [in_tags | in_tags | apply (rules_split m_bullet); cbn; tauto].
  - apply m_ul_weaves.
  - apply line_rule_weaves; [in_tags | in_tags | apply (rules_split m_numbered); cbn; tauto].
  - apply m_hr_weaves.
  - apply m_parbreak_weaves.
Qed.

Lemma breaks_woven (s : list N) : woven s -> woven (replace_char newline br_tag s).
Proof.
  induction 1 as [|c s Hc _ IH|t s Ht _ IH].
  - constructor.
  - change (replace_char newline br_tag (c :: s))
      with ((if ch_eqb c newline then br_tag else [c]) ++ replace_char newline br_tag s).
    destruct (ch_eqb c newline).
    + apply woven_tag; [in_tags | exact IH].
    + cbn [app]. now apply woven_char.
  - rewrite replace_char_app, (replace_char_id newline br_tag t).
    + now apply woven_tag.
    + destruct (tag_shape _ Ht) as (v & -> & Hv). intros [E | Hin]; [discriminate|].
      rewrite List.Forall_forall in Hv. specialize (Hv _ Hin).
      now apply inner_char_spec in Hv as (_ & _ & Hv).
Qed.

Lemma body_woven (text : list N) : woven (body text).
Proof.
  assert (He : woven (escape text)).
  { apply woven_plain. intros Hin. now apply escape_no_angle in Hin as [? _]. }
  pose proof passes_weave as W.
  repeat match type of W with
         | Forall _ (_ :: _) => inversion W as [|? ? ? W']; subst; clear W; rename W' into W
         end.
  unfold body, passes. cbn [fold_left].
  apply breaks_woven. repeat (apply replace_woven; [assumption|]). exact He.
Qed.

Lemma parseMarkdown_woven (text : list N) : woven (parseMarkdown text).
Proof.
  unfold parseMarkdown. destruct text as [|c text]; [constructor|].
  unfold wrap. destruct (is_block (body (c :: text))); [apply body_woven|].
  apply woven_tag; [in_tags|]. apply woven_app; [apply body_woven | apply woven_one; in_tags].
Qed.

(** Every [<] of the rendered fragment is the first code unit of one of the
    renderer's own tags, written out whole: wherever the output is cut before
    a [<], what follows starts with one of the sixteen tags.  Whatever the
    text, it holds no tag of another name and no attribute but the
    renderer's. *)
Theorem every_tag_own (text a b : list N) :
  parseMarkdown text = a ++ 60%N :: b ->
  exists t b', In t tags /\ 60%N :: b = t ++ b'.
Proof.
  intros E. exact (woven_tags _ a b (parseMarkdown_woven text) E).
Qed.

Lemma every_tag_own_witness :
  exists t b',
    In t tags
    /\ 60%N :: skipn 1 (parseMarkdown (str "## <script>alert(1)</script>")) = t ++ b'.
Proof.
  apply (every_tag_own (str "## <script>alert(1)</script>") []).
  vm_compute. reflexivity.
Defined.

End TagFacts.
